(** * EduAssist API proxy: streaming speech pipeline

    A shallow embedding of the parts of [main.py] (the FastAPI server) and
    [client.py] (the wake-word client) that carry the streaming protocol:

    - [Audio]   : the gain normalisation of the inbound frame router
                  (main.py, lines 223-239), with NumPy's int16 and float32
                  arithmetic written out;
    - [Json]    : Python dict literals as ordered association lists;
    - [Server]  : the websocket endpoint [stt_stream] (main.py, lines 69-257)
                  as a transition system over a schedule of engine callbacks,
                  fan-in task iterations and received socket messages;
    - [Http]    : [require_api_key] and the three guarded HTTP endpoints;
    - [Client]  : [processor_task] of client.py (lines 146-188), the wake /
                  record gate and its frame reassembly.

    External collaborators (the recognition engine, the wake-word detector,
    [json.loads]) are Section variables: every theorem holds for each of
    their possible behaviours. *)

From Stdlib Require Import ZArith List Lia Bool String Ascii.
From Stdlib Require Import Floats.SpecFloat.
From coqutil Require Import Byte Word.LittleEndianList.
Import ListNotations.

Set Warnings "-register-all".

Local Open Scope Z_scope.

(* ================================================================== *)
(** * Small tools shared by the modules *)

(** Exhaustive checking of a boolean predicate over an integer interval. *)
Definition zrange (lo : Z) (n : nat) : list Z :=
  map (fun k => lo + Z.of_nat k) (seq 0 n).

(** The same interval, counted up from [lo]: each element costs one
    addition, whatever its distance from [lo]. *)
Fixpoint zspan (lo : Z) (n : nat) : list Z :=
  match n with
  | O => []
  | S n' => lo :: zspan (lo + 1) n'
  end.

(* ================================================================== *)
(** * Gain normalisation (main.py, lines 225-238) *)

Module Audio.

(** ** NumPy int16 arrays over a byte buffer *)

(** Two's complement wrap-around of a 16-bit signed integer. *)
Definition wrap16 (z : Z) : Z := (z + 32768) mod 65536 - 32768.

(** [np.frombuffer(data_bytes, dtype=np.int16)] on a little-endian host.
    [None] is the [ValueError] NumPy raises when the buffer size is not a
    multiple of the element size. *)
Fixpoint frombuffer (bs : list byte) : option (list Z) :=
  match bs with
  | [] => Some []
  | [_] => None
  | lo :: hi :: rest =>
      match frombuffer rest with
      | Some arr => Some (wrap16 (le_combine [lo; hi]) :: arr)
      | None => None
      end
  end.

(** [arr.tobytes()] for an int16 array. *)
Definition tobytes (arr : list Z) : list byte :=
  flat_map (le_split 2) arr.

(** [np.abs] on int16 stays in int16: the magnitude of -32768 wraps back
    to -32768. *)
Definition np_abs (s : Z) : Z := wrap16 (Z.abs s).

(** [np.max] of a non-empty array (the caller checks [arr.size > 0]). *)
Definition np_max (arr : list Z) : Z :=
  match arr with
  | [] => 0
  | x :: rest => fold_left Z.max rest x
  end.

(** ** IEEE 754 arithmetic: Python floats are binary64, the array is
    converted to binary32 *)

Definition f64_of_Z (z : Z) : spec_float := binary_normalize 53 1024 z 0 false.
Definition f32_of_Z (z : Z) : spec_float := binary_normalize 24 128 z 0 false.

(** A Python float scalar that meets a float32 array is rounded to
    float32 before the multiplication. *)
Definition f32_of_f64 (x : spec_float) : spec_float :=
  match x with
  | S754_finite s m e => binary_round 24 128 s m e
  | _ => x
  end.

(** Python's [min(a, b)]: the first argument unless the second is smaller. *)
Definition py_min (a b : spec_float) : spec_float :=
  if SFltb b a then b else a.

Definition is_nan (x : spec_float) : bool :=
  match x with S754_nan => true | _ => false end.

(** [np.clip(x, lo, hi)] on floats: [min(max(x, lo), hi)], a NaN in [x]
    propagating. *)
Definition np_clip (x lo hi : spec_float) : spec_float :=
  let y := if is_nan x || SFltb lo x then x else lo in
  if is_nan y || SFltb y hi then y else hi.

(** [.astype(np.int16)] on a float32 inside the int16 range: truncation
    towards zero.  (After [np_clip] every finite or infinite value is in
    range; a NaN cannot arise from finite samples and a finite gain.) *)
Definition trunc_f32 (x : spec_float) : Z :=
  match x with
  | S754_finite s m e =>
      let a := match e with
               | Zneg p => Z.shiftr (Zpos m) (Zpos p)
               | _ => Z.shiftl (Zpos m) e
               end in
      if s then - a else a
  | _ => 0
  end.

(** [gain = min(3.0, 30000.0 / float(maxv))] *)
Definition gain_of (maxv : Z) : spec_float :=
  py_min (f64_of_Z 3) (SFdiv 53 1024 (f64_of_Z 30000) (f64_of_Z maxv)).

(** One element of
    [np.clip(arr.astype(np.float32) * gain, -32768.0, 32767.0).astype(np.int16)]. *)
Definition scale_sample (gain : spec_float) (s : Z) : Z :=
  trunc_f32
    (np_clip (SFmul 24 128 (f32_of_Z s) (f32_of_f64 gain))
             (f32_of_Z (-32768)) (f32_of_Z 32767)).

(** The body of [if normalize_flag: try: ... except Exception: ...]:
    the bytes that reach [push_stream.write]. *)
Definition normalize (data_bytes : list byte) : list byte :=
  match frombuffer data_bytes with
  | None => data_bytes                       (* except: raw bytes *)
  | Some arr =>
      if (0 <? List.length arr)%nat then
        let maxv := np_max (map np_abs arr) in
        if 0 <? maxv then
          let gain := gain_of maxv in
          if SFltb (f64_of_Z 1) gain
          then tobytes (map (scale_sample gain) arr)
          else data_bytes
        else data_bytes
      else data_bytes
  end.

(** ** Specification-side notions *)

(** The peak absolute sample value of a frame, as a mathematical integer. *)
Definition peak_abs (arr : list Z) : Z :=
  fold_right (fun s m => Z.max (Z.abs s) m) 0 arr.

Definition int16 (s : Z) : Prop := -32768 <= s <= 32767.

End Audio.

(* ================================================================== *)
(** * Python values that travel as JSON *)

Module Json.

Inductive json : Type :=
| JNull
| JBool (b : bool)
| JInt (z : Z)
| JFloat (f : spec_float)
| JStr (s : string)
| JList (l : list json)
| JDict (d : list (string * json)).

(** A Python [dict] with string keys: bindings in insertion order, every
    key bound once. *)
Definition dict : Type := list (string * json).

(** [d.get(k)] *)
Fixpoint dict_get (d : dict) (k : string) : option json :=
  match d with
  | [] => None
  | (k', v) :: rest => if String.eqb k k' then Some v else dict_get rest k
  end.

(** [k in d] *)
Definition dict_mem (d : dict) (k : string) : bool :=
  match dict_get d k with Some _ => true | None => false end.

(** [d[k] = v]: an existing key keeps its place, a new one goes last. *)
Fixpoint dict_set (d : dict) (k : string) (v : json) : dict :=
  match d with
  | [] => [(k, v)]
  | (k', v') :: rest =>
      if String.eqb k k' then (k', v) :: rest else (k', v') :: dict_set rest k v
  end.

(** [{**d, **extra}] *)
Definition dict_merge (d extra : dict) : dict :=
  fold_left (fun acc kv => dict_set acc (fst kv) (snd kv)) extra d.

(** Python's [==] between an optional value and a string literal. *)
Definition eq_str (v : option json) (s : string) : bool :=
  match v with
  | Some (JStr s') => String.eqb s' s
  | _ => false
  end.

(** The [type] field of an outbound message. *)
Definition msg_type (m : dict) : option json := dict_get m "type".

End Json.

(* ================================================================== *)
(** * Strings: [str.lower] and truthiness *)

Module Str.

(** [c.lower()] on the characters a header name or query value is made of
    (decoded as Latin-1): A-Z, and the accented capitals 0xC0-0xDE except
    the multiplication sign 0xD7. *)
Definition lower_char (c : ascii) : ascii :=
  let n := nat_of_ascii c in
  if ((65 <=? n) && (n <=? 90))%nat then ascii_of_nat (n + 32)
  else if ((192 <=? n) && (n <=? 222) && negb (n =? 215))%nat
       then ascii_of_nat (n + 32)
  else c.

Fixpoint lower (s : string) : string :=
  match s with
  | EmptyString => EmptyString
  | String c rest => String (lower_char c) (lower rest)
  end.

(** Truthiness of an [Optional[str]]: [None] and the empty string are false. *)
Definition truthy (o : option string) : bool :=
  match o with
  | Some s => negb (String.eqb s EmptyString)
  | None => false
  end.

(** [a or b] on optional strings. *)
Definition py_or (a b : option string) : option string :=
  if truthy a then a else b.

(** [a or d] where [d] is a string literal. *)
Definition or_default (a : option string) (d : string) : string :=
  match a with
  | Some s => if String.eqb s EmptyString then d else s
  | None => d
  end.

(** [a != b] on optional strings. *)
Definition opt_neq (a b : option string) : bool :=
  match a, b with
  | Some x, Some y => negb (String.eqb x y)
  | None, None => false
  | _, _ => true
  end.

End Str.

(* ================================================================== *)
(** * The websocket endpoint [stt_stream] (main.py, lines 69-257) *)

Module Server.
Import Json Str.

Local Open Scope string_scope.

(** ** Process configuration and the connection request *)

(** The environment variables read at import time (lines 33-37). *)
Record config : Type := {
  API_KEY : option string;
  SPEECH_KEY : option string;
  SPEECH_REGION : option string
}.

(** What the handler reads from the socket before the protocol starts:
    [ws.headers.items()] and [ws.query_params.get]. *)
Record request : Type := {
  headers : list (string * string);
  query_get : string -> option string
}.

(** [d[k] = v] on a dict of strings. *)
Fixpoint assoc_set (d : list (string * string)) (k v : string)
  : list (string * string) :=
  match d with
  | [] => [(k, v)]
  | (k', v') :: rest =>
      if String.eqb k k' then (k', v) :: rest else (k', v') :: assoc_set rest k v
  end.

(** [{k.lower(): v for k, v in ws.headers.items()}]: a later header of the
    same lowered name replaces an earlier one. *)
Definition headers_dict (items : list (string * string)) : list (string * string) :=
  fold_left (fun acc kv => assoc_set acc (lower (fst kv)) (snd kv)) items [].

Fixpoint assoc_get (d : list (string * string)) (k : string) : option string :=
  match d with
  | [] => None
  | (k', v) :: rest => if String.eqb k k' then Some v else assoc_get rest k
  end.

(** [headers.get("x-api-key") or ws.query_params.get("api_key")] *)
Definition x_api_key (req : request) : option string :=
  py_or (assoc_get (headers_dict (headers req)) "x-api-key")
        (query_get req "api_key").

(** [not API_KEY or x_api_key != API_KEY] (line 75, and line 47 of
    [require_api_key]). *)
Definition unauthorized (cfg : config) (key : option string) : bool :=
  negb (truthy (API_KEY cfg)) || opt_neq key (API_KEY cfg).

(** [str(ws.query_params.get("normalize", "false")).lower() in ("1", "true", "yes")] *)
Definition normalize_flag (req : request) : bool :=
  let v := lower (match query_get req "normalize" with
                  | Some s => s
                  | None => "false"
                  end) in
  String.eqb v "1" || String.eqb v "true" || String.eqb v "yes".

(** [make_speech_config] raises [HTTPException(500, "Speech config missing")]
    when a key or the region is missing (lines 51-52); the result is the
    exception's [str], as Starlette prints it. *)
Definition make_speech_config (cfg : config) : option string :=
  if negb (truthy (SPEECH_KEY cfg)) || negb (truthy (SPEECH_REGION cfg))
  then Some "500: Speech config missing"
  else None.

(** ** Engine events and the five queues *)

Inductive CancellationReason : Type := Error | EndOfStream | CancelledByUser.

Definition str_of_reason (r : CancellationReason) : string :=
  match r with
  | Error => "CancellationReason.Error"
  | EndOfStream => "CancellationReason.EndOfStream"
  | CancelledByUser => "CancellationReason.CancelledByUser"
  end.

Definition is_Error (r : CancellationReason) : bool :=
  match r with Error => true | _ => false end.

(** What the recognizer hands to the five connected callbacks. *)
Inductive engine_event : Type :=
| Recognizing (text : string)
| Recognized (text : string) (reason : string) (raw : option string)
    (* [res.text], [str(res.reason)], the JSON result property *)
| Canceled (reason : CancellationReason) (error_details : option string)
| SessionStarted
| SessionStopped.

(** The five event classes, one queue and one fan-in task each. *)
Inductive evclass : Type :=
| CRecognizing | CRecognized | CCanceled | CSessionStarted | CSessionStopped.

Definition evclass_eqb (a b : evclass) : bool :=
  match a, b with
  | CRecognizing, CRecognizing | CRecognized, CRecognized
  | CCanceled, CCanceled | CSessionStarted, CSessionStarted
  | CSessionStopped, CSessionStopped => true
  | _, _ => false
  end.

(** ** What the handler does to the outside world *)

Inductive writer : Type := Main | Task (c : evclass).

Inductive action : Type :=
| WsAccept
| WsSendJson (w : writer) (msg : dict)
| WsClose (code : Z)
| StartRecognition
| SinkWrite (data : list byte)
| SinkClose
| StopRecognition
| PumpCancel.

(** An ASGI message as [ws.receive()] returns it; a key can be absent
    ([None]) or present with the value [None] ([Some None]). *)
Record ws_msg : Type := {
  msg_kind : string;
  msg_text : option (option string);
  msg_bytes : option (option (list byte))
}.

Inductive phase : Type :=
| Running      (* inside the receive loop *)
| Stopping     (* waiting for [recognizer.stop_continuous_recognition] *)
| Closed.      (* the handler has returned *)

Record state : Type := {
  recognizing_q : list string;
  recognized_q : list dict;
  canceled_q : list dict;
  session_started_q : list bool;
  session_stopped_q : list bool;
  ph : phase;
  ended : list evclass;       (* the fan-in tasks that no longer run *)
  trace : list action
}.

Definition emit (st : state) (acts : list action) : state :=
  {| recognizing_q := recognizing_q st;
     recognized_q := recognized_q st;
     canceled_q := canceled_q st;
     session_started_q := session_started_q st;
     session_stopped_q := session_stopped_q st;
     ph := ph st;
     ended := ended st;
     trace := trace st ++ acts |}.

Definition set_phase (st : state) (p : phase) : state :=
  {| recognizing_q := recognizing_q st;
     recognized_q := recognized_q st;
     canceled_q := canceled_q st;
     session_started_q := session_started_q st;
     session_stopped_q := session_stopped_q st;
     ph := p;
     ended := ended st;
     trace := trace st |}.

(** The tasks [cs] end. *)
Definition end_tasks (st : state) (cs : list evclass) : state :=
  {| recognizing_q := recognizing_q st;
     recognized_q := recognized_q st;
     canceled_q := canceled_q st;
     session_started_q := session_started_q st;
     session_stopped_q := session_stopped_q st;
     ph := ph st;
     ended := cs ++ ended st;
     trace := trace st |}.

Definition all_classes : list evclass :=
  [CRecognizing; CRecognized; CCanceled; CSessionStarted; CSessionStopped].

(** Is the fan-in task of class [c] still running? *)
Definition pumping (c : evclass) (st : state) : bool :=
  negb (existsb (evclass_eqb c) (ended st)).

(** How [await ws.close()] of line 248 ends. *)
Inductive close_outcome : Type :=
| CloseReturns
| CloseDisconnect
    (* it raises [WebSocketDisconnect]: line 250 *)
| CloseRaises (e : string) (send_ok : bool).
    (* it raises another exception, of [str] [e]: lines 251-257;
       [send_ok]: the [send_json] of line 253 returns, so that the
       [close] of line 254 is reached *)

(** What the scheduler can let happen next on a connection.  The calls
    of the main task inside the loop - [ws.receive], [ws.send_json] of
    the acknowledgement, [push_stream.write] - and the two executor calls
    are taken to return; a [ws.send_json] of a fan-in task and the
    [ws.close()] of line 248 can also raise. *)
Inductive sched : Type :=
| Engine (e : engine_event)     (* the engine fires a callback *)
| Pump (c : evclass)            (* one iteration of a fan-in task *)
| PumpRaises (c : evclass)      (* one in which [ws.send_json] raises *)
| Recv (m : ws_msg)             (* [ws.receive()] returns *)
| StopReturned (o : close_outcome).
    (* the executor call of line 242 returns; [o]: how the [ws.close()]
       of line 248 then ends *)

Section WithJson.

(** [json.loads]; [None] is any exception it raises. *)
Variable json_loads : string -> option json.

(** *** The five callbacks (lines 116-152) *)

Definition handle_recognizing (st : state) (text : string) : state :=
  {| recognizing_q := recognizing_q st ++ [text];
     recognized_q := recognized_q st;
     canceled_q := canceled_q st;
     session_started_q := session_started_q st;
     session_stopped_q := session_stopped_q st;
     ph := ph st; ended := ended st; trace := trace st |}.

Definition put_recognized (st : state) (payload : dict) : state :=
  {| recognizing_q := recognizing_q st;
     recognized_q := recognized_q st ++ [payload];
     canceled_q := canceled_q st;
     session_started_q := session_started_q st;
     session_stopped_q := session_stopped_q st;
     ph := ph st; ended := ended st; trace := trace st |}.

Definition handle_recognized (st : state) (text reason : string)
    (raw : option string) : state :=
  let payload := [("text", JStr text); ("reason", JStr reason)] in
  if truthy raw then
    match json_loads (match raw with Some r => r | None => EmptyString end) with
    | Some v => put_recognized st (dict_set payload "raw" v)
    | None => st                       (* except Exception: pass *)
    end
  else put_recognized st payload.

Definition put_canceled (st : state) (item : dict) : state :=
  {| recognizing_q := recognizing_q st;
     recognized_q := recognized_q st;
     canceled_q := canceled_q st ++ [item];
     session_started_q := session_started_q st;
     session_stopped_q := session_stopped_q st;
     ph := ph st; ended := ended st; trace := trace st |}.

Definition handle_session_started (st : state) : state :=
  {| recognizing_q := recognizing_q st;
     recognized_q := recognized_q st;
     canceled_q := canceled_q st;
     session_started_q := session_started_q st ++ [true];
     session_stopped_q := session_stopped_q st;
     ph := ph st; ended := ended st; trace := trace st |}.

Definition handle_session_stopped (st : state) : state :=
  {| recognizing_q := recognizing_q st;
     recognized_q := recognized_q st;
     canceled_q := canceled_q st;
     session_started_q := session_started_q st;
     session_stopped_q := session_stopped_q st ++ [true];
     ph := ph st; ended := ended st; trace := trace st |}.

Definition handle_canceled (st : state) (reason : CancellationReason)
    (error_details : option string) : state :=
  if is_Error reason then
    put_canceled st
      [("reason", JStr (str_of_reason reason));
       ("error", JStr (or_default error_details "unknown"))]
  else handle_session_stopped st.

Definition on_engine (st : state) (e : engine_event) : state :=
  match e with
  | Recognizing text => handle_recognizing st text
  | Recognized text reason raw => handle_recognized st text reason raw
  | Canceled reason det => handle_canceled st reason det
  | SessionStarted => handle_session_started st
  | SessionStopped => handle_session_stopped st
  end.

(** *** The five fan-in tasks (lines 165-191): the message each writes
    for an item of its queue *)

Definition msg_partial (text : string) : dict :=
  [("type", JStr "partial"); ("text", JStr text)].

Definition msg_recognized (payload : dict) : dict :=
  if dict_mem payload "error"
     || eq_str (dict_get payload "reason") "CancellationReason.Error"
  then dict_merge [("type", JStr "error")] payload
  else dict_merge [("type", JStr "final")] payload.

Definition msg_canceled (item : dict) : dict :=
  dict_merge [("type", JStr "error")] item.

Definition msg_session_started (_ : bool) : dict :=
  [("type", JStr "session"); ("event", JStr "started")].

Definition msg_session_stopped (_ : bool) : dict :=
  [("type", JStr "session"); ("event", JStr "stopped")].

(** The messages the task of class [c] has yet to write, in queue order. *)
Definition pending (c : evclass) (st : state) : list dict :=
  match c with
  | CRecognizing => map msg_partial (recognizing_q st)
  | CRecognized => map msg_recognized (recognized_q st)
  | CCanceled => map msg_canceled (canceled_q st)
  | CSessionStarted => map msg_session_started (session_started_q st)
  | CSessionStopped => map msg_session_stopped (session_stopped_q st)
  end.

(** [await q.get()]: the queue of class [c] without its head. *)
Definition pop (c : evclass) (st : state) : state :=
  {| recognizing_q :=
       match c with CRecognizing => tl (recognizing_q st) | _ => recognizing_q st end;
     recognized_q :=
       match c with CRecognized => tl (recognized_q st) | _ => recognized_q st end;
     canceled_q :=
       match c with CCanceled => tl (canceled_q st) | _ => canceled_q st end;
     session_started_q :=
       match c with CSessionStarted => tl (session_started_q st) | _ => session_started_q st end;
     session_stopped_q :=
       match c with CSessionStopped => tl (session_stopped_q st) | _ => session_stopped_q st end;
     ph := ph st; ended := ended st; trace := trace st |}.

(** One iteration of the task of class [c]: blocked on an empty queue,
    otherwise it takes the head and writes its message. *)
Definition on_pump (st : state) (c : evclass) : state :=
  match pending c st with
  | [] => st
  | m :: _ => emit (pop c st) [WsSendJson (Task c) m]
  end.

(** The same iteration when [ws.send_json] raises: the item is taken, the
    call is made, and the exception ends the task.  [gather] hands it to
    [pump_events], which swallows it and returns (lines 193-204); the
    other four tasks go on. *)
Definition on_pump_raises (st : state) (c : evclass) : state :=
  match pending c st with
  | [] => st
  | m :: _ => end_tasks (emit (pop c st) [WsSendJson (Task c) m]) [c]
  end.

(** [pump_task.cancel()] (line 243).  While [gather] is pending the
    cancellation reaches the five tasks.  Once a task has raised,
    [pump_events] has returned: the call finds [pump_task] done and
    cancels nothing. *)
Definition cancel_pump (st : state) : state :=
  match ended st with
  | [] => end_tasks st all_classes
  | _ :: _ => st
  end.

(** *** The receive loop (lines 208-239) *)

(** The [try] block of lines 214-221: did the text carry [event == "stop"]? *)
Definition is_stop (m : ws_msg) : bool :=
  match msg_text m with
  | None => false                                   (* "text" not in msg *)
  | Some t =>
      if truthy t then
        match json_loads (match t with Some s => s | None => EmptyString end) with
        | Some (JDict data) => eq_str (dict_get data "event") "stop"
        | Some _ => false          (* no [.get] on it: AttributeError, passed *)
        | None => false            (* json.loads raised, passed *)
        end
      else false                                    (* data = {} *)
  end.

Definition stop_ack : dict := [("type", JStr "info"); ("event", JStr "stop_ack")].

Definition bytes_truthy (b : option (option (list byte))) : option (list byte) :=
  match b with
  | Some (Some (x :: r)) => Some (x :: r)
  | _ => None
  end.

Definition on_receive (norm : bool) (st : state) (m : ws_msg) : state :=
  if String.eqb (msg_kind m) "websocket.disconnect" then
    (* break; push_stream.close(); stop_continuous_recognition in the executor *)
    set_phase (emit st [SinkClose; StopRecognition]) Stopping
  else if String.eqb (msg_kind m) "websocket.receive" && is_stop m then
    emit st [WsSendJson Main stop_ack]                       (* continue *)
  else if String.eqb (msg_kind m) "websocket.receive" then
    match bytes_truthy (msg_bytes m) with
    | Some data_bytes =>
        emit st [SinkWrite (if norm then Audio.normalize data_bytes else data_bytes)]
    | None => st
    end
  else st.

(** *** The end of the handler (lines 243-257) *)

Definition error_msg (detail : string) : dict :=
  [("type", JStr "error"); ("error", JStr detail)].

(** The calls of [pump_task.cancel(); await pump_task; await ws.close()]
    and of the [except] branches when [ws.close()] raises: nothing more
    for a [WebSocketDisconnect]; for another exception a [send_json] of
    the error and, if that returns, a second [ws.close()], whatever they
    raise being passed. *)
Definition closing (o : close_outcome) : list action :=
  [PumpCancel; WsClose 1000]
  ++ match o with
     | CloseReturns | CloseDisconnect => []
     | CloseRaises e send_ok =>
         WsSendJson Main (error_msg e) :: if send_ok then [WsClose 1000] else []
     end.

Definition teardown (st : state) (o : close_outcome) : state :=
  set_phase (emit (cancel_pump st) (closing o)) Closed.

(** *** One scheduler step *)

Definition step (norm : bool) (st : state) (i : sched) : state :=
  match i with
  | Engine e => on_engine st e
  | Pump c => if pumping c st then on_pump st c else st
  | PumpRaises c => if pumping c st then on_pump_raises st c else st
  | Recv m =>
      match ph st with
      | Running => on_receive norm st m
      | _ => st                                          (* nobody is reading *)
      end
  | StopReturned o =>
      match ph st with
      | Stopping => teardown st o
      | _ => st
      end
  end.

Definition run (norm : bool) (st : state) (schedule : list sched) : state :=
  fold_left (step norm) schedule st.

(** *** The whole handler *)

Definition ready : dict := [("type", JStr "ready")].

Definition empty_state : state :=
  {| recognizing_q := []; recognized_q := []; canceled_q := [];
     session_started_q := []; session_stopped_q := [];
     ph := Running; ended := []; trace := [] |}.

(** The messages the task of class [c] will write for the event [e]:
    what the callback adds to the queue of that class. *)
Definition routed (c : evclass) (e : engine_event) : list dict :=
  pending c (on_engine empty_state e).

(** Where an SDK call of the startup raises: the audio objects are built
    (lines 84-90) before [make_speech_config] is called and makes its
    check (lines 92, 51-52); the rest of [make_speech_config], the
    recognizer, its phrase list, its callbacks and its start come after
    the check (lines 53-66, 94-160). *)
Inductive sdk_stage : Type := AudioSetup | RecognizerSetup.

(** The exception of an SDK call: where it was raised, and its [str]. *)
Record sdk_error : Type := { stage : sdk_stage; message : string }.

(** What the [except] branch of lines 251-257 does with an exception of
    the startup. *)
Definition startup_failed (e : string) : list action :=
  [WsAccept; WsSendJson Main (error_msg e); WsClose 1000].

(** [stt_stream]: everything the handler does on one connection.
    [sdk_failure] is the exception an SDK call of lines 84-160 raises, if
    one does; [early] are the callbacks the engine fires while
    recognition starts (line 160), before [ready] is written; [schedule]
    is what happens from then on. *)
Definition stt_stream (cfg : config) (req : request)
    (sdk_failure : option sdk_error) (early : list engine_event)
    (schedule : list sched) : list action :=
  if unauthorized cfg (x_api_key req) then
    [WsAccept; WsSendJson Main (error_msg "unauthorized"); WsClose 4401]
  else
    match sdk_failure, make_speech_config cfg with
    | Some (Build_sdk_error AudioSetup e), _ => startup_failed e
    | _, Some e => startup_failed e
    | Some (Build_sdk_error RecognizerSetup e), None => startup_failed e
    | None, None =>
        let st0 := fold_left on_engine early empty_state in
        let st1 := emit st0 [WsAccept; StartRecognition;
                             WsSendJson Main ready] in
        trace (run (normalize_flag req) st1 schedule)
    end.

End WithJson.

(** ** Reading a trace *)

(** The outbound messages of a trace, in the order they were written. *)
Fixpoint sends (tr : list action) : list dict :=
  match tr with
  | [] => []
  | WsSendJson _ m :: rest => m :: sends rest
  | _ :: rest => sends rest
  end.

(** The messages the fan-in task of class [c] wrote. *)
Fixpoint sent_by (c : evclass) (tr : list action) : list dict :=
  match tr with
  | [] => []
  | WsSendJson (Task c') m :: rest =>
      if evclass_eqb c c' then m :: sent_by c rest else sent_by c rest
  | _ :: rest => sent_by c rest
  end.

Definition is_ready (m : dict) : bool := eq_str (msg_type m) "ready".
Definition is_error (m : dict) : bool := eq_str (msg_type m) "error".

Definition is_engine (i : sched) : bool :=
  match i with Engine _ => true | _ => false end.

Definition not_ready (m : dict) : Prop := is_ready m = false.

(** No message waiting in a queue is a [ready]. *)
Definition queues_ok (st : state) : Prop :=
  forall c, Forall not_ready (pending c st).

(** ** A concrete [json.loads] for examples *)

Definition quote : string := String (ascii_of_nat 34) EmptyString.

(** The text [json.dumps({"event": "stop"})] the client sends. *)
Definition stop_text : string :=
  "{" ++ quote ++ "event" ++ quote ++ ": " ++ quote ++ "stop" ++ quote ++ "}".

(** A parser that knows this one text and rejects every other. *)
Definition loads_stop_only (s : string) : option json :=
  if String.eqb s stop_text then Some (JDict [("event", JStr "stop")]) else None.

End Server.

(* ================================================================== *)
(** * The guarded HTTP endpoints (main.py, lines 46-48 and 259-358) *)

Module Http.
Import Json Str.

Local Open Scope string_scope.

(** A handler either returns or raises [HTTPException(status, detail)]. *)
Inductive result (A : Type) : Type :=
| Ok (a : A)
| HTTPException (status_code : Z) (detail : string).

Arguments Ok {A} a.
Arguments HTTPException {A} status_code detail.

Definition bind {A B : Type} (r : result A) (k : A -> result B) : result B :=
  match r with
  | Ok a => k a
  | HTTPException c d => HTTPException c d
  end.

(** [require_api_key] (lines 46-48). *)
Definition require_api_key (cfg : Server.config) (x_api_key : option string)
  : result unit :=
  if negb (truthy (Server.API_KEY cfg)) || opt_neq x_api_key (Server.API_KEY cfg)
  then HTTPException 401 "Invalid or missing API key"
  else Ok tt.

Section Endpoints.

(** The responses of the three handlers. *)
Variable response : Type.

(** What each handler does after its guard: it only talks to the speech
    and language engines. *)
Variable stt_file_body : list byte -> option string -> option string -> result response.
Variable tts_body : dict -> result response.
Variable clu_predict_body : dict -> result response.

(** [POST /v1/speech/stt] (line 266: the guard is the first statement). *)
Definition stt_file (cfg : Server.config) (audio : list byte)
    (language endpoint_id x_api_key : option string) : result response :=
  bind (require_api_key cfg x_api_key)
       (fun _ => stt_file_body audio language endpoint_id).

(** [POST /v1/speech/tts] (line 292). *)
Definition tts (cfg : Server.config) (payload : dict)
    (x_api_key : option string) : result response :=
  bind (require_api_key cfg x_api_key) (fun _ => tts_body payload).

(** [POST /v1/clu/predict] (line 324). *)
Definition clu_predict (cfg : Server.config) (payload : dict)
    (x_api_key : option string) : result response :=
  bind (require_api_key cfg x_api_key) (fun _ => clu_predict_body payload).

End Endpoints.

End Http.

(* ================================================================== *)
(** * The client's wake / record gate ([processor_task], client.py 146-188) *)

Module Client.

Inductive gate_state : Type := Idle | Recording.

(** The calls the loop body makes on its collaborators. *)
Inductive effect : Type :=
| Detect (frame : list byte) (result : option Z)
    (* [porcupine.process(frame)]; [None] when it raised *)
| Put (frame : list byte) (accepted : bool)
    (* [send_q.put_nowait(frame_bytes)]; [false] on [QueueFull] *)
| WsSend (chunk : list byte).
    (* [ws.send(chunk)] of the sender task *)

Definition frame_of (e : effect) : list (list byte) :=
  match e with
  | Detect f _ => [f]
  | Put f _ => [f]
  | WsSend _ => []
  end.

Definition is_detect (e : effect) : Prop :=
  match e with Detect _ _ => True | _ => False end.

(** The detector reported the keyword: an index that is not negative. *)
Definition is_wake (r : option Z) : bool :=
  match r with Some k => 0 <=? k | None => false end.

(** Reading a log from a point at which the gate is open ([armed]) or
    not: is every [Put] made with the gate open?  The frame of a
    [Detect] leaves it open when the keyword was reported and closed
    otherwise; the frame of a [Put] leaves it open. *)
Fixpoint gated (armed : bool) (log : list effect) : bool :=
  match log with
  | [] => true
  | Detect _ r :: rest => gated (is_wake r) rest
  | Put _ _ :: rest => armed && gated true rest
  | WsSend _ :: rest => gated armed rest
  end.

(** Is the gate open at the end of the log? *)
Fixpoint armed_after (armed : bool) (log : list effect) : bool :=
  match log with
  | [] => armed
  | Detect _ r :: rest => armed_after (is_wake r) rest
  | Put _ _ :: rest => armed_after true rest
  | WsSend _ :: rest => armed_after armed rest
  end.

(** [send_q = asyncio.Queue(maxsize=20)] *)
Definition send_q_maxsize : nat := 20.

(** [buf[a:b]] for [0 <= a <= b]. *)
Definition slice (buf : list byte) (a b : nat) : list byte :=
  firstn (b - a) (skipn a buf).

Section Gate.

(** The wake-word detector: its internal state, and [process], which
    returns a keyword index or raises ([None]). *)
Variable DetState : Type.
Variable porcupine_process : DetState -> list byte -> DetState * option Z.

(** [porcupine.frame_length] *)
Variable frame_len : nat.

Record gate : Type := {
  state : gate_state;
  stop_recording_evt : bool;
  send_q : list (list byte);
  detector : DetState;
  leftover : list byte;
  alive : bool;                   (* the processor has not seen [None] *)
  effects : list effect
}.

Definition bytes_per_frame : nat := frame_len * 2.

(** The body of the inner [while] for one frame (lines 160-187). *)
Definition on_frame (g : gate) (frame_bytes : list byte) : gate :=
  match state g with
  | Idle =>
      let (det', res) := porcupine_process (detector g) frame_bytes in
      let keyword_index := match res with Some k => k | None => -1 end in
      if 0 <=? keyword_index then
        (* state = "recording"; stop_recording_evt.clear(); continue *)
        {| state := Recording; stop_recording_evt := false;
           send_q := send_q g; detector := det'; leftover := leftover g;
           alive := alive g;
           effects := effects g ++ [Detect frame_bytes res] |}
      else
        {| state := Idle; stop_recording_evt := stop_recording_evt g;
           send_q := send_q g; detector := det'; leftover := leftover g;
           alive := alive g;
           effects := effects g ++ [Detect frame_bytes res] |}
  | Recording =>
      let accepted := (List.length (send_q g) <? send_q_maxsize)%nat in
      {| state := if stop_recording_evt g then Idle else Recording;
         stop_recording_evt := stop_recording_evt g;
         send_q := if accepted then send_q g ++ [frame_bytes] else send_q g;
         detector := detector g; leftover := leftover g;
         alive := alive g;
         effects := effects g ++ [Put frame_bytes accepted] |}
  end.

(** The inner [while offset + bytes_per_frame <= len(buf)] (lines 157-187).
    [None]: the fuel ran out before the condition failed. *)
Fixpoint frames_loop (fuel : nat) (buf : list byte) (offset : nat) (g : gate)
  : option (gate * nat) :=
  if (offset + bytes_per_frame <=? List.length buf)%nat then
    match fuel with
    | O => None
    | S fuel' =>
        let frame_bytes := slice buf offset (offset + bytes_per_frame) in
        frames_loop fuel' buf (offset + bytes_per_frame) (on_frame g frame_bytes)
    end
  else Some (g, offset).

Definition set_leftover (g : gate) (l : list byte) : gate :=
  {| state := state g; stop_recording_evt := stop_recording_evt g;
     send_q := send_q g; detector := detector g; leftover := l;
     alive := alive g; effects := effects g |}.

(** One iteration of the outer loop on a chunk taken from [audio_q]
    (lines 150-188). *)
Definition on_chunk (g : gate) (data : list byte) : option gate :=
  let buf := leftover g ++ data in
  match frames_loop (S (List.length buf)) buf 0 g with
  | Some (g', offset) => Some (set_leftover g' (skipn offset buf))
  | None => None
  end.

(** What can happen to the gate between two suspension points. *)
Inductive input : Type :=
| AudioChunk (data : option (list byte))  (* [audio_q.get()]; [None]: sentinel *)
| FinalReceived                           (* [print_final]: the event is set *)
| StopStream                              (* [stop_stream]: state = "idle" *)
| SenderTurn.                             (* the sender task takes a chunk *)

Definition step (g : gate) (i : input) : option gate :=
  match i with
  | AudioChunk None =>
      Some {| state := state g; stop_recording_evt := stop_recording_evt g;
              send_q := send_q g; detector := detector g;
              leftover := leftover g; alive := false; effects := effects g |}
  | AudioChunk (Some data) => if alive g then on_chunk g data else Some g
  | FinalReceived =>
      Some {| state := state g; stop_recording_evt := true;
              send_q := send_q g; detector := detector g;
              leftover := leftover g; alive := alive g; effects := effects g |}
  | StopStream =>
      Some {| state := Idle; stop_recording_evt := stop_recording_evt g;
              send_q := send_q g; detector := detector g;
              leftover := leftover g; alive := alive g; effects := effects g |}
  | SenderTurn =>
      match send_q g with
      | [] => Some g
      | chunk :: rest =>
          Some {| state := state g; stop_recording_evt := stop_recording_evt g;
                  send_q := rest; detector := detector g;
                  leftover := leftover g; alive := alive g;
                  effects := effects g ++ [WsSend chunk] |}
      end
  end.

Fixpoint run (g : gate) (inputs : list input) : option gate :=
  match inputs with
  | [] => Some g
  | i :: rest =>
      match step g i with
      | Some g' => run g' rest
      | None => None
      end
  end.

(** The state [processor_task] starts in (lines 83-88, 148). *)
Definition init (d : DetState) : gate :=
  {| state := Idle; stop_recording_evt := false; send_q := [];
     detector := d; leftover := []; alive := true; effects := [] |}.

(** The chunks the processor consumed, in order, while it was alive. *)
Fixpoint consumed (inputs : list input) : list byte :=
  match inputs with
  | [] => []
  | AudioChunk None :: _ => []
  | AudioChunk (Some data) :: rest => data ++ consumed rest
  | _ :: rest => consumed rest
  end.

(** The frames the loop body ran on, in order. *)
Definition frames_seen (g : gate) : list (list byte) :=
  flat_map frame_of (effects g).

(** The gate at rest: Idle, nothing queued, nothing ever forwarded. *)
Definition silent (g : gate) : Prop :=
  state g = Idle /\ send_q g = [] /\ Forall is_detect (effects g).

(** Every [Put] of the log was made with the gate open, and a gate in
    Recording is open. *)
Definition log_ok (g : gate) : Prop :=
  gated false (effects g) = true
  /\ (state g = Recording -> armed_after false (effects g) = true).

End Gate.

Arguments state {DetState} g.
Arguments stop_recording_evt {DetState} g.
Arguments send_q {DetState} g.
Arguments detector {DetState} g.
Arguments leftover {DetState} g.
Arguments alive {DetState} g.
Arguments effects {DetState} g.
Arguments on_frame {DetState} porcupine_process g frame_bytes.
Arguments frames_loop {DetState} porcupine_process frame_len fuel buf offset g.
Arguments set_leftover {DetState} g l.
Arguments on_chunk {DetState} porcupine_process frame_len g data.
Arguments step {DetState} porcupine_process frame_len g i.
Arguments run {DetState} porcupine_process frame_len g inputs.
Arguments init {DetState} d.
Arguments frames_seen {DetState} g.
Arguments silent {DetState} g.
Arguments log_ok {DetState} g.

(** ** A concrete detector for examples: it hears the keyword in every
    frame. *)
Definition eager_detector (_ : unit) (_ : list byte) : unit * option Z :=
  (tt, Some 0).

End Client.

(* ================================================================== *)
(** * Reading a connection: credentials, audio and handles *)

Module Wire.
Import Json Str Server.

Local Open Scope string_scope.
Local Open Scope list_scope.

(** The value of the last header whose lowered name is [name]. *)
Fixpoint last_header (items : list (string * string)) (name : string)
  : option string :=
  match items with
  | [] => None
  | (k, v) :: rest =>
      match last_header rest name with
      | Some v' => Some v'
      | None => if String.eqb (lower k) name then Some v else None
      end
  end.

(** The payloads handed to [push_stream.write], in order. *)
Fixpoint sink_writes (tr : list action) : list (list byte) :=
  match tr with
  | [] => []
  | SinkWrite data :: rest => data :: sink_writes rest
  | _ :: rest => sink_writes rest
  end.

(** ** The two handles of a connection: the engine's audio sink
    ([push_stream]) and the socket ([ws]) *)

Definition is_sink_close (a : action) : bool :=
  match a with SinkClose => true | _ => false end.

Definition is_ws_close (a : action) : bool :=
  match a with WsClose _ => true | _ => false end.

(** A call on the sink. *)
Definition is_sink_call (a : action) : bool :=
  match a with SinkWrite _ | SinkClose => true | _ => false end.

Definition no_sink_call (a : action) : bool := negb (is_sink_call a).

(** A call on the socket. *)
Definition is_socket_call (a : action) : bool :=
  match a with WsSendJson _ _ | WsClose _ => true | _ => false end.

(** What a trace does after its first action that satisfies [p]; nothing
    when it has none. *)
Fixpoint after (p : action -> bool) (tr : list action) : list action :=
  match tr with
  | [] => []
  | a :: rest => if p a then rest else after p rest
  end.

(** The scheduler steps in which every socket call returns: no
    [ws.send_json] of a fan-in task raises, and the [ws.close()] of line
    248 returns. *)
Definition returns (i : sched) : bool :=
  match i with
  | PumpRaises _ => false
  | StopReturned CloseReturns => true
  | StopReturned _ => false
  | _ => true
  end.

(** What the trace says of the handles in each phase of the handler: in
    the receive loop neither has been closed; while recognition stops
    the sink has been closed and not used since; at the end the socket
    has been closed too, and only socket calls came after that. *)
Definition tidy (st : state) : Prop :=
  match ph st with
  | Running =>
      existsb is_sink_close (trace st) = false
      /\ existsb is_ws_close (trace st) = false
  | Stopping =>
      forallb no_sink_call (after is_sink_close (trace st)) = true
      /\ existsb is_ws_close (trace st) = false
  | Closed =>
      forallb no_sink_call (after is_sink_close (trace st)) = true
      /\ forallb is_socket_call (after is_ws_close (trace st)) = true
  end.

(** While every socket call has returned: the five tasks run until the
    handler cancels them, and [ws.close()] is the last call. *)
Definition calm (st : state) : Prop :=
  match ph st with
  | Closed =>
      after is_ws_close (trace st) = []
      /\ forall c, pumping c st = false
  | _ => ended st = []
  end.

Section WithJson.

Variable json_loads : string -> option json.

(** The audio a received message carries for the sink, if any. *)
Definition audio_of (m : ws_msg) : option (list byte) :=
  if String.eqb (msg_kind m) "websocket.receive" && negb (is_stop json_loads m)
  then bytes_truthy (msg_bytes m)
  else None.

(** The audio received along a schedule, up to the disconnect. *)
Fixpoint received_audio (schedule : list sched) : list (list byte) :=
  match schedule with
  | [] => []
  | Recv m :: rest =>
      if String.eqb (msg_kind m) "websocket.disconnect" then []
      else match audio_of m with
           | Some data => data :: received_audio rest
           | None => received_audio rest
           end
  | _ :: rest => received_audio rest
  end.

End WithJson.

End Wire.

(* ================================================================== *)
(** * The client's sender and listener (client.py, lines 96-144) *)

Module Sender.
Import Client.

(** The frames [send_q.put_nowait] accepted. *)
Definition put_accepted (e : effect) : list (list byte) :=
  match e with Put f true => [f] | _ => [] end.

(** The chunks the sender task wrote to the socket. *)
Definition ws_sent (e : effect) : list (list byte) :=
  match e with WsSend c => [c] | _ => [] end.

Definition accepted {DetState : Type} (g : gate DetState) : list (list byte) :=
  flat_map put_accepted (effects g).

Definition sent {DetState : Type} (g : gate DetState) : list (list byte) :=
  flat_map ws_sent (effects g).

(** The chunks the processor takes from [audio_q] before the sentinel. *)
Fixpoint chunks (inputs : list input) : list (list byte) :=
  match inputs with
  | [] => []
  | AudioChunk None :: _ => []
  | AudioChunk (Some data) :: rest => data :: chunks rest
  | _ :: rest => chunks rest
  end.

(** A chunk as [sd_callback] queues it on a stream opened with
    [blocksize=frame_len], [dtype='int16'], [channels=1] (line 193):
    [frame_len] samples of two bytes. *)
Definition one_block (frame_len : nat) (i : input) : Prop :=
  match i with
  | AudioChunk (Some data) => List.length data = (frame_len * 2)%nat
  | _ => True
  end.

(** ** Concrete gates for examples: in the middle of a recording, and
    after the sentinel. *)
Definition recording : gate unit :=
  {| state := Recording; stop_recording_evt := false; send_q := [];
     detector := tt; leftover := []; alive := true; effects := [] |}.

Definition stopped : gate unit :=
  {| state := Recording; stop_recording_evt := false; send_q := [];
     detector := tt; leftover := []; alive := false; effects := [] |}.

End Sender.

Module Listener.
Import Json.

Local Open Scope string_scope.

(** What [ws.recv()] returns: a [str] or [bytes]. *)
Inductive ws_in : Type :=
| TextIn (s : string)
| BytesIn (b : list byte).

(** What the receiver writes to the terminal. *)
Inductive shown : Type :=
| PartialLine (text : string)   (* [print_partial(text)] *)
| ClearLine                     (* the first write of [print_final] *)
| FinalLine (text : string)     (* its second write *)
| ErrorLine (data : dict)
| ReadyLine
| Verbatim (msg : ws_in).       (* [print(msg)] *)

(** One message handled: what was written, whether
    [stop_recording_evt.set()] was reached, and whether the loop goes on
    ([false]: an exception left it). *)
Record outcome : Type := {
  written : list shown;
  signal : bool;
  running : bool
}.

Definition keep (l : list shown) : outcome :=
  {| written := l; signal := false; running := true |}.

Definition crash (l : list shown) : outcome :=
  {| written := l; signal := false; running := false |}.

(** Python's truth value of what [dict.get] returns. *)
Definition py_truthy (v : option json) : bool :=
  match v with
  | None | Some JNull => false
  | Some (JBool b) => b
  | Some (JInt z) => negb (Z.eqb z 0)
  | Some (JFloat f) => match f with S754_zero _ => false | _ => true end
  | Some (JStr s) => negb (String.eqb s EmptyString)
  | Some (JList l) => match l with [] => false | _ => true end
  | Some (JDict d) => match d with [] => false | _ => true end
  end.

(** [print_partial(data.get("text", ""))]: slicing and [ljust] need a
    [str]. *)
Definition on_partial (data : dict) : outcome :=
  match dict_get data "text" with
  | None => keep [PartialLine EmptyString]
  | Some (JStr s) => keep [PartialLine s]
  | Some _ => crash []
  end.

(** [data.get("text") or data.get("raw", {}).get("DisplayText") or ""];
    [None] when [raw] has no [get]. *)
Definition final_text (data : dict) : option (option json) :=
  if py_truthy (dict_get data "text") then Some (dict_get data "text")
  else
    match dict_get data "raw" with
    | None => Some (Some (JStr EmptyString))
    | Some (JDict r) =>
        if py_truthy (dict_get r "DisplayText")
        then Some (dict_get r "DisplayText")
        else Some (Some (JStr EmptyString))
    | Some _ => None
    end.

(** [print_final(text)]: the line is cleared, then the text is written,
    which needs a [str], then the event is set. *)
Definition on_final (data : dict) : outcome :=
  match final_text data with
  | Some (Some (JStr s)) =>
      {| written := [ClearLine; FinalLine s]; signal := true; running := true |}
  | Some _ => crash [ClearLine]
  | None => crash []
  end.

(** The dispatch on [data.get("type")] (lines 129-140). *)
Definition dispatch (data : dict) : outcome :=
  let t := dict_get data "type" in
  if eq_str t "partial" then on_partial data
  else if eq_str t "final" then on_final data
  else if eq_str t "error" then keep [ErrorLine data]
  else if eq_str t "ready" then keep [ReadyLine]
  else keep [].

Section WithJson.

Variable json_loads : string -> option json.

(** One iteration of [receiver_task] (lines 123-142). *)
Definition receiver_step (msg : ws_in) : outcome :=
  match msg with
  | TextIn s =>
      match json_loads s with
      | Some (JDict data) => dispatch data
      | _ => keep [Verbatim msg]
      end
  | BytesIn _ => keep [Verbatim msg]
  end.

End WithJson.

(** ** A concrete [json.loads] for examples: every text is the final
    result [hi]. *)
Definition loads_final (_ : string) : option json :=
  Some (JDict [("type", JStr "final"); ("text", JStr "hi")]).

End Listener.

(* ================================================================== *)
(** * Proofs *)

(** ** Exhaustive checks over an interval *)

Lemma zrange_In (lo : Z) (n : nat) (z : Z) :
  lo <= z < lo + Z.of_nat n -> In z (zrange lo n).
Proof.
  intros Hz. unfold zrange. apply in_map_iff.
  exists (Z.to_nat (z - lo)). split; [lia|].
  apply in_seq. lia.
Qed.

Lemma zrange_forallb (P : Z -> bool) (lo n : Z) :
  forallb P (zrange lo (Z.to_nat n)) = true ->
  forall z, lo <= z < lo + n -> P z = true.
Proof.
  intros Hall z Hz. rewrite forallb_forall in Hall.
  apply Hall, zrange_In. rewrite Z2Nat.id; lia.
Qed.

Lemma zspan_In (n : nat) (lo z : Z) :
  lo <= z < lo + Z.of_nat n -> In z (zspan lo n).
Proof.
  revert lo. induction n as [|n IH]; intros lo Hz; [lia|].
  cbn [zspan]. destruct (Z.eq_dec z lo) as [->|Hne]; [now left|].
  right. apply IH. lia.
Qed.

Lemma zspan_forallb (P : Z -> bool) (lo n : Z) :
  forallb P (zspan lo (Z.to_nat n)) = true ->
  forall z, lo <= z < lo + n -> P z = true.
Proof.
  intros Hall z Hz. rewrite forallb_forall in Hall.
  apply Hall, zspan_In. rewrite Z2Nat.id; lia.
Qed.

(** ** Gain normalisation *)

Section AudioFacts.
Import Audio.

Lemma wrap16_int16 (z : Z) : int16 (wrap16 z).
Proof.
  unfold int16, wrap16.
  pose proof (Z.mod_pos_bound (z + 32768) 65536 eq_refl). lia.
Qed.

Lemma wrap16_id (z : Z) : int16 z -> wrap16 z = z.
Proof.
  unfold int16, wrap16. intros H.
  rewrite Z.mod_small by lia. lia.
Qed.

Lemma frombuffer_cons2 (lo hi : byte) (rest : list byte) :
  frombuffer (lo :: hi :: rest) =
  match frombuffer rest with
  | Some arr => Some (wrap16 (le_combine [lo; hi]) :: arr)
  | None => None
  end.
Proof. reflexivity. Qed.

(** Every sample read from a buffer is a 16-bit signed integer.  The
    induction goes two bytes at a time. *)
Lemma frombuffer_int16_aux (n : nat) :
  forall bs arr, (List.length bs <= n)%nat ->
    frombuffer bs = Some arr -> Forall int16 arr.
Proof.
  induction n as [|n IH]; intros bs arr Hlen Hfb.
  - destruct bs; [|simpl in Hlen; lia]. inversion Hfb. constructor.
  - destruct bs as [|lo [|hi rest]].
    + inversion Hfb. constructor.
    + discriminate.
    + rewrite frombuffer_cons2 in Hfb.
      destruct (frombuffer rest) as [arr'|] eqn:E; [|discriminate].
      inversion Hfb; subst. constructor.
      * apply wrap16_int16.
      * apply (IH rest); [simpl in Hlen; lia | exact E].
Qed.

Lemma frombuffer_int16 (bs : list byte) (arr : list Z) :
  frombuffer bs = Some arr -> Forall int16 arr.
Proof. apply (frombuffer_int16_aux (List.length bs)). lia. Qed.

(** [tobytes] then [frombuffer] gives the array back. *)
Lemma frombuffer_tobytes (arr : list Z) :
  Forall int16 arr -> frombuffer (tobytes arr) = Some arr.
Proof.
  induction 1 as [|s arr Hs _ IH]; [reflexivity|].
  unfold tobytes in *. cbn [flat_map].
  change (le_split 2 s) with [byte.of_Z s; byte.of_Z (Z.shiftr s 8)].
  cbn [app]. rewrite frombuffer_cons2, IH.
  change [byte.of_Z s; byte.of_Z (Z.shiftr s 8)] with (le_split 2 s).
  rewrite le_combine_split.
  do 2 f_equal. unfold wrap16, int16 in *.
  change (2 ^ (Z.of_nat 2 * 8)) with 65536.
  destruct (Z_lt_le_dec s 0).
  - replace (s mod 65536) with (s + 65536).
    + replace (s + 65536 + 32768) with (s + 32768 + 1 * 65536) by lia.
      rewrite Z.mod_add by lia. rewrite Z.mod_small by lia. lia.
    + apply Z.mod_unique with (q := -1); lia.
  - rewrite (Z.mod_small s) by lia. rewrite Z.mod_small by lia. lia.
Qed.

(** [np.abs] is the magnitude except at the bottom of the range. *)
Lemma np_abs_regular (s : Z) :
  int16 s -> s <> -32768 -> np_abs s = Z.abs s.
Proof.
  unfold np_abs, int16. intros H Hne. apply wrap16_id. unfold int16. lia.
Qed.

Lemma np_abs_min : np_abs (-32768) = -32768.
Proof. reflexivity. Qed.

Lemma fold_left_max_ge (l : list Z) (x : Z) : x <= fold_left Z.max l x.
Proof.
  revert x; induction l as [|y l IH]; intros x; simpl; [lia|].
  specialize (IH (Z.max x y)). lia.
Qed.

Lemma fold_left_max_bound (l : list Z) (x b : Z) :
  x <= b -> Forall (fun y => y <= b) l -> fold_left Z.max l x <= b.
Proof.
  revert x; induction l as [|y l IH]; intros x Hx Hl; simpl; [lia|].
  inversion Hl; subst. apply IH; [lia | assumption].
Qed.

Lemma np_max_int16 (arr : list Z) : Forall int16 arr -> np_max arr <= 32767.
Proof.
  destruct arr as [|x rest]; intros H; simpl; [lia|].
  inversion H; subst. apply fold_left_max_bound.
  - unfold int16 in *; lia.
  - eapply Forall_impl; [|eassumption]. unfold int16; intros; lia.
Qed.

(** On magnitudes, [np.max] is the peak. *)
Lemma fold_left_max_peak (l : list Z) (x : Z) :
  0 <= x -> fold_left Z.max (map Z.abs l) x = Z.max x (peak_abs l).
Proof.
  revert x; induction l as [|y l IH]; intros x Hx; simpl; [lia|].
  rewrite IH by lia. lia.
Qed.

Lemma peak_abs_nonneg (l : list Z) : 0 <= peak_abs l.
Proof. induction l; simpl; lia. Qed.

Lemma np_max_abs_peak (arr : list Z) :
  arr <> [] -> np_max (map Z.abs arr) = peak_abs arr.
Proof.
  destruct arr as [|x rest]; [congruence|]. intros _. simpl.
  rewrite fold_left_max_peak by lia. reflexivity.
Qed.

Lemma peak_abs_bound (l : list Z) (s : Z) : In s l -> Z.abs s <= peak_abs l.
Proof.
  induction l as [|y l IH]; simpl; [tauto|].
  intros [->|H]; [lia|]. specialize (IH H). lia.
Qed.

Lemma peak_abs_scale (l : list Z) :
  peak_abs (map (fun s => 3 * s) l) = 3 * peak_abs l.
Proof.
  unfold peak_abs. induction l as [|y l IH]; cbn [map fold_right]; [reflexivity|].
  rewrite IH. lia.
Qed.

Lemma map_np_abs_regular (arr : list Z) :
  Forall int16 arr -> ~ In (-32768) arr -> map np_abs arr = map Z.abs arr.
Proof.
  induction 1 as [|s arr Hs _ IH]; intros Hnot; [reflexivity|].
  simpl. rewrite np_abs_regular, IH; auto.
  - intros Hin. apply Hnot. now right.
  - intros ->. apply Hnot. now left.
Qed.

(** The gain is not above 1 once the computed peak has reached the
    target: checked on each of the 2768 possible peaks. *)
Lemma gain_not_applied (maxv : Z) :
  30000 <= maxv <= 32767 -> SFltb (f64_of_Z 1) (gain_of maxv) = false.
Proof.
  intros H.
  apply negb_true_iff.
  apply (zrange_forallb (fun m => negb (SFltb (f64_of_Z 1) (gain_of m)))
                        30000 2768); [vm_compute; reflexivity | lia].
Qed.

(** With the peak NumPy computes at or above the target, the payload is
    pushed as it came. *)
Lemma normalize_np_peak_ge_target (data : list byte) (arr : list Z) :
  frombuffer data = Some arr ->
  30000 <= np_max (map np_abs arr) ->
  normalize data = data.
Proof.
  intros Hfb Hpeak. unfold normalize. rewrite Hfb.
  destruct (0 <? List.length arr)%nat; [|reflexivity].
  destruct (0 <? np_max (map np_abs arr)); [|reflexivity].
  rewrite gain_not_applied; [reflexivity|].
  split; [assumption|].
  apply np_max_int16.
  apply Forall_forall. intros x Hx. apply in_map_iff in Hx.
  destruct Hx as [s [<- _]]. apply wrap16_int16.
Qed.

(** Away from the sample -32768 the true peak and the computed peak
    agree, and a frame at or above the target goes through unchanged. *)
Lemma normalize_peak_ge_target_regular (data : list byte) (arr : list Z) :
  frombuffer data = Some arr ->
  ~ In (-32768) arr ->
  30000 <= peak_abs arr ->
  normalize data = data.
Proof.
  intros Hfb Hnot Hpeak.
  apply (normalize_np_peak_ge_target data arr Hfb).
  rewrite map_np_abs_regular; [|eapply frombuffer_int16; eassumption|assumption].
  rewrite np_max_abs_peak; [assumption|].
  intros ->. simpl in Hpeak. lia.
Qed.

(** Multiplying by the gain 3.0 in float32, clipping and truncating is
    an exact multiplication by 3 on every sample a frame of peak 10000
    can hold: checked on each of the 20001 values. *)
Lemma scale_by_three (s : Z) :
  -10000 <= s <= 10000 -> scale_sample (f64_of_Z 3) s = 3 * s.
Proof.
  intros H. apply Z.eqb_eq.
  apply (zspan_forallb (fun x => scale_sample (f64_of_Z 3) x =? 3 * x)
                       (-10000) 20001); [vm_compute; reflexivity | lia].
Qed.

Lemma gain_of_10000 : gain_of 10000 = f64_of_Z 3.
Proof. vm_compute. reflexivity. Qed.

(** C6 (failing input).  The frame of the two samples -32768 and 100 has
    peak magnitude 32768, above the 30000 target, so the claim wants it
    pushed byte for byte.  [np.abs] wraps -32768 back to -32768, [np.max]
    then reports 100, the gain is 3.0, and the bytes written differ from
    the bytes received: 100 has become 300. *)
Theorem C6_full_scale_sample_is_missed :
  let data := [Byte.x00; Byte.x80; Byte.x64; Byte.x00] in
  frombuffer data = Some [-32768; 100]
  /\ peak_abs [-32768; 100] = 32768
  /\ np_max (map np_abs [-32768; 100]) = 100
  /\ normalize data = [Byte.x00; Byte.x80; Byte.x2c; Byte.x01]
  /\ frombuffer (normalize data) = Some [-32768; 300]
  /\ normalize data <> data.
Proof.
  cbv zeta. repeat split; try (vm_compute; reflexivity).
  vm_compute. discriminate.
Qed.

(** C7.  A payload whose peak magnitude is exactly 10000 is multiplied by
    3 sample for sample: the frame pushed has peak 30000 and every sample
    of it is a 16-bit signed integer (nothing is clipped or wraps). *)
Theorem C7_peak_10000_is_scaled_to_30000 (data : list byte) (arr : list Z) :
  frombuffer data = Some arr ->
  peak_abs arr = 10000 ->
  let out := map (fun s => 3 * s) arr in
  normalize data = tobytes out
  /\ frombuffer (normalize data) = Some out
  /\ peak_abs out = 30000
  /\ Forall int16 out.
Proof.
  intros Hfb Hpeak out.
  assert (Hne : arr <> []) by (intros ->; discriminate Hpeak).
  assert (Hsmall : forall s, In s arr -> -10000 <= s <= 10000).
  { intros s Hin. pose proof (peak_abs_bound arr s Hin). lia. }
  assert (Hout : Forall int16 out).
  { apply Forall_forall. intros x Hx. apply in_map_iff in Hx.
    destruct Hx as [s [<- Hin]]. specialize (Hsmall s Hin).
    unfold int16. lia. }
  assert (Hnorm : normalize data = tobytes out).
  { unfold normalize. rewrite Hfb.
    destruct arr as [|x rest]; [congruence|].
    change (0 <? List.length (x :: rest))%nat with true. cbv iota.
    rewrite map_np_abs_regular.
    - rewrite np_max_abs_peak by assumption. rewrite Hpeak.
      change (0 <? 10000) with true. cbv iota zeta.
      rewrite gain_of_10000.
      replace (SFltb (f64_of_Z 1) (f64_of_Z 3)) with true
        by (vm_compute; reflexivity).
      f_equal. apply map_ext_in. intros s Hin.
      apply scale_by_three, Hsmall, Hin.
    - eapply frombuffer_int16; eassumption.
    - intros Hin. specialize (Hsmall _ Hin). lia. }
  repeat split.
  - exact Hnorm.
  - rewrite Hnorm. apply frombuffer_tobytes, Hout.
  - unfold out. rewrite peak_abs_scale, Hpeak. reflexivity.
  - exact Hout.
Qed.

(** C7 at the frame of the two samples 10000 and -10000. *)
Lemma C7_witness :
  let data := [Byte.x10; Byte.x27; Byte.xf0; Byte.xd8] in
  frombuffer data = Some [10000; -10000]
  /\ peak_abs [10000; -10000] = 10000
  /\ frombuffer (normalize data) = Some [30000; -30000].
Proof.
  cbv zeta.
  assert (Hfb : frombuffer [Byte.x10; Byte.x27; Byte.xf0; Byte.xd8]
                = Some [10000; -10000]) by (vm_compute; reflexivity).
  assert (Hpk : peak_abs [10000; -10000] = 10000) by reflexivity.
  split; [exact Hfb|]. split; [exact Hpk|].
  exact (proj1 (proj2 (C7_peak_10000_is_scaled_to_30000 _ _ Hfb Hpk))).
Defined.

End AudioFacts.

(** ** Authentication *)

Section AuthFacts.
Import Json Str Server.
Local Open Scope string_scope.

Variable json_loads : string -> option json.

Lemma opt_neq_true (a b : option string) : a <> b -> opt_neq a b = true.
Proof.
  destruct a as [x|], b as [y|]; simpl; intros H; try reflexivity.
  - destruct (String.eqb_spec x y); [subst; congruence | reflexivity].
  - congruence.
Qed.

Lemma truthy_false (o : option string) :
  o = None \/ o = Some EmptyString -> truthy o = false.
Proof. intros [-> | ->]; reflexivity. Qed.

(** A credential that is absent, or differs from the configured key, is
    refused. *)
Lemma unauthorized_when_absent_or_wrong (cfg : config) (key : option string) :
  key = None \/ key <> API_KEY cfg -> unauthorized cfg key = true.
Proof.
  unfold unauthorized. intros [-> | Hne].
  - destruct (API_KEY cfg) as [k|]; simpl; [|reflexivity].
    apply orb_true_r.
  - rewrite (opt_neq_true _ _ Hne). apply orb_true_r.
Qed.

(** Without a configured key every credential is refused. *)
Lemma unauthorized_when_unconfigured (cfg : config) (key : option string) :
  API_KEY cfg = None \/ API_KEY cfg = Some EmptyString ->
  unauthorized cfg key = true.
Proof.
  intros H. unfold unauthorized. rewrite (truthy_false _ H). reflexivity.
Qed.

(** C3.  When the credential is absent or is not the configured key, the
    handler accepts the socket, writes the one message
    [{"type": "error", "error": "unauthorized"}] and closes with code 4401:
    whatever the engine or the peer would do next, nothing else happens -
    no [ready], no recognition session, no audio written, no second
    message. *)
Theorem C3_unauthorized_connection (cfg : config) (req : request)
    (sdk_failure : option sdk_error) (early : list engine_event)
    (schedule : list sched) :
  x_api_key req = None \/ x_api_key req <> API_KEY cfg ->
  let tr := stt_stream json_loads cfg req sdk_failure early schedule in
  tr = [WsAccept;
        WsSendJson Main [("type", JStr "error"); ("error", JStr "unauthorized")];
        WsClose 4401]
  /\ sends tr = [[("type", JStr "error"); ("error", JStr "unauthorized")]]
  /\ filter is_ready (sends tr) = []
  /\ ~ In StartRecognition tr
  /\ (forall data, ~ In (SinkWrite data) tr).
Proof.
  intros H tr. unfold tr, stt_stream.
  rewrite (unauthorized_when_absent_or_wrong cfg _ H).
  repeat split; try reflexivity.
  - simpl. intros [F|[F|[F|F]]]; try discriminate; contradiction.
  - simpl. intros data [F|[F|[F|F]]]; try discriminate; contradiction.
Qed.

End AuthFacts.

(** C3 on a server whose key is [secret] and a request without any
    credential. *)
Lemma C3_witness :
  let cfg := {| Server.API_KEY := Some "secret"%string;
                Server.SPEECH_KEY := Some "k"%string;
                Server.SPEECH_REGION := Some "r"%string |} in
  let req := {| Server.headers := []; Server.query_get := fun _ => None |} in
  Server.x_api_key req = None
  /\ Server.sends (Server.stt_stream Server.loads_stop_only cfg req None [] [])
     = [[("type"%string, Json.JStr "error"); ("error"%string, Json.JStr "unauthorized")]].
Proof.
  cbv zeta. split; [reflexivity|].
  exact (proj1 (proj2 (C3_unauthorized_connection Server.loads_stop_only
           {| Server.API_KEY := Some "secret"%string;
              Server.SPEECH_KEY := Some "k"%string;
              Server.SPEECH_REGION := Some "r"%string |}
           {| Server.headers := []; Server.query_get := fun _ => None |}
           None [] [] (or_introl eq_refl)))).
Defined.

Section UnconfiguredFacts.
Import Json Str Server Http.
Local Open Scope string_scope.

Variable json_loads : string -> option json.
Variable response : Type.
Variable stt_file_body : list byte -> option string -> option string -> result response.
Variable tts_body : dict -> result response.
Variable clu_predict_body : dict -> result response.

(** C10.  On a server started without an API key (unset, or set to the
    empty string) no credential is accepted: the websocket endpoint
    answers [error{unauthorized}] and closes with 4401, and
    [require_api_key] and the three endpoints it guards raise 401,
    whatever key the client presents. *)
Theorem C10_unconfigured_server_rejects_all (cfg : config) :
  API_KEY cfg = None \/ API_KEY cfg = Some EmptyString ->
  (forall req sdk_failure early schedule,
      stt_stream json_loads cfg req sdk_failure early schedule
      = [WsAccept; WsSendJson Main (error_msg "unauthorized"); WsClose 4401])
  /\ (forall key, require_api_key cfg key
                  = HTTPException 401 "Invalid or missing API key")
  /\ (forall audio language endpoint_id key,
        stt_file response stt_file_body cfg audio language endpoint_id key
        = HTTPException 401 "Invalid or missing API key")
  /\ (forall payload key,
        tts response tts_body cfg payload key
        = HTTPException 401 "Invalid or missing API key")
  /\ (forall payload key,
        clu_predict response clu_predict_body cfg payload key
        = HTTPException 401 "Invalid or missing API key").
Proof.
  intros H.
  assert (Hreq : forall key, require_api_key cfg key
                             = HTTPException 401 "Invalid or missing API key").
  { intros key. unfold require_api_key.
    rewrite (truthy_false _ H). reflexivity. }
  repeat split; intros.
  - unfold stt_stream. rewrite (unauthorized_when_unconfigured cfg _ H).
    reflexivity.
  - apply Hreq.
  - unfold stt_file. rewrite Hreq. reflexivity.
  - unfold tts. rewrite Hreq. reflexivity.
  - unfold clu_predict. rewrite Hreq. reflexivity.
Qed.

End UnconfiguredFacts.

(** C10 on a server with no key, a client presenting the key [guess]. *)
Lemma C10_witness :
  let cfg := {| Server.API_KEY := None;
                Server.SPEECH_KEY := Some "k"%string;
                Server.SPEECH_REGION := Some "r"%string |} in
  Server.API_KEY cfg = None
  /\ Http.require_api_key cfg (Some "guess"%string)
     = Http.HTTPException 401 "Invalid or missing API key".
Proof.
  cbv zeta. split; [reflexivity|].
  exact (proj1 (proj2 (C10_unconfigured_server_rejects_all
           Server.loads_stop_only unit
           (fun _ _ _ => Http.Ok tt) (fun _ => Http.Ok tt) (fun _ => Http.Ok tt)
           {| Server.API_KEY := None;
              Server.SPEECH_KEY := Some "k"%string;
              Server.SPEECH_REGION := Some "r"%string |}
           (or_introl eq_refl))) (Some "guess"%string)).
Defined.

(** ** The multiplexer *)

Section MultiplexerFacts.
Import Json Str Server.
Local Open Scope string_scope.
Local Open Scope list_scope.

Variable json_loads : string -> option json.
Variable norm : bool.

Local Abbreviation on_engine := (Server.on_engine json_loads).
Local Abbreviation step := (Server.step json_loads norm).
Local Abbreviation run := (Server.run json_loads norm).
Local Abbreviation routed := (Server.routed json_loads).

Lemma evclass_eqb_refl (c : evclass) : evclass_eqb c c = true.
Proof. destruct c; reflexivity. Qed.

Lemma evclass_eqb_eq (a b : evclass) : evclass_eqb a b = true -> a = b.
Proof. destruct a, b; simpl; congruence. Qed.

Lemma sent_by_app (c : evclass) (t1 t2 : list action) :
  sent_by c (t1 ++ t2) = sent_by c t1 ++ sent_by c t2.
Proof.
  induction t1 as [|a t1 IH]; [reflexivity|].
  destruct a as [ |w m| | | | | | ]; simpl; try exact IH.
  destruct w as [|c']; [exact IH|].
  destruct (evclass_eqb c c'); simpl; now rewrite IH.
Qed.

Lemma sends_app (t1 t2 : list action) : sends (t1 ++ t2) = sends t1 ++ sends t2.
Proof.
  induction t1 as [|a t1 IH]; [reflexivity|].
  destruct a; simpl; try exact IH. now rewrite IH.
Qed.

(** *** Callbacks only add to queues *)

Lemma on_engine_trace (st : state) (e : engine_event) :
  trace (on_engine st e) = trace st.
Proof.
  destruct e as [t|t r raw|r d| | ]; simpl; try reflexivity.
  - unfold handle_recognized. destruct (truthy raw); [|reflexivity].
    destruct (json_loads _); reflexivity.
  - unfold handle_canceled. destruct (is_Error r); reflexivity.
Qed.

Lemma on_engine_ph (st : state) (e : engine_event) :
  ph (on_engine st e) = ph st.
Proof.
  destruct e as [t|t r raw|r d| | ]; simpl; try reflexivity.
  - unfold handle_recognized. destruct (truthy raw); [|reflexivity].
    destruct (json_loads _); reflexivity.
  - unfold handle_canceled. destruct (is_Error r); reflexivity.
Qed.

Lemma on_engine_pending (c : evclass) (st : state) (e : engine_event) :
  pending c (on_engine st e) = pending c st ++ routed c e.
Proof.
  unfold Server.routed.
  destruct e as [t|t r raw|r d| | ]; simpl.
  - destruct c; simpl; rewrite ?map_app, ?app_nil_r; reflexivity.
  - unfold handle_recognized. destruct (truthy raw).
    + destruct (json_loads _);
        destruct c; simpl; rewrite ?map_app, ?app_nil_r; reflexivity.
    + destruct c; simpl; rewrite ?map_app, ?app_nil_r; reflexivity.
  - unfold handle_canceled. destruct (is_Error r);
      destruct c; simpl; rewrite ?map_app, ?app_nil_r; reflexivity.
  - destruct c; simpl; rewrite ?map_app, ?app_nil_r; reflexivity.
  - destruct c; simpl; rewrite ?map_app, ?app_nil_r; reflexivity.
Qed.

(** *** A fan-in task writes the head of its queue *)

Lemma pending_pop_same (c : evclass) (st : state) :
  pending c (pop c st) = tl (pending c st).
Proof.
  destruct c; simpl;
    match goal with |- map _ (tl ?q) = _ => destruct q; reflexivity end.
Qed.

Lemma pending_pop_other (c c' : evclass) (st : state) :
  c <> c' -> pending c' (pop c st) = pending c' st.
Proof. destruct c, c'; simpl; congruence. Qed.

Lemma pending_emit (c : evclass) (st : state) (acts : list action) :
  pending c (emit st acts) = pending c st.
Proof. destruct c; reflexivity. Qed.

Lemma pending_set_phase (c : evclass) (st : state) (p : phase) :
  pending c (set_phase st p) = pending c st.
Proof. destruct c; reflexivity. Qed.

Lemma pending_end_tasks (c : evclass) (st : state) (cs : list evclass) :
  pending c (end_tasks st cs) = pending c st.
Proof. destruct c; reflexivity. Qed.

Lemma pending_cancel_pump (c : evclass) (st : state) :
  pending c (cancel_pump st) = pending c st.
Proof.
  unfold cancel_pump. destruct (ended st); [apply pending_end_tasks|reflexivity].
Qed.

Lemma trace_cancel_pump (st : state) : trace (cancel_pump st) = trace st.
Proof. unfold cancel_pump. destruct (ended st); reflexivity. Qed.

Lemma ph_cancel_pump (st : state) : ph (cancel_pump st) = ph st.
Proof. unfold cancel_pump. destruct (ended st); reflexivity. Qed.

Lemma teardown_trace (st : state) (o : close_outcome) :
  trace (teardown st o) = trace st ++ closing o.
Proof.
  unfold teardown. cbn [set_phase emit trace]. now rewrite trace_cancel_pump.
Qed.

Lemma teardown_pending (c : evclass) (st : state) (o : close_outcome) :
  pending c (teardown st o) = pending c st.
Proof.
  unfold teardown. rewrite pending_set_phase, pending_emit.
  apply pending_cancel_pump.
Qed.

Lemma teardown_ph (st : state) (o : close_outcome) : ph (teardown st o) = Closed.
Proof. reflexivity. Qed.

Lemma on_pump_head (c : evclass) (st : state) (m : dict) (rest : list dict) :
  pending c st = m :: rest ->
  trace (on_pump st c) = trace st ++ [WsSendJson (Task c) m]
  /\ pending c (on_pump st c) = rest
  /\ ph (on_pump st c) = ph st.
Proof.
  intros H. unfold on_pump. rewrite H. simpl. repeat split.
  rewrite pending_emit, pending_pop_same, H. reflexivity.
Qed.

Lemma on_pump_blocked (c : evclass) (st : state) :
  pending c st = [] -> on_pump st c = st.
Proof. intros H. unfold on_pump. now rewrite H. Qed.

Lemma on_pump_other (c c' : evclass) (st : state) :
  c <> c' -> pending c' (on_pump st c) = pending c' st.
Proof.
  intros H. unfold on_pump. destruct (pending c st); [reflexivity|].
  rewrite pending_emit. apply pending_pop_other, H.
Qed.

(** A raising [send_json] leaves the trace and the queues as a returning
    one does: the call is made, the item is gone. *)
Lemma on_pump_raises_trace (c : evclass) (st : state) :
  trace (on_pump_raises st c) = trace (on_pump st c).
Proof. unfold on_pump_raises, on_pump. destruct (pending c st); reflexivity. Qed.

Lemma on_pump_raises_pending (c c' : evclass) (st : state) :
  pending c' (on_pump_raises st c) = pending c' (on_pump st c).
Proof.
  unfold on_pump_raises, on_pump. destruct (pending c st); [reflexivity|].
  apply pending_end_tasks.
Qed.

Lemma on_pump_raises_ph (c : evclass) (st : state) :
  ph (on_pump_raises st c) = ph (on_pump st c).
Proof. unfold on_pump_raises, on_pump. destruct (pending c st); reflexivity. Qed.

Lemma on_pump_ph (c : evclass) (st : state) : ph (on_pump st c) = ph st.
Proof. unfold on_pump. destruct (pending c st); reflexivity. Qed.

(** *** The receive loop leaves the queues and the tasks' output alone *)

Lemma on_receive_pending (c : evclass) (st : state) (m : ws_msg) :
  pending c (on_receive json_loads norm st m) = pending c st.
Proof.
  unfold on_receive.
  destruct (String.eqb (msg_kind m) "websocket.disconnect").
  - rewrite pending_set_phase. apply pending_emit.
  - destruct (String.eqb (msg_kind m) "websocket.receive"); simpl; [|reflexivity].
    destruct (is_stop json_loads m); [apply pending_emit|].
    destruct (bytes_truthy (msg_bytes m)); [apply pending_emit | reflexivity].
Qed.

Lemma on_receive_sent_by (c : evclass) (st : state) (m : ws_msg) :
  sent_by c (trace (on_receive json_loads norm st m)) = sent_by c (trace st).
Proof.
  unfold on_receive.
  destruct (String.eqb (msg_kind m) "websocket.disconnect").
  - simpl. rewrite sent_by_app. simpl. apply app_nil_r.
  - destruct (String.eqb (msg_kind m) "websocket.receive"); simpl; [|reflexivity].
    destruct (is_stop json_loads m).
    + simpl. rewrite sent_by_app. simpl. apply app_nil_r.
    + destruct (bytes_truthy (msg_bytes m)); [|reflexivity].
      simpl. rewrite sent_by_app. simpl. apply app_nil_r.
Qed.

(** *** One step: written so far, then still queued *)

(** What the step [i] adds to the queue of class [c]. *)
Lemma step_conserves (c : evclass) (st : state) (i : sched) :
  sent_by c (trace (step st i)) ++ pending c (step st i)
  = sent_by c (trace st) ++ pending c st
    ++ match i with Engine e => routed c e | _ => [] end.
Proof.
  assert (Hpump : forall c',
             sent_by c (trace (on_pump st c')) ++ pending c (on_pump st c')
             = sent_by c (trace st) ++ pending c st).
  { intros c'. destruct (pending c' st) as [|m rest] eqn:E.
    - now rewrite (on_pump_blocked c' st E).
    - destruct (on_pump_head c' st m rest E) as [Ht [Hp _]].
      rewrite Ht, sent_by_app. simpl.
      destruct (evclass_eqb c c') eqn:Ecc.
      + apply evclass_eqb_eq in Ecc. subst c'.
        rewrite Hp, E, <- app_assoc. reflexivity.
      + rewrite app_nil_r. rewrite on_pump_other; [reflexivity|].
        intros ->. now rewrite evclass_eqb_refl in Ecc. }
  destruct i as [e|c'|c'|m|o]; cbn [Server.step]; rewrite ?app_nil_r.
  - rewrite on_engine_trace, on_engine_pending. reflexivity.
  - destruct (pumping c' st); [apply Hpump | reflexivity].
  - destruct (pumping c' st); [|reflexivity].
    rewrite on_pump_raises_trace, on_pump_raises_pending. apply Hpump.
  - destruct (ph st); try reflexivity.
    now rewrite on_receive_sent_by, on_receive_pending.
  - destruct (ph st); try reflexivity.
    rewrite teardown_pending, teardown_trace, sent_by_app.
    destruct o as [| |e [|]]; simpl; now rewrite app_nil_r.
Qed.

(** The messages the engine's callbacks queue for class [c] along a
    schedule. *)
Lemma run_conserves (c : evclass) (schedule : list sched) :
  forall st,
    sent_by c (trace (run st schedule)) ++ pending c (run st schedule)
    = sent_by c (trace st) ++ pending c st
      ++ flat_map (fun i => match i with Engine e => routed c e | _ => [] end)
                  schedule.
Proof.
  induction schedule as [|i schedule IH]; intros st.
  - simpl. now rewrite app_nil_r.
  - change (run st (i :: schedule)) with (run (step st i) schedule).
    rewrite IH. cbn [flat_map].
    rewrite (app_assoc (sent_by c (trace (step st i)))), step_conserves.
    rewrite <- !app_assoc. reflexivity.
Qed.

Lemma run_engine_only_trace (schedule : list sched) :
  forall st, trace (run st (filter is_engine schedule)) = trace st.
Proof.
  induction schedule as [|i schedule IH]; intros st; [reflexivity|].
  destruct i; simpl; try apply IH.
  rewrite IH. apply on_engine_trace.
Qed.

Lemma flat_map_filter_engine (c : evclass) (schedule : list sched) :
  flat_map (fun i => match i with Engine e => routed c e | _ => [] end)
           (filter is_engine schedule)
  = flat_map (fun i => match i with Engine e => routed c e | _ => [] end)
             schedule.
Proof.
  induction schedule as [|i schedule IH]; [reflexivity|].
  destruct i; simpl; rewrite IH; reflexivity.
Qed.

(** C9.  Along every schedule, what the fan-in task of a class has
    written, followed by what is still in its queue, is what the engine's
    callbacks put in that queue, in the order they put it: the task writes
    a prefix of its class's messages in emission order, so of two events
    of one class the earlier one's message is written first.  Across
    classes the order is the scheduler's: the same two events are written
    in either order. *)
Theorem C9_per_class_order_preserved :
  (forall (c : evclass) (st : state) (schedule : list sched),
      sent_by c (trace (run st schedule)) ++ pending c (run st schedule)
      = sent_by c (trace st) ++ pending c (run st (filter is_engine schedule)))
  /\ (let e1 := Engine (Recognizing "a") in
      let e2 := Engine SessionStarted in
      sends (trace (run empty_state
                     [e1; e2; Pump CRecognizing; Pump CSessionStarted]))
      = [msg_partial "a"; msg_session_started true]
      /\ sends (trace (run empty_state
                        [e1; e2; Pump CSessionStarted; Pump CRecognizing]))
         = [msg_session_started true; msg_partial "a"]).
Proof.
  split.
  - intros c st schedule.
    rewrite run_conserves.
    pose proof (run_conserves c (filter is_engine schedule) st) as H.
    rewrite run_engine_only_trace, flat_map_filter_engine in H.
    apply app_inv_head in H. now rewrite H.
  - split; reflexivity.
Qed.


(** *** Letting one task run *)

Lemma step_pump_alive (st : state) (c : evclass) :
  pumping c st = true -> step st (Pump c) = on_pump st c.
Proof. intros H. cbn [Server.step]. now rewrite H. Qed.

Lemma pumping_on_pump (c c' : evclass) (st : state) :
  pumping c' (on_pump st c) = pumping c' st.
Proof. unfold on_pump. destruct (pending c st); reflexivity. Qed.

Lemma pumping_on_engine (c : evclass) (st : state) (e : engine_event) :
  pumping c (on_engine st e) = pumping c st.
Proof.
  destruct e as [t|t r raw|r d| | ]; simpl; try reflexivity.
  - unfold handle_recognized. destruct (truthy raw); [|reflexivity].
    destruct (json_loads _); reflexivity.
  - unfold handle_canceled. destruct (is_Error r); reflexivity.
Qed.

Lemma run_pumps (c : evclass) (k : nat) :
  forall st, pumping c st = true ->
    trace (run st (repeat (Pump c) k))
    = trace st ++ map (WsSendJson (Task c)) (firstn k (pending c st)).
Proof.
  induction k as [|k IH]; intros st Hph.
  - simpl. now rewrite app_nil_r.
  - change (run st (repeat (Pump c) (S k)))
      with (run (step st (Pump c)) (repeat (Pump c) k)).
    rewrite (step_pump_alive st c Hph).
    destruct (pending c st) as [|m rest] eqn:E.
    + rewrite (on_pump_blocked c st E), (IH st Hph), E.
      now rewrite firstn_nil.
    + destruct (on_pump_head c st m rest E) as [Ht [Hp Hph']].
      rewrite IH by (rewrite pumping_on_pump; exact Hph).
      rewrite Ht, Hp, <- app_assoc. reflexivity.
Qed.

Lemma run_drain (c : evclass) (st : state) :
  pumping c st = true ->
  trace (run st (repeat (Pump c) (List.length (pending c st))))
  = trace st ++ map (WsSendJson (Task c)) (pending c st).
Proof. intros H. rewrite (run_pumps c _ st H), firstn_all. reflexivity. Qed.

(** C1.  A canceled event is handled by its callback alone, which
    writes nothing itself and adds one item to one queue.  If the reason
    is Error the item goes to the canceled queue and to no other; the
    canceled task writes it as a message of type [error] carrying the
    reason and the error details.  For any other reason the item goes to
    the session-stopped queue and to no other - the canceled and the
    recognized queue included, so no [error] message is written for the
    event - and the session-stopped task writes it as
    [{"type": "session", "event": "stopped"}]. *)
Theorem C1_canceled_event_translation (st : state)
    (reason : CancellationReason) (error_details : option string) :
  pumping CCanceled st = true ->
  pumping CSessionStopped st = true ->
  let st' := step st (Engine (Canceled reason error_details)) in
  let drain c := trace (run st' (repeat (Pump c) (List.length (pending c st')))) in
  let stopped := [("type", JStr "session"); ("event", JStr "stopped")] in
  let err := [("type", JStr "error");
              ("reason", JStr "CancellationReason.Error");
              ("error", JStr (or_default error_details "unknown"))] in
  trace st' = trace st
  /\ if is_Error reason then
       (forall c, pending c st'
                  = pending c st ++ if evclass_eqb c CCanceled then [err] else [])
       /\ drain CCanceled
          = trace st ++ map (WsSendJson (Task CCanceled)) (pending CCanceled st ++ [err])
       /\ is_error err = true
     else
       (forall c, pending c st'
                  = pending c st
                    ++ if evclass_eqb c CSessionStopped then [stopped] else [])
       /\ drain CSessionStopped
          = trace st ++ map (WsSendJson (Task CSessionStopped))
                            (pending CSessionStopped st ++ [stopped])
       /\ drain CCanceled
          = trace st ++ map (WsSendJson (Task CCanceled)) (pending CCanceled st)
       /\ is_error stopped = false.
Proof.
  intros Hc Hs st' drain stopped err.
  assert (Hst' : st' = on_engine st (Canceled reason error_details)) by reflexivity.
  assert (Htr : trace st' = trace st) by (rewrite Hst'; apply on_engine_trace).
  assert (Hdrain : forall c, pumping c st = true ->
            drain c = trace st ++ map (WsSendJson (Task c)) (pending c st')).
  { intros c Hr. unfold drain. rewrite (run_drain c st'), Htr; [reflexivity|].
    rewrite Hst', pumping_on_engine. exact Hr. }
  assert (Hpend : forall c, pending c st'
            = pending c st ++ routed c (Canceled reason error_details)).
  { intros c. rewrite Hst'. apply on_engine_pending. }
  split; [exact Htr|].
  destruct reason; cbn [is_Error].
  - assert (Hall : forall c, pending c st'
               = pending c st ++ if evclass_eqb c CCanceled then [err] else [])
      by (intros c; rewrite Hpend; destruct c; reflexivity).
    split; [exact Hall|].
    split; [rewrite (Hdrain _ Hc), Hall; reflexivity | reflexivity].
  - assert (Hall : forall c, pending c st'
               = pending c st
                 ++ if evclass_eqb c CSessionStopped then [stopped] else [])
      by (intros c; rewrite Hpend; destruct c; reflexivity).
    split; [exact Hall|].
    split; [rewrite (Hdrain _ Hs), Hall; reflexivity|].
    split; [rewrite (Hdrain _ Hc), Hall; cbn [evclass_eqb]; now rewrite app_nil_r
           | reflexivity].
  - assert (Hall : forall c, pending c st'
               = pending c st
                 ++ if evclass_eqb c CSessionStopped then [stopped] else [])
      by (intros c; rewrite Hpend; destruct c; reflexivity).
    split; [exact Hall|].
    split; [rewrite (Hdrain _ Hs), Hall; reflexivity|].
    split; [rewrite (Hdrain _ Hc), Hall; cbn [evclass_eqb]; now rewrite app_nil_r
           | reflexivity].
Qed.

(** *** No fan-in task and no control answer is a [ready] *)

Lemma routed_not_ready (c : evclass) (e : engine_event) :
  Forall not_ready (routed c e).
Proof.
  unfold Server.routed, not_ready.
  destruct e as [t|t r raw|r d| | ]; cbn [Server.on_engine];
    unfold handle_recognized, handle_canceled.
  - destruct c; repeat constructor.
  - destruct (truthy raw); [destruct (json_loads _) as [v|]|];
      destruct c; cbn; try apply Forall_nil;
      (apply Forall_cons; [|apply Forall_nil]);
      unfold msg_recognized; cbn;
      destruct (String.eqb r "CancellationReason.Error"); reflexivity.
  - destruct (is_Error r); destruct c; repeat constructor.
  - destruct c; repeat constructor.
  - destruct c; repeat constructor.
Qed.

Lemma queues_ok_empty : queues_ok empty_state.
Proof. intros c. destruct c; constructor. Qed.

Lemma queues_ok_on_engine (st : state) (e : engine_event) :
  queues_ok st -> queues_ok (on_engine st e).
Proof.
  intros H c. rewrite on_engine_pending. apply Forall_app. split.
  - apply H.
  - apply routed_not_ready.
Qed.

Lemma queues_ok_on_pump (st : state) (c : evclass) :
  queues_ok st -> queues_ok (on_pump st c).
Proof.
  intros H c'. destruct (pending c st) as [|m rest] eqn:E.
  - rewrite (on_pump_blocked c st E). apply H.
  - destruct (evclass_eqb c c') eqn:Ecc.
    + apply evclass_eqb_eq in Ecc. subst c'.
      destruct (on_pump_head c st m rest E) as [_ [Hp _]]. rewrite Hp.
      specialize (H c). rewrite E in H. now inversion H.
    + rewrite on_pump_other; [apply H|].
      intros ->. now rewrite evclass_eqb_refl in Ecc.
Qed.

(** One step adds only messages that are not [ready], and keeps the
    queues free of them. *)
Lemma step_not_ready (st : state) (i : sched) :
  queues_ok st ->
  queues_ok (step st i)
  /\ exists extra, sends (trace (step st i)) = sends (trace st) ++ extra
                   /\ Forall not_ready extra.
Proof.
  intros Hq.
  assert (Hnone : queues_ok st
            /\ exists extra, sends (trace st) = sends (trace st) ++ extra
                             /\ Forall not_ready extra).
  { split; [exact Hq|]. exists []. rewrite app_nil_r. now split. }
  assert (Hpump : forall c, queues_ok (on_pump st c)
             /\ exists extra, sends (trace (on_pump st c)) = sends (trace st) ++ extra
                              /\ Forall not_ready extra).
  { intros c. split; [now apply queues_ok_on_pump|].
    destruct (pending c st) as [|m rest] eqn:E.
    - rewrite (on_pump_blocked c st E). exists []. rewrite app_nil_r. now split.
    - destruct (on_pump_head c st m rest E) as [Ht _].
      exists [m]. rewrite Ht, sends_app. split; [reflexivity|].
      specialize (Hq c). rewrite E in Hq. inversion Hq; subst.
      now repeat constructor. }
  destruct i as [e|c|c|m|o]; cbn [Server.step].
  - split; [now apply queues_ok_on_engine|].
    exists []. rewrite on_engine_trace, app_nil_r. now split.
  - destruct (pumping c st); [apply Hpump | exact Hnone].
  - destruct (pumping c st); [|exact Hnone].
    destruct (Hpump c) as [Hq' Hs]. split.
    + intros c'. rewrite on_pump_raises_pending. apply Hq'.
    + rewrite on_pump_raises_trace. exact Hs.
  - destruct (ph st); try exact Hnone.
    split.
    + intros c. rewrite on_receive_pending. apply Hq.
    + unfold on_receive.
      destruct (String.eqb (msg_kind m) "websocket.disconnect").
      * exists []. simpl. rewrite sends_app, app_nil_r. simpl.
        rewrite app_nil_r. now split.
      * destruct (String.eqb (msg_kind m) "websocket.receive"); simpl;
          [|exists []; rewrite app_nil_r; now split].
        destruct (is_stop json_loads m).
        -- exists [stop_ack]. simpl. rewrite sends_app. split; [reflexivity|].
           repeat constructor.
        -- destruct (bytes_truthy (msg_bytes m)).
           ++ exists []. simpl. rewrite sends_app, app_nil_r. simpl.
              rewrite app_nil_r. now split.
           ++ exists []. rewrite app_nil_r. now split.
  - destruct (ph st); try exact Hnone.
    split.
    + intros c. rewrite teardown_pending. apply Hq.
    + exists (sends (closing o)). rewrite teardown_trace, sends_app.
      split; [reflexivity|].
      destruct o as [| |e [|]]; repeat constructor.
Qed.

Lemma run_not_ready (schedule : list sched) :
  forall st, queues_ok st ->
    exists extra, sends (trace (run st schedule)) = sends (trace st) ++ extra
                  /\ Forall not_ready extra.
Proof.
  induction schedule as [|i schedule IH]; intros st Hq.
  - exists []. simpl. rewrite app_nil_r. now split.
  - change (run st (i :: schedule)) with (run (step st i) schedule).
    destruct (step_not_ready st i Hq) as [Hq' [e1 [H1 F1]]].
    destruct (IH _ Hq') as [e2 [H2 F2]].
    exists (e1 ++ e2). rewrite H2, H1, <- app_assoc. split; [reflexivity|].
    apply Forall_app. now split.
Qed.

Lemma early_events (early : list engine_event) :
  forall st, queues_ok st ->
    queues_ok (fold_left on_engine early st)
    /\ trace (fold_left on_engine early st) = trace st.
Proof.
  induction early as [|e early IH]; intros st Hq; [now split|].
  simpl. destruct (IH (on_engine st e) (queues_ok_on_engine st e Hq)) as [H1 H2].
  split; [exact H1|]. rewrite H2. apply on_engine_trace.
Qed.

(** *** The receive loop *)

Lemma eq_str_false (v : option json) (s : string) :
  v <> Some (JStr s) -> eq_str v s = false.
Proof.
  destruct v as [[ | | | |s'| | ]|]; simpl; try reflexivity.
  intros H. destruct (String.eqb_spec s' s); [subst; congruence | reflexivity].
Qed.

(** C8.  In the receive loop, a text that parses to an object whose
    [event] is ["stop"] is answered at once with
    [{"type": "info", "event": "stop_ack"}] and with nothing else: the
    socket, the audio sink and the recognition session are left alone and
    the loop goes on, so that a binary frame received next is still
    written to the sink.  A text that does not parse, or parses to
    something without [event == "stop"], changes nothing and the loop
    goes on. *)
Theorem C8_stop_is_acknowledged_session_kept (st : state) (txt : string)
    (data : dict) (b : byte) (bs : list byte) (txt' : string) :
  ph st = Running ->
  txt <> EmptyString ->
  json_loads txt = Some (JDict data) ->
  dict_get data "event" = Some (JStr "stop") ->
  (json_loads txt' = None
   \/ exists v, json_loads txt' = Some v
                /\ forall d, v = JDict d -> dict_get d "event" <> Some (JStr "stop")) ->
  let text_msg t := {| msg_kind := "websocket.receive";
                       msg_text := Some (Some t); msg_bytes := None |} in
  let audio_msg := {| msg_kind := "websocket.receive";
                      msg_text := None; msg_bytes := Some (Some (b :: bs)) |} in
  let st' := step st (Recv (text_msg txt)) in
  st' = emit st [WsSendJson Main [("type", JStr "info"); ("event", JStr "stop_ack")]]
  /\ ph st' = Running
  /\ trace (step st' (Recv audio_msg))
     = trace st ++ [WsSendJson Main [("type", JStr "info"); ("event", JStr "stop_ack")];
                    SinkWrite (if norm then Audio.normalize (b :: bs) else b :: bs)]
  /\ step st (Recv (text_msg txt')) = st.
Proof.
  intros Hph Hne Hload Hev Hbad text_msg audio_msg st'.
  assert (Htruthy : forall t, t <> EmptyString -> truthy (Some t) = true).
  { intros t Ht. simpl. destruct (String.eqb_spec t EmptyString); [contradiction|reflexivity]. }
  assert (Hst' : st' = emit st [WsSendJson Main stop_ack]).
  { unfold st', Server.step. rewrite Hph. unfold on_receive, is_stop.
    cbn [msg_kind msg_text text_msg String.eqb Ascii.eqb Bool.eqb andb].
    rewrite (Htruthy txt Hne), Hload, Hev. reflexivity. }
  split; [exact Hst'|]. split; [rewrite Hst'; exact Hph|]. split.
  - rewrite Hst'. unfold Server.step. cbn [emit ph]. rewrite Hph.
    unfold on_receive, is_stop. cbn. rewrite <- app_assoc. reflexivity.
  - unfold Server.step. rewrite Hph. unfold on_receive, is_stop.
    cbn [msg_kind msg_text msg_bytes text_msg String.eqb Ascii.eqb Bool.eqb andb
         bytes_truthy].
    destruct (truthy (Some txt')); [|reflexivity].
    destruct Hbad as [Hnone | [v [Hv Hnot]]].
    + rewrite Hnone. reflexivity.
    + rewrite Hv. destruct v; try reflexivity.
      rewrite (eq_str_false _ _ (Hnot _ eq_refl)). reflexivity.
Qed.

End MultiplexerFacts.

Section ReadyFacts.
Import Json Str Server.
Local Open Scope string_scope.
Local Open Scope list_scope.

(** C2, as the code has it.  On a connection whose credential is accepted and whose
    session starts (the speech configuration is complete and no SDK call
    fails), [ready] is the first message written and no later message is
    a [ready]; on any other connection no [ready] is written at all. *)
Theorem C2_ready_once_and_first (json_loads : string -> option json)
    (cfg : config) (req : request)
    (sdk_failure : option sdk_error) (early : list engine_event)
    (schedule : list sched) :
  let tr := stt_stream json_loads cfg req sdk_failure early schedule in
  let started :=
    negb (unauthorized cfg (x_api_key req))
    && match make_speech_config cfg with Some _ => false | None => true end
    && match sdk_failure with Some _ => false | None => true end in
  if started
  then exists rest, sends tr = ready :: rest /\ Forall not_ready rest
  else Forall not_ready (sends tr).
Proof.
  intros tr started. unfold started, tr, stt_stream.
  destruct (unauthorized cfg (x_api_key req)); cbn [negb andb].
  - repeat constructor.
  - destruct sdk_failure as [[[|] e]|]; destruct (make_speech_config cfg) as [e'|];
      cbn [andb]; try (repeat constructor).
    destruct (early_events json_loads early empty_state queues_ok_empty)
      as [Hq Ht].
    set (st0 := fold_left (on_engine json_loads) early empty_state) in *.
    set (st1 := emit st0 [WsAccept; StartRecognition; WsSendJson Main ready]).
    assert (Hq1 : queues_ok st1)
      by (intros c; unfold st1; rewrite pending_emit; apply Hq).
    destruct (run_not_ready json_loads (normalize_flag req) schedule st1 Hq1)
      as [extra [Hs Hf]].
    exists extra. split; [|exact Hf].
    rewrite Hs. unfold st1. cbn [emit trace]. rewrite Ht. reflexivity.
Qed.

End ReadyFacts.

(** ** The server claims at concrete connections *)

Section ServerExamples.
Import Json Str Server.
Local Open Scope string_scope.
Local Open Scope list_scope.

(** C1 on a fresh connection, the engine reporting the error [boom]. *)
Lemma C1_witness :
  pumping CCanceled empty_state = true
  /\ pumping CSessionStopped empty_state = true
  /\ pending CCanceled
       (step loads_stop_only false empty_state
             (Engine (Canceled Error (Some "boom"))))
     = [[("type", JStr "error");
         ("reason", JStr "CancellationReason.Error");
         ("error", JStr "boom")]].
Proof.
  assert (H1 : pumping CCanceled empty_state = true) by reflexivity.
  assert (H2 : pumping CSessionStopped empty_state = true) by reflexivity.
  split; [exact H1|]. split; [exact H2|].
  exact (proj1 (proj2 (C1_canceled_event_translation loads_stop_only false
                         empty_state Error (Some "boom") H1 H2)) CCanceled).
Defined.

(** C2 as stated fails on a connection without a credential: the only
    message written is the [unauthorized] error, and no [ready]. *)
Lemma C2_counterexample :
  ~ (forall (json_loads : string -> option json) (cfg : config) (req : request)
            (sdk_failure : option sdk_error) (early : list engine_event)
            (schedule : list sched),
        List.length
          (filter is_ready
             (sends (stt_stream json_loads cfg req sdk_failure early schedule)))
        = 1%nat).
Proof.
  intros H.
  specialize (H loads_stop_only
                {| API_KEY := Some "secret"; SPEECH_KEY := Some "k";
                   SPEECH_REGION := Some "r" |}
                {| headers := []; query_get := fun _ => None |}
                None [] []).
  vm_compute in H. discriminate H.
Qed.

(** C8 on a fresh connection: the client's stop text, then two bytes of
    audio; and a text that is not JSON. *)
Lemma C8_witness :
  let audio := {| msg_kind := "websocket.receive"; msg_text := None;
                  msg_bytes := Some (Some [Byte.x01; Byte.x00]) |} in
  let stop := {| msg_kind := "websocket.receive";
                 msg_text := Some (Some stop_text); msg_bytes := None |} in
  loads_stop_only stop_text = Some (JDict [("event", JStr "stop")])
  /\ trace (run loads_stop_only false empty_state [Recv stop; Recv audio])
     = [WsSendJson Main [("type", JStr "info"); ("event", JStr "stop_ack")];
        SinkWrite [Byte.x01; Byte.x00]].
Proof.
  cbv zeta.
  assert (H1 : ph empty_state = Running) by reflexivity.
  assert (H2 : stop_text <> EmptyString) by (vm_compute; discriminate).
  assert (H3 : loads_stop_only stop_text = Some (JDict [("event", JStr "stop")]))
    by (vm_compute; reflexivity).
  assert (H4 : dict_get [("event", JStr "stop")] "event" = Some (JStr "stop"))
    by reflexivity.
  assert (H5 : loads_stop_only "garbage" = None
               \/ exists v, loads_stop_only "garbage" = Some v
                  /\ forall d, v = JDict d -> dict_get d "event" <> Some (JStr "stop"))
    by (left; vm_compute; reflexivity).
  split; [exact H3|].
  exact (proj1 (proj2 (proj2
           (C8_stop_is_acknowledged_session_kept loads_stop_only false
              empty_state stop_text [("event", JStr "stop")]
              Byte.x01 [Byte.x00] "garbage" H1 H2 H3 H4 H5)))).
Defined.

End ServerExamples.

(** ** The client gate *)

Section GateFacts.
Import Client.
Local Open Scope nat_scope.
Local Open Scope list_scope.

Variable DetState : Type.
Variable porcupine_process : DetState -> list byte -> DetState * option Z.
Variable frame_len : nat.

Local Abbreviation gate := (Client.gate DetState).
Local Abbreviation on_frame := (Client.on_frame porcupine_process).
Local Abbreviation frames_loop := (Client.frames_loop porcupine_process frame_len).
Local Abbreviation on_chunk := (Client.on_chunk porcupine_process frame_len).
Local Abbreviation step := (Client.step porcupine_process frame_len).
Local Abbreviation run := (Client.run porcupine_process frame_len).
Local Abbreviation bpf := (Client.bytes_per_frame frame_len).

(** *** Invariants of the frame loop *)

Lemma frames_loop_inv (I : gate -> Prop) :
  (forall g f, I g -> I (on_frame g f)) ->
  forall fuel buf offset g g' offset',
    I g -> frames_loop fuel buf offset g = Some (g', offset') -> I g'.
Proof.
  intros Hstep. induction fuel as [|fuel IH]; intros buf offset g g' offset' Hg;
    cbn [Client.frames_loop];
    destruct (offset + bpf <=? List.length buf); try discriminate.
  - intros H; inversion H; subst; exact Hg.
  - intros H. eapply IH; [|exact H]. apply Hstep, Hg.
  - intros H; inversion H; subst; exact Hg.
Qed.

(** An invariant of the loop body and of the other inputs is an
    invariant of every run. *)
Lemma run_inv (I : gate -> Prop) :
  (forall g f, I g -> I (on_frame g f)) ->
  (forall g l, I g -> I (set_leftover g l)) ->
  (forall g i g', (forall data, i <> AudioChunk (Some data)) ->
                  I g -> step g i = Some g' -> I g') ->
  forall inputs g g', I g -> run g inputs = Some g' -> I g'.
Proof.
  intros Hframe Hleft Hother.
  induction inputs as [|i inputs IH]; intros g g' Hg Hrun.
  - inversion Hrun; subst; exact Hg.
  - cbn [Client.run] in Hrun.
    destruct (step g i) as [g1|] eqn:Hstep; [|discriminate].
    apply (IH g1 g'); [|exact Hrun].
    destruct i as [[data|]| | | ];
      try (eapply Hother; [|exact Hg|exact Hstep]; intros; discriminate).
    cbn [Client.step] in Hstep. destruct (alive g).
    + unfold Client.on_chunk in Hstep.
      destruct (frames_loop _ _ 0 g) as [[g2 off]|] eqn:Hloop; [|discriminate].
      inversion Hstep; subst. apply Hleft.
      exact (frames_loop_inv I Hframe _ _ _ _ _ _ Hg Hloop).
    + inversion Hstep; subst. exact Hg.
Qed.

(** With a detector that never reports a keyword (a negative index or an
    exception on every frame), no sequence of inputs makes an Idle gate
    forward anything. *)
Lemma quiet_detector_forwards_nothing :
  (forall d f, match snd (porcupine_process d f) with
               | Some k => (k < 0)%Z
               | None => True
               end) ->
  forall inputs g g',
    silent g -> run g inputs = Some g' -> silent g'.
Proof.
  intros Hquiet.
  assert (Hframe : forall g f, silent g -> silent (on_frame g f)).
  { intros g f [Hs [Hq He]]. unfold Client.on_frame. rewrite Hs.
    specialize (Hquiet (detector g) f).
    destruct (porcupine_process (detector g) f) as [det' r]. cbn [snd] in Hquiet.
    assert (Hlog : Forall is_detect (effects g ++ [Detect f r])).
    { apply Forall_app. split; [exact He|]. repeat constructor. }
    destruct r as [k|].
    - destruct (Z.leb_spec 0 k); [lia|]. repeat split; assumption.
    - repeat split; assumption. }
  induction inputs as [|i inputs IH]; intros g g' Hg Hrun.
  - inversion Hrun; subst; exact Hg.
  - cbn [Client.run] in Hrun.
    destruct (step g i) as [g1|] eqn:Hstep; [|discriminate].
    apply (IH g1 g'); [|exact Hrun].
    destruct Hg as [Hs [Hq He]].
    destruct i as [[data|]| | | ]; cbn [Client.step] in Hstep.
    + destruct (alive g).
      * unfold Client.on_chunk in Hstep.
        destruct (frames_loop _ _ 0 g) as [[g2 off]|] eqn:Hloop; [|discriminate].
        inversion Hstep; subst.
        destruct (frames_loop_inv silent Hframe _ _ _ _ _ _
                    (conj Hs (conj Hq He)) Hloop) as [H1 [H2 H3]].
        repeat split; assumption.
      * inversion Hstep; subst. repeat split; assumption.
    + inversion Hstep; subst. repeat split; assumption.
    + inversion Hstep; subst. repeat split; assumption.
    + inversion Hstep; subst. repeat split; assumption.
    + rewrite Hq in Hstep. inversion Hstep; subst. repeat split; assumption.
Qed.


(** *** Reassembly of frames from chunks *)

Lemma firstn_plus (A : Type) (n m : nat) (l : list A) :
  firstn (n + m) l = firstn n l ++ firstn m (skipn n l).
Proof.
  revert l; induction n as [|n IH]; intros l; [reflexivity|].
  destruct l as [|x l]; simpl.
  - now rewrite firstn_nil.
  - now rewrite IH.
Qed.

Lemma slice_app (buf : list byte) (a b c : nat) :
  a <= b -> b <= c -> slice buf a b ++ slice buf b c = slice buf a c.
Proof.
  intros Hab Hbc. unfold slice.
  replace (c - a) with ((b - a) + (c - b)) by lia.
  rewrite firstn_plus, skipn_skipn.
  replace (b - a + a) with b by lia. reflexivity.
Qed.

Lemma slice_length (buf : list byte) (a n : nat) :
  a + n <= List.length buf -> List.length (slice buf a (a + n)) = n.
Proof.
  intros H. unfold slice. rewrite length_firstn, length_skipn. lia.
Qed.

Lemma slice_empty (buf : list byte) (a : nat) : slice buf a a = [].
Proof. unfold slice. now rewrite Nat.sub_diag. Qed.

Lemma frames_seen_on_frame (g : gate) (f : list byte) :
  frames_seen (on_frame g f) = frames_seen g ++ [f]
  /\ leftover (on_frame g f) = leftover g
  /\ alive (on_frame g f) = alive g.
Proof.
  unfold Client.frames_seen, Client.on_frame.
  destruct (state g).
  - destruct (porcupine_process (detector g) f) as [det' r].
    destruct (0 <=? match r with Some k => k | None => -1 end)%Z;
      cbn [effects leftover alive]; rewrite flat_map_app; repeat split.
  - cbn [effects leftover alive]. rewrite flat_map_app. repeat split.
Qed.

(** With a positive frame length the inner loop ends within the fuel it
    is given, having run on the successive whole frames of the buffer. *)
Lemma frames_loop_frames :
  0 < bpf ->
  forall fuel buf offset g,
    offset <= List.length buf ->
    List.length buf - offset < fuel ->
    exists g' offset' fs,
      frames_loop fuel buf offset g = Some (g', offset')
      /\ offset <= offset' <= List.length buf
      /\ List.length buf < offset' + bpf
      /\ frames_seen g' = frames_seen g ++ fs
      /\ List.concat fs = slice buf offset offset'
      /\ Forall (fun f => List.length f = bpf) fs
      /\ leftover g' = leftover g
      /\ alive g' = alive g.
Proof.
  intros Hpos. induction fuel as [|fuel IH]; intros buf offset g Hoff Hfuel;
    [lia|].
  cbn [Client.frames_loop].
  destruct (Nat.leb_spec (offset + bpf) (List.length buf)) as [Hle|Hgt].
  - destruct (IH buf (offset + bpf)
                 (on_frame g (slice buf offset (offset + bpf))))
      as [g' [off' [fs [Hrun [Hrange [Hend [Hseen [Hcat [Hlen [Hleft Halive]]]]]]]]]];
      [lia | lia |].
    destruct (frames_seen_on_frame g (slice buf offset (offset + bpf)))
      as [Hs1 [Hl1 Ha1]].
    exists g', off', (slice buf offset (offset + bpf) :: fs).
    split; [exact Hrun|]. split; [lia|]. split; [exact Hend|].
    split; [rewrite Hseen, Hs1, <- app_assoc; reflexivity|].
    split; [cbn [List.concat]; rewrite Hcat; apply slice_app; lia|].
    split; [constructor; [apply slice_length; lia | exact Hlen]|].
    split; [rewrite Hleft; exact Hl1 | rewrite Halive; exact Ha1].
  - exists g, offset, []. rewrite app_nil_r, slice_empty.
    repeat split; try lia. constructor.
Qed.

Lemma on_chunk_frames (g : gate) (data : list byte) :
  0 < bpf ->
  exists g' fs,
    on_chunk g data = Some g'
    /\ frames_seen g' = frames_seen g ++ fs
    /\ List.concat fs ++ leftover g' = leftover g ++ data
    /\ Forall (fun f => List.length f = bpf) fs
    /\ List.length (leftover g') < bpf
    /\ alive g' = alive g.
Proof.
  intros Hpos. unfold Client.on_chunk.
  destruct (frames_loop_frames Hpos (S (List.length (leftover g ++ data)))
              (leftover g ++ data) 0 g)
    as [g' [off' [fs [Hrun [Hrange [Hend [Hseen [Hcat [Hlen [_ Halive]]]]]]]]]];
    [lia | lia |].
  rewrite Hrun.
  exists (set_leftover g' (skipn off' (leftover g ++ data))), fs.
  split; [reflexivity|]. split; [exact Hseen|].
  split.
  - cbn [set_leftover leftover]. rewrite Hcat. unfold slice.
    rewrite Nat.sub_0_r, skipn_0. apply firstn_skipn.
  - split; [exact Hlen|]. split; [|exact Halive].
    cbn [set_leftover leftover]. rewrite length_skipn. lia.
Qed.

Lemma run_frames :
  0 < bpf ->
  forall inputs g,
    List.length (leftover g) < bpf ->
    Forall (fun f => List.length f = bpf) (frames_seen g) ->
    exists g',
      run g inputs = Some g'
      /\ Forall (fun f => List.length f = bpf) (frames_seen g')
      /\ List.concat (frames_seen g') ++ leftover g'
         = List.concat (frames_seen g) ++ leftover g
           ++ (if alive g then consumed inputs else [])
      /\ List.length (leftover g') < bpf.
Proof.
  intros Hpos. induction inputs as [|i inputs IH]; intros g Hleft Hall.
  - exists g. cbn [Client.run consumed]. repeat split; try assumption.
    destruct (alive g); now rewrite app_nil_r.
  - cbn [Client.run].
    destruct i as [[data|]| | | ]; cbn [Client.step consumed].
    + destruct (alive g) eqn:Halive.
      * destruct (on_chunk_frames g data Hpos)
          as [g1 [fs [Hc [Hseen [Hcat [Hlen [Hleft1 Ha1]]]]]]].
        rewrite Hc.
        destruct (IH g1 Hleft1) as [g' [Hrun [Hall' [Heq Hleft']]]].
        { rewrite Hseen. apply Forall_app. now split. }
        exists g'. split; [exact Hrun|]. split; [exact Hall'|].
        split; [|exact Hleft'].
        rewrite Heq, Ha1, Halive, Hseen, concat_app.
        rewrite <- !app_assoc. f_equal.
        rewrite !app_assoc. f_equal. exact Hcat.
      * destruct (IH g Hleft Hall) as [g' [Hrun [Hall' [Heq Hleft']]]].
        exists g'. rewrite Halive in Heq. repeat split; assumption.
    + match goal with |- context [Client.run _ _ ?g1 inputs] =>
        destruct (IH g1 Hleft Hall) as [g' [Hrun [Hall' [Heq Hleft']]]]
      end.
      exists g'. cbn [alive frames_seen effects leftover] in Heq.
      split; [exact Hrun|]. split; [exact Hall'|]. split; [|exact Hleft'].
      rewrite Heq. destruct (alive g); reflexivity.
    + match goal with |- context [Client.run _ _ ?g1 inputs] =>
        destruct (IH g1 Hleft Hall) as [g' [Hrun [Hall' [Heq Hleft']]]]
      end.
      exists g'. repeat split; assumption.
    + match goal with |- context [Client.run _ _ ?g1 inputs] =>
        destruct (IH g1 Hleft Hall) as [g' [Hrun [Hall' [Heq Hleft']]]]
      end.
      exists g'. repeat split; assumption.
    + destruct (send_q g) as [|chunk rest].
      * destruct (IH g Hleft Hall) as [g' [Hrun [Hall' [Heq Hleft']]]].
        exists g'. repeat split; assumption.
      * match goal with |- context [Client.run _ _ ?g1 inputs] =>
          assert (Hs : frames_seen g1 = frames_seen g)
            by (unfold Client.frames_seen; cbn [effects];
                rewrite flat_map_app; cbn; apply app_nil_r);
          destruct (IH g1 Hleft) as [g' [Hrun [Hall' [Heq Hleft']]]];
            [rewrite Hs; exact Hall|]
        end.
        exists g'. rewrite Hs in Heq. repeat split; assumption.
Qed.

(** The inner loop is its body folded over the successive whole frames
    of the buffer. *)
Lemma frames_loop_fold :
  0 < bpf ->
  forall fuel buf offset g,
    offset <= List.length buf ->
    List.length buf - offset < fuel ->
    exists fs offset',
      frames_loop fuel buf offset g = Some (fold_left on_frame fs g, offset')
      /\ offset <= offset' <= List.length buf
      /\ List.length buf < offset' + bpf
      /\ List.concat fs = slice buf offset offset'
      /\ Forall (fun f => List.length f = bpf) fs.
Proof.
  intros Hpos. induction fuel as [|fuel IH]; intros buf offset g Hoff Hfuel;
    [lia|].
  cbn [Client.frames_loop].
  destruct (Nat.leb_spec (offset + bpf) (List.length buf)) as [Hle|Hgt].
  - destruct (IH buf (offset + bpf)
                 (on_frame g (slice buf offset (offset + bpf))))
      as [fs [off' [Hrun [Hrange [Hend [Hcat Hlen]]]]]]; [lia | lia |].
    exists (slice buf offset (offset + bpf) :: fs), off'.
    split; [exact Hrun|]. split; [lia|]. split; [exact Hend|].
    split; [cbn [List.concat]; rewrite Hcat; apply slice_app; lia|].
    constructor; [apply slice_length; lia | exact Hlen].
  - exists [], offset. rewrite slice_empty.
    repeat split; try lia. constructor.
Qed.

(** A chunk taken by a running processor: the loop body runs on each
    whole frame of the bytes kept and received, in order, and the rest is
    kept. *)
Lemma step_chunk_fold (g : gate) (data : list byte) :
  0 < frame_len ->
  alive g = true ->
  exists fs rest,
    step g (AudioChunk (Some data))
    = Some (set_leftover (fold_left on_frame fs g) rest)
    /\ List.concat fs ++ rest = leftover g ++ data
    /\ Forall (fun f => List.length f = frame_len * 2) fs
    /\ List.length rest < frame_len * 2.
Proof.
  intros Hpos Halive.
  assert (Hbpf : 0 < bpf) by (unfold bytes_per_frame; lia).
  cbn [Client.step]. rewrite Halive. unfold Client.on_chunk.
  destruct (frames_loop_fold Hbpf (S (List.length (leftover g ++ data)))
              (leftover g ++ data) 0 g)
    as [fs [off' [Hrun [Hrange [Hend [Hcat Hlen]]]]]]; [lia | lia |].
  rewrite Hrun. exists fs, (skipn off' (leftover g ++ data)).
  split; [reflexivity|]. split.
  - rewrite Hcat. unfold slice. rewrite Nat.sub_0_r, skipn_0.
    apply firstn_skipn.
  - split; [exact Hlen|]. rewrite length_skipn.
    unfold bytes_per_frame in Hend. lia.
Qed.

(** *** The log of the gate *)

Lemma gated_app (l1 l2 : list effect) :
  forall a, gated a (l1 ++ l2) = gated a l1 && gated (armed_after a l1) l2.
Proof.
  induction l1 as [|e l1 IH]; intros a; [reflexivity|].
  destruct e; cbn [app gated armed_after]; rewrite IH;
    [reflexivity | apply Bool.andb_assoc | reflexivity].
Qed.

Lemma armed_after_app (l1 l2 : list effect) :
  forall a, armed_after a (l1 ++ l2) = armed_after (armed_after a l1) l2.
Proof.
  induction l1 as [|e l1 IH]; intros a; [reflexivity|].
  destruct e; cbn [app armed_after]; apply IH.
Qed.

Lemma log_ok_on_frame (g : gate) (f : list byte) :
  log_ok g -> log_ok (on_frame g f).
Proof.
  intros [Hg Ha]. unfold log_ok, Client.on_frame.
  destruct (state g) eqn:Hs.
  - destruct (porcupine_process (detector g) f) as [det' r].
    assert (Hw : (0 <=? match r with Some k => k | None => -1 end)%Z = is_wake r)
      by (destruct r; reflexivity).
    rewrite Hw. destruct (is_wake r) eqn:Hr; cbn [effects state];
      rewrite gated_app, armed_after_app, Hg; cbn [gated armed_after andb];
      (split; [reflexivity|]); [intros _; exact Hr | discriminate].
  - cbn [effects state]. rewrite gated_app, armed_after_app, Hg, (Ha eq_refl).
    split; reflexivity.
Qed.

Lemma run_log_ok (inputs : list input) (g g' : gate) :
  log_ok g -> run g inputs = Some g' -> log_ok g'.
Proof.
  apply (run_inv log_ok).
  - apply log_ok_on_frame.
  - intros g0 l H. exact H.
  - intros g0 i g1 Hi [Hg Ha] Hstep. unfold log_ok.
    destruct i as [[data|]| | | ]; cbn [Client.step] in Hstep.
    + exfalso. now apply (Hi data).
    + inversion Hstep; subst. split; assumption.
    + inversion Hstep; subst. split; assumption.
    + inversion Hstep; subst. cbn [state effects]. split; [exact Hg | discriminate].
    + destruct (send_q g0) as [|c rest].
      * inversion Hstep; subst. split; assumption.
      * inversion Hstep; subst. cbn [state effects].
        rewrite gated_app, armed_after_app, Hg. split; [reflexivity | exact Ha].
Qed.

(** What the sender has written, followed by the queue, is what the
    queue accepted. *)
Lemma run_fifo (inputs : list input) (g g' : gate) :
  Sender.sent g ++ send_q g = Sender.accepted g ->
  run g inputs = Some g' ->
  Sender.sent g' ++ send_q g' = Sender.accepted g'.
Proof.
  apply (run_inv (fun g => Sender.sent g ++ send_q g = Sender.accepted g)).
  - intros g0 f Hg. unfold Client.on_frame, Sender.sent, Sender.accepted in *.
    destruct (state g0).
    + destruct (porcupine_process (detector g0) f) as [det' r].
      destruct (0 <=? _)%Z; cbn [effects send_q];
        rewrite !flat_map_app; cbn; rewrite !app_nil_r; exact Hg.
    + cbn [effects send_q]. rewrite !flat_map_app.
      destruct (List.length (send_q g0) <? send_q_maxsize); cbn.
      * rewrite app_nil_r, app_assoc, Hg. reflexivity.
      * rewrite !app_nil_r. exact Hg.
  - intros g0 l Hg. exact Hg.
  - intros g0 i g1 Hi Hg Hstep.
    destruct i as [[data|]| | | ]; cbn [Client.step] in Hstep.
    + exfalso. now apply (Hi data).
    + inversion Hstep; subst. exact Hg.
    + inversion Hstep; subst. exact Hg.
    + inversion Hstep; subst. exact Hg.
    + destruct (send_q g0) as [|c rest] eqn:E.
      * inversion Hstep; subst. rewrite E. exact Hg.
      * inversion Hstep; subst. unfold Sender.sent, Sender.accepted in *.
        cbn [effects send_q]. rewrite !flat_map_app. cbn.
        rewrite app_nil_r, <- app_assoc. exact Hg.
Qed.

(** C4.  Along every sequence of chunks, and of the other things that
    happen to the gate, the processor ends each chunk, and: each whole
    frame of the bytes captured has one entry in the log, in order - a
    [Detect] or a [Put], never both; a [Put] is only made with the gate
    open, that is for a frame that follows a frame on which the keyword
    was reported or another forwarded frame, so never for the frame of
    the detection itself; a gate in Recording is open; and what reaches
    the socket or waits in the send queue are frames a [Put] was made
    for, and no other.  Chunk by chunk: a running processor does to the
    gate what the loop body does, frame after frame, on the whole frames
    of the bytes kept and received, and nothing else.  Frame by frame:
    a frame that meets the gate Idle is handed to the detector and to
    nothing else - the send queue is left as it was and no [put_nowait]
    is made; if the detector reports an index that is not negative the
    gate goes to Recording, if it reports a negative index, or raises,
    the gate stays Idle. *)
Theorem C4_idle_gate_forwards_nothing (d : DetState) (inputs : list input) :
  (0 < frame_len ->
   exists g',
     run (init d) inputs = Some g'
     /\ List.concat (frames_seen g') ++ leftover g' = consumed inputs
     /\ gated false (effects g') = true
     /\ (state g' = Recording -> armed_after false (effects g') = true)
     /\ Sender.sent g' ++ send_q g' = Sender.accepted g')
  /\ (forall (g : gate) (data : list byte),
        0 < frame_len ->
        alive g = true ->
        exists fs rest,
          step g (AudioChunk (Some data))
          = Some (set_leftover (fold_left on_frame fs g) rest)
          /\ List.concat fs ++ rest = leftover g ++ data
          /\ Forall (fun f => List.length f = frame_len * 2) fs
          /\ List.length rest < frame_len * 2)
  /\ (forall (g : gate) (frame_bytes : list byte),
        state g = Idle ->
        let res := snd (porcupine_process (detector g) frame_bytes) in
        let g' := on_frame g frame_bytes in
        send_q g' = send_q g
        /\ effects g' = effects g ++ [Detect frame_bytes res]
        /\ state g' = match res with
                      | Some k => if (0 <=? k)%Z then Recording else Idle
                      | None => Idle
                      end
        /\ leftover g' = leftover g).
Proof.
  split; [|split].
  - intros Hpos.
    assert (Hbpf : 0 < bpf) by (unfold bytes_per_frame; lia).
    destruct (run_frames Hbpf inputs (init d)) as [g' [Hrun [_ [Heq _]]]].
    + cbn. unfold bytes_per_frame. lia.
    + constructor.
    + exists g'. split; [exact Hrun|]. split; [exact Heq|].
      destruct (run_log_ok inputs (init d) g') as [H1 H2];
        [split; [reflexivity | discriminate] | exact Hrun |].
      split; [exact H1|]. split; [exact H2|].
      apply (run_fifo inputs (init d) g'); [reflexivity | exact Hrun].
  - apply step_chunk_fold.
  - intros g frame_bytes Hidle res g'. unfold g', res, Client.on_frame.
    rewrite Hidle.
    destruct (porcupine_process (detector g) frame_bytes) as [det' r].
    cbn [snd]. destruct r as [k|].
    + destruct (0 <=? k)%Z; repeat split.
    + repeat split.
Qed.

(** C5.  With a positive frame length, after any sequence of chunks of
    any lengths (and of the other things that happen to the gate), the
    loop body has run on frames of exactly [frame_len * 2] bytes; these
    frames, one after the other, followed by the bytes kept for the next
    iteration, are the bytes received, each once and in order; and fewer
    than one frame of bytes is kept. *)
Theorem C5_frame_reassembly (d : DetState) (inputs : list input) :
  0 < frame_len ->
  exists g',
    run (init d) inputs = Some g'
    /\ Forall (fun f => List.length f = frame_len * 2) (frames_seen g')
    /\ List.concat (frames_seen g') ++ leftover g' = consumed inputs
    /\ List.length (leftover g') < frame_len * 2.
Proof.
  intros Hpos.
  assert (Hbpf : 0 < bpf) by (unfold bytes_per_frame; lia).
  destruct (run_frames Hbpf inputs (init d)) as [g' [Hrun [Hall [Heq Hleft]]]].
  - cbn. unfold bytes_per_frame. lia.
  - constructor.
  - exists g'. split; [exact Hrun|]. split; [exact Hall|].
    split; [exact Heq | exact Hleft].
Qed.

End GateFacts.

(** ** The gate claims at concrete inputs *)

Section GateExamples.
Import Client.
Local Open Scope nat_scope.
Local Open Scope list_scope.

(** C4 with frames of one sample and the keyword in the first: of six
    bytes the first two go to the detector and open the gate, the next
    four are forwarded, and the sender writes the first of them. *)
Lemma C4_witness :
  0 < 1
  /\ exists g',
       run eager_detector 1 (init tt)
           [AudioChunk (Some [Byte.x01; Byte.x02; Byte.x03]);
            AudioChunk (Some [Byte.x04; Byte.x05; Byte.x06]); SenderTurn]
       = Some g'
       /\ effects g' = [Detect [Byte.x01; Byte.x02] (Some 0%Z);
                        Put [Byte.x03; Byte.x04] true;
                        Put [Byte.x05; Byte.x06] true;
                        WsSend [Byte.x03; Byte.x04]]
       /\ gated false (effects g') = true.
Proof.
  assert (H : 0 < 1) by lia.
  split; [exact H|].
  destruct (proj1 (C4_idle_gate_forwards_nothing unit eager_detector 1 tt
                     [AudioChunk (Some [Byte.x01; Byte.x02; Byte.x03]);
                      AudioChunk (Some [Byte.x04; Byte.x05; Byte.x06]);
                      SenderTurn]) H)
    as [g' [Hrun [_ [Hg _]]]].
  exists g'. split; [exact Hrun|]. split; [|exact Hg].
  vm_compute in Hrun. inversion Hrun. reflexivity.
Defined.

(** C5 with frames of one sample, three bytes arriving as one and two. *)
Lemma C5_witness :
  0 < 1
  /\ exists g',
       run eager_detector 1 (init tt)
           [AudioChunk (Some [Byte.x01]); AudioChunk (Some [Byte.x02; Byte.x03])]
       = Some g'
       /\ Forall (fun f => List.length f = 1 * 2) (frames_seen g')
       /\ List.concat (frames_seen g') ++ leftover g'
          = [Byte.x01; Byte.x02; Byte.x03]
       /\ List.length (leftover g') < 1 * 2.
Proof.
  assert (H : 0 < 1) by lia.
  split; [exact H|].
  exact (C5_frame_reassembly unit eager_detector 1 tt
           [AudioChunk (Some [Byte.x01]); AudioChunk (Some [Byte.x02; Byte.x03])]
           H).
Defined.

End GateExamples.

(* ================================================================== *)
(** * Further properties *)

(** ** Gain normalisation: sizes, round trip, edge payloads *)

Section AudioMore.
Import Audio.

(** A buffer of [2 * n] bytes decodes to [n] samples. *)
Lemma frombuffer_length_aux (n : nat) :
  forall bs arr, (List.length bs <= n)%nat ->
    frombuffer bs = Some arr -> List.length bs = (2 * List.length arr)%nat.
Proof.
  induction n as [|n IH]; intros bs arr Hlen Hfb.
  - destruct bs; [|simpl in Hlen; lia]. inversion Hfb. reflexivity.
  - destruct bs as [|lo [|hi rest]].
    + inversion Hfb. reflexivity.
    + discriminate.
    + rewrite frombuffer_cons2 in Hfb.
      destruct (frombuffer rest) as [arr'|] eqn:E; [|discriminate].
      inversion Hfb; subst. simpl in Hlen.
      specialize (IH rest arr' ltac:(lia) E). simpl. lia.
Qed.

Lemma frombuffer_length (bs : list byte) (arr : list Z) :
  frombuffer bs = Some arr -> List.length bs = (2 * List.length arr)%nat.
Proof. apply (frombuffer_length_aux (List.length bs)). lia. Qed.

Lemma frombuffer_parity_aux (n : nat) :
  forall bs, (List.length bs <= n)%nat ->
    match frombuffer bs with
    | Some _ => Nat.even (List.length bs) = true
    | None => Nat.even (List.length bs) = false
    end.
Proof.
  induction n as [|n IH]; intros bs Hlen.
  - destruct bs; [reflexivity | simpl in Hlen; lia].
  - destruct bs as [|lo [|hi rest]]; [reflexivity | reflexivity |].
    rewrite frombuffer_cons2. simpl in Hlen.
    specialize (IH rest ltac:(lia)).
    change (Nat.even (List.length (lo :: hi :: rest)))
      with (Nat.even (List.length rest)).
    destruct (frombuffer rest); exact IH.
Qed.

Lemma frombuffer_odd (bs : list byte) :
  Nat.even (List.length bs) = false -> frombuffer bs = None.
Proof.
  intros H. pose proof (frombuffer_parity_aux (List.length bs) bs (le_n _)) as P.
  destruct (frombuffer bs); [congruence | reflexivity].
Qed.

Lemma tobytes_length (arr : list Z) :
  List.length (tobytes arr) = (2 * List.length arr)%nat.
Proof.
  unfold tobytes. induction arr as [|s arr IH]; [reflexivity|].
  cbn [flat_map]. rewrite length_app, IH, length_le_split. simpl. lia.
Qed.

Lemma wrap16_mod (z : Z) : wrap16 z mod 65536 = z mod 65536.
Proof.
  unfold wrap16.
  rewrite Zminus_mod, Z.mod_mod by lia.
  rewrite <- Zminus_mod. f_equal. lia.
Qed.

Lemma le_split_wrap16 (lo hi : byte) :
  le_split 2 (wrap16 (le_combine [lo; hi])) = [lo; hi].
Proof.
  apply le_combine_inj.
  - rewrite length_le_split. reflexivity.
  - rewrite le_combine_split.
    change (2 ^ (Z.of_nat 2 * 8)) with 65536.
    rewrite wrap16_mod. apply Z.mod_small.
    pose proof (le_combine_bound [lo; hi]) as B.
    change (2 ^ (8 * Z.of_nat (List.length [lo; hi]))) with 65536 in B.
    exact B.
Qed.

Lemma tobytes_frombuffer_aux (n : nat) :
  forall bs arr, (List.length bs <= n)%nat ->
    frombuffer bs = Some arr -> tobytes arr = bs.
Proof.
  induction n as [|n IH]; intros bs arr Hlen Hfb.
  - destruct bs; [|simpl in Hlen; lia]. inversion Hfb. reflexivity.
  - destruct bs as [|lo [|hi rest]].
    + inversion Hfb. reflexivity.
    + discriminate.
    + rewrite frombuffer_cons2 in Hfb.
      destruct (frombuffer rest) as [arr'|] eqn:E; [|discriminate].
      inversion Hfb; subst. simpl in Hlen.
      unfold tobytes. cbn [flat_map]. rewrite le_split_wrap16.
      change (flat_map (le_split 2) arr') with (tobytes arr').
      rewrite (IH rest arr' ltac:(lia) E). reflexivity.
Qed.

(** X1.  Decoding a payload into int16 samples and encoding the samples
    again gives the payload back, and encoding samples and decoding them
    gives the samples back: nothing is lost between the socket's bytes
    and the array the gain works on. *)
Theorem X1_buffer_round_trip :
  (forall (data : list byte) (arr : list Z),
      frombuffer data = Some arr -> tobytes arr = data)
  /\ (forall arr : list Z,
        Forall int16 arr -> frombuffer (tobytes arr) = Some arr).
Proof.
  split.
  - intros data arr. apply (tobytes_frombuffer_aux (List.length data)). lia.
  - apply frombuffer_tobytes.
Qed.

(** The bytes 10 27 are the sample 10000, and back. *)
Lemma X1_witness :
  frombuffer [Byte.x10; Byte.x27] = Some [10000]
  /\ tobytes [10000] = [Byte.x10; Byte.x27].
Proof.
  assert (H : frombuffer [Byte.x10; Byte.x27] = Some [10000])
    by (vm_compute; reflexivity).
  split; [exact H|].
  exact (proj1 X1_buffer_round_trip _ _ H).
Defined.

(** X2.  Normalisation never changes the size of a payload: the engine
    gets as many bytes as the client sent, whatever they are. *)
Theorem X2_normalize_keeps_length (data : list byte) :
  List.length (normalize data) = List.length data.
Proof.
  unfold normalize.
  destruct (frombuffer data) as [arr|] eqn:Hfb; [|reflexivity].
  destruct (0 <? List.length arr)%nat; [|reflexivity].
  destruct (0 <? np_max (map np_abs arr)); [|reflexivity].
  destruct (SFltb _ _); [|reflexivity].
  rewrite tobytes_length, length_map.
  symmetry. apply frombuffer_length, Hfb.
Qed.

(** X3.  Payloads the gain leaves alone: one with an odd number of bytes
    (NumPy refuses the buffer and the raw bytes are kept), and a silent
    one (every sample 0). *)
Theorem X3_odd_and_silent_payloads_pass (data : list byte) :
  (Nat.even (List.length data) = false -> normalize data = data)
  /\ (forall arr, frombuffer data = Some arr -> peak_abs arr = 0 ->
                  normalize data = data).
Proof.
  split.
  - intros Hodd. unfold normalize. now rewrite (frombuffer_odd data Hodd).
  - intros arr Hfb Hpeak. unfold normalize. rewrite Hfb.
    destruct arr as [|x rest]; [reflexivity|].
    change (0 <? List.length (x :: rest))%nat with true. cbv iota.
    assert (Hzero : forall s, In s (x :: rest) -> s = 0).
    { intros s Hin. pose proof (peak_abs_bound _ _ Hin). lia. }
    rewrite map_np_abs_regular.
    + rewrite np_max_abs_peak by discriminate. rewrite Hpeak. reflexivity.
    + eapply frombuffer_int16; eassumption.
    + intros Hin. specialize (Hzero _ Hin). discriminate.
Qed.

(** X3 on three bytes, and on two samples of silence. *)
Lemma X3_witness :
  normalize [Byte.x01; Byte.x02; Byte.x03] = [Byte.x01; Byte.x02; Byte.x03]
  /\ normalize [Byte.x00; Byte.x00; Byte.x00; Byte.x00]
     = [Byte.x00; Byte.x00; Byte.x00; Byte.x00].
Proof.
  split.
  - exact (proj1 (X3_odd_and_silent_payloads_pass
                    [Byte.x01; Byte.x02; Byte.x03]) eq_refl).
  - exact (proj2 (X3_odd_and_silent_payloads_pass
                    [Byte.x00; Byte.x00; Byte.x00; Byte.x00])
                 [0; 0] eq_refl eq_refl).
Defined.

End AudioMore.

(** ** Gain normalisation: when the gain applies, the 3x cap and the
    target *)

Section GainFacts.
Import Audio.

(** *** Rounding to [prec] bits, for any precision *)

Lemma iter_pos_iter (A : Type) (f : A -> A) (p : positive) (x : A) :
  iter_pos f p x = Pos.iter f x p.
Proof.
  revert x. induction p as [p IH|p IH|]; intros x; cbn [iter_pos Pos.iter].
  - rewrite !IH, <- !Pos.iter_swap. reflexivity.
  - rewrite !IH. reflexivity.
  - reflexivity.
Qed.

Lemma shr_m_shr_1 (r : shr_record) :
  0 <= shr_m r -> shr_m (shr_1 r) = shr_m r / 2.
Proof.
  destruct r as [m b s]. cbn [shr_m]. intros H.
  destruct m as [|p|p]; [reflexivity| |lia].
  rewrite <- Z.div2_div. destruct p; reflexivity.
Qed.

Lemma shr_m_iter (p : positive) (r : shr_record) :
  0 <= shr_m r -> shr_m (iter_pos shr_1 p r) = shr_m r / 2 ^ Zpos p.
Proof.
  intros H. rewrite iter_pos_iter.
  induction p as [|p IH] using Pos.peano_ind.
  - cbn [Pos.iter]. now apply shr_m_shr_1.
  - rewrite Pos.iter_succ, shr_m_shr_1.
    + rewrite IH, Z.div_div by lia.
      rewrite Pos2Z.inj_succ, Z.pow_succ_r by lia.
      f_equal. lia.
    + rewrite IH. apply Z.div_pos; lia.
Qed.

Lemma shr_m_of_loc (m : Z) (l : location) : shr_m (shr_record_of_loc m l) = m.
Proof. now destruct l as [|[]]. Qed.

Lemma nearest_even_range (m : Z) (l : location) :
  round_nearest_even m l = m \/ round_nearest_even m l = m + 1.
Proof.
  unfold round_nearest_even. destruct l as [|[]]; auto.
  destruct (Z.even m); auto.
Qed.

Lemma digits_pow (z n : Z) :
  0 < n -> 2 ^ (n - 1) <= z < 2 ^ n -> Zdigits2 z = n.
Proof.
  intros Hn H.
  assert (Hz : 0 < z) by (pose proof (Z.pow_pos_nonneg 2 (n - 1)); lia).
  destruct z as [|p|p]; try lia.
  cbn [Zdigits2].
  assert (Es : forall q, digits2_pos q = Pos.size q)
    by (induction q; cbn; congruence).
  rewrite Es.
  assert (El : Zpos (Pos.size p) = Z.log2 (Zpos p) + 1)
    by (destruct p; cbn [Pos.size Z.log2]; try reflexivity;
        now rewrite Pos2Z.inj_succ).
  assert (E : Z.log2 (Zpos p) = n - 1).
  { apply Z.log2_unique; [lia|].
    replace (Z.succ (n - 1)) with n by lia. exact H. }
  lia.
Qed.

(** The first step of [binary_round_aux]: a mantissa of [prec + n] bits
    loses its [n] low bits. *)
Lemma shr_fexp_drop (prec emax M e n : Z) (lx : location) :
  0 < prec -> 0 <= n -> 2 ^ (prec + n - 1) <= M < 2 ^ (prec + n) ->
  3 - emax - prec <= e + n ->
  exists r, shr_fexp prec emax M e lx = (r, e + n) /\ shr_m r = M / 2 ^ n.
Proof.
  intros Hp Hn HM He. unfold shr_fexp, fexp, emin.
  rewrite (digits_pow M (prec + n)) by lia.
  replace (Z.max (prec + n + e - prec) (3 - emax - prec) - e) with n by lia.
  destruct n as [|p|p]; [| |lia].
  - exists (shr_record_of_loc M lx). cbn [shr]. rewrite Z.add_0_r.
    split; [reflexivity|]. rewrite shr_m_of_loc. cbn. now rewrite Z.div_1_r.
  - exists (iter_pos shr_1 p (shr_record_of_loc M lx)). cbn [shr].
    split; [reflexivity|].
    rewrite shr_m_iter; rewrite shr_m_of_loc; [reflexivity|].
    pose proof (Z.pow_pos_nonneg 2 (prec + Zpos p - 1)). lia.
Qed.

(** A quantity of [prec + n] bits is rounded to [prec] bits within one
    unit of the last place kept. *)
Lemma round_aux_bounds (prec emax : Z) (sx : bool) (M e n : Z) (lx : location) :
  1 < prec -> 0 <= n -> 2 ^ (prec + n - 1) <= M < 2 ^ (prec + n) ->
  3 - emax - prec <= e + n -> e + n + 1 <= emax - prec ->
  exists m e',
    binary_round_aux prec emax sx M e lx = S754_finite sx m e'
    /\ 2 ^ (prec - 1) <= Zpos m < 2 ^ prec
    /\ ((e' = e + n /\ M - 2 ^ n < Zpos m * 2 ^ n <= M + 2 ^ n)
        \/ (e' = e + n + 1 /\ M - 2 ^ n < Zpos m * (2 * 2 ^ n) <= M + 2 ^ n)).
Proof.
  intros Hp Hn HM He1 He2. unfold binary_round_aux.
  destruct (shr_fexp_drop prec emax M e n lx ltac:(lia) Hn HM He1) as (r & -> & Hr).
  assert (Hu : 0 < 2 ^ n) by (apply Z.pow_pos_nonneg; lia).
  assert (Ea : 2 ^ (prec + n - 1) = 2 ^ (prec - 1) * 2 ^ n)
    by (rewrite <- Z.pow_add_r by lia; f_equal; lia).
  assert (Eb : 2 ^ (prec + n) = 2 ^ prec * 2 ^ n)
    by (rewrite <- Z.pow_add_r by lia; f_equal; lia).
  assert (Ec : 2 ^ prec = 2 * 2 ^ (prec - 1))
    by (rewrite <- Z.pow_succ_r by lia; f_equal; lia).
  assert (Hpp : 0 < 2 ^ (prec - 1)) by (apply Z.pow_pos_nonneg; lia).
  set (h := M / 2 ^ n) in *.
  assert (Hh1 : h * 2 ^ n <= M) by (unfold h; rewrite Z.mul_comm; apply Z.mul_div_le; lia).
  assert (Hh2 : M < (h + 1) * 2 ^ n).
  { unfold h. rewrite Z.mul_comm.
    replace (M / 2 ^ n + 1) with (Z.succ (M / 2 ^ n)) by lia.
    apply Z.mul_succ_div_gt; lia. }
  assert (Hh : 2 ^ (prec - 1) <= h < 2 ^ prec).
  { unfold h. split.
    - apply Z.div_le_lower_bound; lia.
    - apply Z.div_lt_upper_bound; lia. }
  rewrite Hr.
  set (m1 := round_nearest_even h (loc_of_shr_record r)).
  assert (Hm1 : m1 = h \/ m1 = h + 1) by apply nearest_even_range.
  clearbody m1 h.
  destruct (Z.eq_dec m1 (2 ^ prec)) as [E|Hne].
  - assert (HM1 : 2 ^ (prec + 1 - 1) <= m1 < 2 ^ (prec + 1)).
    { replace (prec + 1 - 1) with prec by lia.
      rewrite Z.pow_add_r by lia. change (2 ^ 1) with 2. lia. }
    destruct (shr_fexp_drop prec emax m1 (e + n) 1 loc_Exact ltac:(lia) ltac:(lia)
                HM1 ltac:(lia)) as (r2 & -> & Hr2).
    rewrite Hr2, E. change (2 ^ 1) with 2.
    replace (2 ^ prec / 2) with (2 ^ (prec - 1))
      by (rewrite Ec, Z.mul_comm, Z.div_mul by lia; reflexivity).
    destruct (2 ^ (prec - 1)) as [|m|m] eqn:Em; try lia.
    exists m, (e + n + 1).
    replace (e + n + 1 <=? emax - prec) with true by (symmetry; apply Z.leb_le; lia).
    split; [reflexivity|]. split; [lia|]. right. split; [reflexivity|].
    destruct Hm1 as [->| ->]; nia.
  - assert (HM1 : 2 ^ (prec + 0 - 1) <= m1 < 2 ^ (prec + 0)).
    { rewrite Z.add_0_r. lia. }
    destruct (shr_fexp_drop prec emax m1 (e + n) 0 loc_Exact ltac:(lia) ltac:(lia)
                HM1 ltac:(lia)) as (r2 & -> & Hr2).
    rewrite Hr2. change (2 ^ 0) with 1. rewrite Z.div_1_r, Z.add_0_r.
    destruct m1 as [|m|m]; try lia.
    exists m, (e + n).
    replace (e + n <=? emax - prec) with true by (symmetry; apply Z.leb_le; lia).
    split; [reflexivity|]. split; [lia|]. left. split; [reflexivity|].
    destruct Hm1 as [->| ->]; nia.
Qed.

(** A mantissa of exactly [prec] bits in range is kept as it is. *)
Lemma round_aux_exact (prec emax : Z) (sx : bool) (m : positive) (e : Z) :
  0 < prec -> 2 ^ (prec - 1) <= Zpos m < 2 ^ prec ->
  3 - emax - prec <= e <= emax - prec ->
  binary_round_aux prec emax sx (Zpos m) e loc_Exact = S754_finite sx m e.
Proof.
  intros Hp Hm He.
  assert (Hs : forall l, shr_fexp prec emax (Zpos m) e l
                         = (shr_record_of_loc (Zpos m) l, e)).
  { intros l. unfold shr_fexp, fexp, emin.
    rewrite (digits_pow (Zpos m) prec) by lia.
    replace (Z.max (prec + e - prec) (3 - emax - prec) - e) with 0 by lia.
    reflexivity. }
  unfold binary_round_aux. rewrite Hs.
  cbn [shr_record_of_loc shr_m loc_of_shr_record round_nearest_even].
  rewrite Hs. cbn [shr_record_of_loc shr_m].
  replace (e <=? emax - prec) with true by (symmetry; apply Z.leb_le; lia).
  reflexivity.
Qed.

Lemma iter_xO_pow2 (p n : positive) :
  Zpos (Pos.iter xO p n) = Zpos p * 2 ^ Zpos n.
Proof.
  rewrite <- Z.shiftl_mul_pow2 by lia. cbn [Z.shiftl].
  apply (Pos.iter_swap_gen _ _ Zpos xO (Z.mul 2)). reflexivity.
Qed.

(** The float of a non-zero integer of [d] bits, [d] below the precision:
    the integer itself, its magnitude shifted to [prec] bits. *)
Lemma normalize_normal (prec emax z d : Z) :
  0 < d < prec -> 2 ^ (d - 1) <= Z.abs z < 2 ^ d ->
  3 - emax - prec <= d - prec -> prec <= emax ->
  exists m, binary_normalize prec emax z 0 false
            = S754_finite (z <? 0) m (d - prec)
            /\ Zpos m = Z.abs z * 2 ^ (prec - d)
            /\ 2 ^ (prec - 1) <= Zpos m < 2 ^ prec.
Proof.
  intros Hd Hz He Hemax.
  assert (Hpos : 0 < Z.abs z) by (pose proof (Z.pow_pos_nonneg 2 (d - 1)); lia).
  assert (Ea : 2 ^ (d - 1) * 2 ^ (prec - d) = 2 ^ (prec - 1))
    by (rewrite <- Z.pow_add_r by lia; f_equal; lia).
  assert (Eb : 2 ^ d * 2 ^ (prec - d) = 2 ^ prec)
    by (rewrite <- Z.pow_add_r by lia; f_equal; lia).
  assert (Ht : 0 < 2 ^ (prec - d)) by (apply Z.pow_pos_nonneg; lia).
  assert (Hgen : forall (s : bool) (p : positive),
             2 ^ (d - 1) <= Zpos p < 2 ^ d ->
             exists m, binary_round prec emax s p 0 = S754_finite s m (d - prec)
                       /\ Zpos m = Zpos p * 2 ^ (prec - d)
                       /\ 2 ^ (prec - 1) <= Zpos m < 2 ^ prec).
  { intros s p Hp. unfold binary_round.
    pose proof (digits_pow (Zpos p) d ltac:(lia) Hp) as Hdig.
    cbn [Zdigits2] in Hdig. rewrite Hdig. unfold fexp, emin.
    replace (Z.max (d + 0 - prec) (3 - emax - prec)) with (d - prec) by lia.
    unfold shl_align. rewrite Z.sub_0_r.
    destruct (d - prec) as [|k|k] eqn:Ek; try lia.
    assert (Hk : Zpos k = prec - d) by lia.
    assert (Hm : Zpos (Pos.iter xO p k) = Zpos p * 2 ^ (prec - d))
      by (now rewrite iter_xO_pow2, Hk).
    assert (Hr : 2 ^ (prec - 1) <= Zpos (Pos.iter xO p k) < 2 ^ prec).
    { rewrite Hm, <- Ea, <- Eb. split.
      - apply Z.mul_le_mono_nonneg_r; lia.
      - apply Z.mul_lt_mono_pos_r; lia. }
    exists (Pos.iter xO p k). split; [|split; assumption].
    apply round_aux_exact; lia. }
  destruct z as [|p|p]; [simpl in Hpos; lia| |].
  - exact (Hgen false p Hz).
  - exact (Hgen true p Hz).
Qed.

(** The quotient of two positive normal doubles, away from underflow and
    overflow: the integer quotient [q] of the mantissas, of [53 + n]
    bits, rounded to 53. *)
Lemma div_normal (m1 m2 : positive) (e1 e2 : Z) :
  2 ^ 52 <= Zpos m1 < 2 ^ 53 -> 2 ^ 52 <= Zpos m2 < 2 ^ 53 ->
  -1021 <= e1 - e2 <= 900 ->
  exists m e n,
    SFdiv 53 1024 (S754_finite false m1 e1) (S754_finite false m2 e2)
    = S754_finite false m e
    /\ 2 ^ 52 <= Zpos m < 2 ^ 53
    /\ (n = 0 \/ n = 1)
    /\ 2 ^ (52 + n) <= Zpos m1 * 2 ^ 53 / Zpos m2 < 2 ^ (53 + n)
    /\ ((e = e1 - e2 - 53 + n
         /\ Zpos m1 * 2 ^ 53 / Zpos m2 - 2 ^ n < Zpos m * 2 ^ n
            <= Zpos m1 * 2 ^ 53 / Zpos m2 + 2 ^ n)
        \/ (e = e1 - e2 - 53 + n + 1
            /\ Zpos m1 * 2 ^ 53 / Zpos m2 - 2 ^ n < Zpos m * (2 * 2 ^ n)
               <= Zpos m1 * 2 ^ 53 / Zpos m2 + 2 ^ n)).
Proof.
  intros H1 H2 He. unfold SFdiv, SFdiv_core_binary.
  rewrite (digits_pow (Zpos m1) 53), (digits_pow (Zpos m2) 53) by lia.
  unfold fexp, emin.
  replace (Z.min (Z.max (53 + e1 - (53 + e2) - 53) (3 - 1024 - 53)) (e1 - e2))
    with (e1 - e2 - 53) by lia.
  replace (e1 - e2 - (e1 - e2 - 53)) with 53 by lia.
  rewrite Z.shiftl_mul_pow2 by lia.
  assert (Eq : Zpos m1 * 2 ^ 53 / Zpos m2
               = fst (Z.div_eucl (Zpos m1 * 2 ^ 53) (Zpos m2)))
    by (unfold Z.div; now destruct (Z.div_eucl _ _)).
  destruct (Z.div_eucl (Zpos m1 * 2 ^ 53) (Zpos m2)) as [q r].
  cbn [fst] in Eq. cbn [xorb]. rewrite Eq.
  assert (Hq : 2 ^ 52 <= q < 2 ^ 54).
  { rewrite <- Eq. split.
    - apply Z.div_le_lower_bound; lia.
    - apply Z.div_lt_upper_bound; lia. }
  clear Eq.
  destruct (Z.lt_ge_cases q (2 ^ 53)) as [Hlt|Hge].
  - destruct (round_aux_bounds 53 1024 false q (e1 - e2 - 53) 0
                (new_location (Zpos m2) r))
      as (m & e & E & Hm & Hc); try lia.
    exists m, e, 0. split; [exact E|]. split; [lia|]. split; [now left|].
    split; [lia|]. rewrite !Z.add_0_r in *. exact Hc.
  - destruct (round_aux_bounds 53 1024 false q (e1 - e2 - 53) 1
                (new_location (Zpos m2) r))
      as (m & e & E & Hm & Hc); try lia.
    exists m, e, 1. split; [exact E|]. split; [lia|]. split; [now right|].
    split; [lia|]. exact Hc.
Qed.

Lemma SFltb_finite (m1 m2 : positive) (e1 e2 : Z) :
  SFltb (S754_finite false m1 e1) (S754_finite false m2 e2)
  = (e1 <? e2) || ((e1 =? e2) && (Zpos m1 <? Zpos m2)).
Proof.
  unfold SFltb, SFcompare.
  destruct (Z.compare_spec e1 e2) as [->|Hlt|Hgt].
  - rewrite Z.ltb_irrefl, Z.eqb_refl. reflexivity.
  - replace (e1 <? e2) with true by (symmetry; apply Z.ltb_lt; lia).
    reflexivity.
  - replace (e1 <? e2) with false by (symmetry; apply Z.ltb_ge; lia).
    replace (e1 =? e2) with false by (symmetry; apply Z.eqb_neq; lia).
    reflexivity.
Qed.

Lemma ltb_by_parts (e1 e2 m1 m2 : Z) :
  e1 < e2 \/ (e1 = e2 /\ m1 < m2) ->
  (e1 <? e2) || ((e1 =? e2) && (m1 <? m2)) = true.
Proof.
  intros [H|[-> H]].
  - apply orb_true_iff. left. now apply Z.ltb_lt.
  - apply orb_true_iff. right. rewrite Z.eqb_refl. now apply Z.ltb_lt.
Qed.

Lemma not_ltb_by_parts (e1 e2 m1 m2 : Z) :
  e2 < e1 \/ (e1 = e2 /\ m2 <= m1) ->
  (e1 <? e2) || ((e1 =? e2) && (m1 <? m2)) = false.
Proof.
  intros [H|[-> H]].
  - replace (e1 <? e2) with false by (symmetry; apply Z.ltb_ge; lia).
    replace (e1 =? e2) with false by (symmetry; apply Z.eqb_neq; lia).
    reflexivity.
  - rewrite Z.ltb_irrefl, Z.eqb_refl.
    replace (m1 <? m2) with false by (symmetry; apply Z.ltb_ge; lia).
    reflexivity.
Qed.

(** [a < b] and [b < a] never hold together, NaN included. *)
Lemma SFltb_antisym (x y : spec_float) :
  SFltb x y = true -> SFltb y x = false.
Proof.
  unfold SFltb, SFcompare.
  destruct x as [sx|sx| |sx mx ex], y as [sy|sy| |sy my ey];
    try destruct sx; try destruct sy; try (discriminate || reflexivity).
  - rewrite (Z.compare_antisym ex ey).
    destruct (ex ?= ey); cbn [CompOpp]; try (discriminate || reflexivity).
    change (Pos.compare_cont Eq my mx) with (Pos.compare my mx).
    change (Pos.compare_cont Eq mx my) with (Pos.compare mx my).
    rewrite (Pos.compare_antisym mx my).
    destruct (mx ?= my)%positive; cbn [CompOpp]; discriminate || reflexivity.
  - rewrite (Z.compare_antisym ex ey).
    destruct (ex ?= ey); cbn [CompOpp]; try (discriminate || reflexivity).
    change (Pos.compare_cont Eq my mx) with (Pos.compare my mx).
    change (Pos.compare_cont Eq mx my) with (Pos.compare mx my).
    rewrite (Pos.compare_antisym mx my).
    destruct (mx ?= my)%positive; cbn [CompOpp]; discriminate || reflexivity.
Qed.

(** The quotient [30000.0 / float(maxv)] for a peak of [k - 38] bits:
    the integer quotient [q] of [30000 * 2^k] by the peak, rounded to 53
    bits. *)
Lemma quotient_of_peak (maxv : Z) :
  1 <= maxv <= 32767 ->
  exists k m e n q,
    39 <= k <= 53 /\ 2 ^ (k - 39) <= maxv < 2 ^ (k - 38)
    /\ SFdiv 53 1024 (f64_of_Z 30000) (f64_of_Z maxv) = S754_finite false m e
    /\ 2 ^ 52 <= Zpos m < 2 ^ 53
    /\ (n = 0 \/ n = 1)
    /\ maxv * q <= 30000 * 2 ^ k < maxv * (q + 1)
    /\ 2 ^ (52 + n) <= q < 2 ^ (53 + n)
    /\ ((e = - k + n /\ q - 2 ^ n < Zpos m * 2 ^ n <= q + 2 ^ n)
        \/ (e = - k + n + 1 /\ q - 2 ^ n < Zpos m * (2 * 2 ^ n) <= q + 2 ^ n)).
Proof.
  intros H.
  set (d := Z.log2 maxv + 1).
  pose proof (Z.log2_spec maxv ltac:(lia)) as Hs.
  pose proof (Z.log2_nonneg maxv) as H0.
  assert (Hlt : Z.log2 maxv < 15) by (apply Z.log2_lt_pow2; lia).
  assert (Hd : 2 ^ (d - 1) <= maxv < 2 ^ d).
  { unfold d. replace (Z.log2 maxv + 1 - 1) with (Z.log2 maxv) by lia.
    replace (Z.log2 maxv + 1) with (Z.succ (Z.log2 maxv)) by lia. exact Hs. }
  assert (Hdr : 1 <= d <= 15) by (unfold d; lia). clearbody d.
  destruct (normalize_normal 53 1024 maxv d) as (m2 & E2 & Hm2 & Hb2);
    [lia | now rewrite Z.abs_eq by lia | lia | lia |].
  destruct (normalize_normal 53 1024 30000 15) as (m1 & E1 & Hm1 & Hb1);
    [lia | cbn; lia | lia | lia |].
  rewrite Z.abs_eq in Hm2 by lia. cbn [Z.abs] in Hm1.
  replace (maxv <? 0) with false in E2 by (symmetry; apply Z.ltb_ge; lia).
  cbn [Z.ltb Z.compare] in E1.
  destruct (div_normal m1 m2 (15 - 53) (d - 53) Hb1 Hb2 ltac:(lia))
    as (m & e & n & E & Hm & Hn & Hq & Hc).
  assert (Ht : 0 < 2 ^ (53 - d)) by (apply Z.pow_pos_nonneg; lia).
  assert (Eq : Zpos m1 * 2 ^ 53 / Zpos m2 = 30000 * 2 ^ (38 + d) / maxv).
  { rewrite Hm1, Hm2.
    replace (30000 * 2 ^ (53 - 15) * 2 ^ 53)
      with (30000 * 2 ^ (38 + d) * 2 ^ (53 - d)).
    - apply Z.div_mul_cancel_r; lia.
    - rewrite <- !Z.mul_assoc. f_equal.
      rewrite <- !Z.pow_add_r by lia. f_equal. lia. }
  rewrite Eq in Hq, Hc.
  exists (38 + d), m, e, n, (30000 * 2 ^ (38 + d) / maxv).
  replace (38 + d - 39) with (d - 1) by lia.
  replace (38 + d - 38) with d by lia.
  unfold f64_of_Z. rewrite E1, E2.
  split; [lia|]. split; [exact Hd|]. split; [exact E|]. split; [exact Hm|].
  split; [exact Hn|]. split.
  - split.
    + apply Z.mul_div_le. lia.
    + replace (30000 * 2 ^ (38 + d) / maxv + 1)
        with (Z.succ (30000 * 2 ^ (38 + d) / maxv)) by lia.
      apply Z.mul_succ_div_gt. lia.
  - split; [exact Hq|].
    destruct Hc as [[-> Hc]|[-> Hc]]; [left | right]; (split; [lia | exact Hc]).
Qed.

Ltac each_width k :=
  let C := fresh "C" in
  assert (C : k = 39 \/ k = 40 \/ k = 41 \/ k = 42 \/ k = 43 \/ k = 44
              \/ k = 45 \/ k = 46 \/ k = 47 \/ k = 48 \/ k = 49 \/ k = 50
              \/ k = 51 \/ k = 52 \/ k = 53) by lia;
  repeat (destruct C as [C|C]); subst k.

(** Below the target the quotient [30000.0 / maxv] exceeds 1.0 by at
    least [2^-15], which rounding cannot take away. *)
Lemma gain_applied_below_target (maxv : Z) :
  1 <= maxv <= 29999 -> SFltb (f64_of_Z 1) (gain_of maxv) = true.
Proof.
  intros H.
  destruct (quotient_of_peak maxv ltac:(lia))
    as (k & m & e & n & q & Hk & Hr & E & Hm & Hn & Hq & Hqr & Hc).
  unfold gain_of, py_min. rewrite E.
  destruct (SFltb (S754_finite false m e) (f64_of_Z 3));
    [|vm_compute; reflexivity].
  replace (f64_of_Z 1) with (S754_finite false (Z.to_pos (2 ^ 52)) (-52))
    by (vm_compute; reflexivity).
  rewrite SFltb_finite. apply ltb_by_parts.
  replace (Zpos (Z.to_pos (2 ^ 52))) with (2 ^ 52) by reflexivity.
  assert (Hlo : 2 ^ k + 2 ^ (k - 15) <= q).
  { assert (maxv * (2 ^ k + 2 ^ (k - 15)) < maxv * (q + 1))
      by (each_width k; lia).
    apply Z.mul_lt_mono_pos_l in H0; lia. }
  clear Hq.
  destruct Hn as [-> | ->]; destruct Hc as [[-> Hc]|[-> Hc]];
    each_width k; lia.
Qed.

(** Up to a peak of 10000 the quotient is at least 3.0, so the gain is
    the cap itself. *)
Lemma gain_is_cap (maxv : Z) :
  1 <= maxv <= 10000 -> gain_of maxv = f64_of_Z 3.
Proof.
  intros H.
  destruct (quotient_of_peak maxv ltac:(lia))
    as (k & m & e & n & q & Hk & Hr & E & Hm & Hn & Hq & Hqr & Hc).
  unfold gain_of, py_min. rewrite E.
  replace (SFltb (S754_finite false m e) (f64_of_Z 3)) with false;
    [reflexivity|].
  symmetry.
  replace (f64_of_Z 3) with (S754_finite false (Z.to_pos (3 * 2 ^ 51)) (-51))
    by (vm_compute; reflexivity).
  rewrite SFltb_finite. apply not_ltb_by_parts.
  replace (Zpos (Z.to_pos (3 * 2 ^ 51))) with (3 * 2 ^ 51) by reflexivity.
  assert (Hlo : 3 * 2 ^ k <= q).
  { assert (maxv * (3 * 2 ^ k) < maxv * (q + 1)) by (each_width k; lia).
    apply Z.mul_lt_mono_pos_l in H0; lia. }
  clear Hq.
  destruct Hn as [-> | ->]; destruct Hc as [[-> Hc]|[-> Hc]];
    each_width k; lia.
Qed.

Lemma scale_bounds (c x y u : Z) :
  0 < c -> x - u < y <= x + u -> c * x - c * u < c * y <= c * x + c * u.
Proof. intros Hc H. nia. Qed.

(** A normal double converted to float32: 29 bits of the mantissa are
    rounded away. *)
Lemma f32_of_f64_normal (mD : positive) (eD : Z) :
  2 ^ 52 <= Zpos mD < 2 ^ 53 -> -100 <= eD <= 50 ->
  exists mC eC,
    f32_of_f64 (S754_finite false mD eD) = S754_finite false mC eC
    /\ 2 ^ 23 <= Zpos mC < 2 ^ 24
    /\ ((eC = eD + 29
         /\ Zpos mD - 2 ^ 29 < Zpos mC * 2 ^ 29 <= Zpos mD + 2 ^ 29)
        \/ (eC = eD + 30
            /\ Zpos mD - 2 ^ 29 < Zpos mC * 2 ^ 30 <= Zpos mD + 2 ^ 29)).
Proof.
  intros Hm He. unfold f32_of_f64, binary_round.
  pose proof (digits_pow (Zpos mD) 53 ltac:(lia) Hm) as Hdig.
  cbn [Zdigits2] in Hdig. rewrite Hdig. unfold fexp, emin.
  replace (Z.max (53 + eD - 24) (3 - 128 - 24)) with (eD + 29) by lia.
  unfold shl_align. replace (eD + 29 - eD) with 29 by lia. cbv iota.
  destruct (round_aux_bounds 24 128 false (Zpos mD) eD 29 loc_Exact)
    as (mC & eC & E & HmC & Hc); try lia.
  exists mC, eC. split; [exact E|]. split; [lia|].
  destruct Hc as [[-> Hc]|[-> Hc]]; [left | right]; (split; [lia|]); lia.
Qed.

(** The gain for a peak between 10001 and 29999, as the float32 that
    multiplies the samples: within 0.01 of [30000 / maxv] when multiplied
    by the peak. *)
Lemma gain_mid (maxv : Z) :
  10001 <= maxv <= 29999 ->
  exists mC eC,
    f32_of_f64 (gain_of maxv) = S754_finite false mC eC
    /\ 2 ^ 23 <= Zpos mC < 2 ^ 24
    /\ ((eC = -23 /\ 2999999 * 2 ^ 23 <= 100 * (maxv * Zpos mC)
                     <= 3000001 * 2 ^ 23)
        \/ (eC = -22 /\ 2999999 * 2 ^ 22 <= 100 * (maxv * Zpos mC)
                        <= 3000001 * 2 ^ 22)).
Proof.
  intros H.
  destruct (quotient_of_peak maxv ltac:(lia))
    as (k & m & e & n & q & Hk & Hr & E & Hm & Hn & Hq & Hqr & Hc).
  assert (Hk2 : k = 52 \/ k = 53) by (clear - H Hk Hr; each_width k; lia).
  assert (Hq1 : 10001 * q <= maxv * q) by (apply Z.mul_le_mono_nonneg_r; lia).
  assert (Hq2 : maxv * q <= 29999 * q) by (apply Z.mul_le_mono_nonneg_r; lia).
  assert (Hq3 : 2 ^ (k - 39) * q <= maxv * q)
    by (apply Z.mul_le_mono_nonneg_r; lia).
  assert (Hq4 : maxv * q <= 2 ^ (k - 38) * q)
    by (apply Z.mul_le_mono_nonneg_r; lia).
  assert (Hlt3 : SFltb (S754_finite false m e) (f64_of_Z 3) = true).
  { replace (f64_of_Z 3) with (S754_finite false (Z.to_pos (3 * 2 ^ 51)) (-51))
      by (vm_compute; reflexivity).
    rewrite SFltb_finite. apply ltb_by_parts.
    replace (Zpos (Z.to_pos (3 * 2 ^ 51))) with (3 * 2 ^ 51) by reflexivity.
    destruct Hk2 as [-> | ->]; destruct Hn as [-> | ->];
      destruct Hc as [[-> Hc]|[-> Hc]]; lia. }
  assert (He : e = -52 \/ e = -51).
  { destruct Hk2 as [-> | ->]; destruct Hn as [-> | ->];
      destruct Hc as [[-> Hc]|[-> Hc]]; lia. }
  unfold gain_of, py_min. rewrite E, Hlt3.
  destruct (f32_of_f64_normal m e Hm ltac:(lia)) as (mC & eC & EC & HmC & HcC).
  exists mC, eC. split; [exact EC|]. split; [exact HmC|].
  assert (HA : maxv * 2 ^ 52 <= maxv * Zpos m)
    by (apply Z.mul_le_mono_nonneg_l; lia).
  assert (HB : maxv * 2 ^ 23 <= maxv * Zpos mC)
    by (apply Z.mul_le_mono_nonneg_l; lia).
  assert (Hmax : 0 < maxv) by lia.
  destruct Hk2 as [-> | ->]; destruct Hn as [-> | ->];
    destruct Hc as [[-> Hc]|[-> Hc]];
    pose proof (scale_bounds maxv _ _ _ Hmax Hc) as Hc';
    destruct HcC as [[-> HcC]|[-> HcC]];
    pose proof (scale_bounds maxv _ _ _ Hmax HcC) as HcC';
    lia.
Qed.

(** Truncation of a finite float below one unit per mantissa step. *)
Lemma trunc_f32_neg_exp (sx : bool) (m : positive) (a : Z) :
  0 < a ->
  trunc_f32 (S754_finite sx m (- a))
  = if sx then - (Zpos m / 2 ^ a) else Zpos m / 2 ^ a.
Proof.
  intros Ha. unfold trunc_f32.
  destruct a as [|p|p]; try lia. cbn [Z.opp].
  rewrite Z.shiftr_div_pow2 by lia. reflexivity.
Qed.

(** One sample through [astype(float32) * gain], [clip] and
    [astype(int16)], for a positive normal gain and away from the clip
    bounds: the magnitude is the exact product, rounded within [2^-23]
    of itself and truncated; the sign is kept. *)
Lemma scale_sample_bounds (gain : spec_float) (mC : positive) (eC s : Z) :
  f32_of_f64 gain = S754_finite false mC eC ->
  2 ^ 23 <= Zpos mC < 2 ^ 24 -> -40 <= eC <= 0 ->
  s <> 0 -> Z.abs s < 2 ^ 15 ->
  Z.abs s * Zpos mC * (2 ^ 23 + 1) < 32767 * 2 ^ 23 * 2 ^ (- eC) ->
  exists v,
    scale_sample gain s = (if s <? 0 then - v else v)
    /\ 0 <= v
    /\ 2 ^ 23 * (v * 2 ^ (- eC)) <= Z.abs s * Zpos mC * (2 ^ 23 + 1)
    /\ Z.abs s * Zpos mC * (2 ^ 23 - 1) < 2 ^ 23 * ((v + 1) * 2 ^ (- eC)).
Proof.
  intros Eg HmC HeC Hs0 Hs15 Hnc.
  set (ds := Z.log2 (Z.abs s) + 1).
  assert (Habs : 0 < Z.abs s) by lia.
  pose proof (Z.log2_spec (Z.abs s) Habs) as Hspec.
  pose proof (Z.log2_nonneg (Z.abs s)) as Hnn.
  assert (Hl15 : Z.log2 (Z.abs s) < 15) by (apply Z.log2_lt_pow2; lia).
  assert (Hds : 2 ^ (ds - 1) <= Z.abs s < 2 ^ ds).
  { unfold ds. replace (Z.log2 (Z.abs s) + 1 - 1) with (Z.log2 (Z.abs s)) by lia.
    replace (Z.log2 (Z.abs s) + 1) with (Z.succ (Z.log2 (Z.abs s))) by lia.
    exact Hspec. }
  assert (Hdr : 1 <= ds <= 15) by (unfold ds; lia). clearbody ds.
  clear Hspec Hnn Hl15.
  destruct (normalize_normal 24 128 s ds) as (ms & Es & Hms & Hbs); try lia.
  unfold scale_sample. rewrite Eg. unfold f32_of_Z at 1. rewrite Es.
  cbn [SFmul]. rewrite xorb_false_r.
  set (sx := s <? 0). clearbody sx. clear Es Eg.
  set (t := 2 ^ (24 - ds)) in *.
  set (c := 2 ^ (- eC)) in *.
  assert (Ht : 0 < t) by (apply Z.pow_pos_nonneg; lia).
  assert (Hc : 0 < c) by (apply Z.pow_pos_nonneg; lia).
  set (Y := Z.abs s * Zpos mC) in *.
  assert (HY : 0 < Y) by (apply Z.mul_pos_pos; lia).
  assert (HP : Zpos (ms * mC) = t * Y)
    by (rewrite Pos2Z.inj_mul, Hms; unfold Y; ring).
  set (e := ds - 24 + eC).
  assert (He : -63 <= e <= -9) by (unfold e; lia).
  assert (HE : 2 ^ (- e) = t * c).
  { unfold t, c, e. rewrite <- Z.pow_add_r by lia. f_equal. lia. }
  assert (HPr : 2 ^ 46 <= Zpos (ms * mC) < 2 ^ 48).
  { rewrite Pos2Z.inj_mul. split.
    - change (2 ^ 46) with (2 ^ 23 * 2 ^ 23). apply Z.mul_le_mono_nonneg; lia.
    - change (2 ^ 48) with (2 ^ 24 * 2 ^ 24). apply Z.mul_lt_mono_nonneg; lia. }
  assert (Hn : exists n, (n = 23 \/ n = 24)
                         /\ 2 ^ (24 + n - 1) <= Zpos (ms * mC) < 2 ^ (24 + n)).
  { destruct (Z.lt_ge_cases (Zpos (ms * mC)) (2 ^ 47)).
    - exists 23. split; [now left|]. cbn. lia.
    - exists 24. split; [now right|]. cbn. lia. }
  destruct Hn as (n & Hn & HPn).
  destruct (round_aux_bounds 24 128 sx (Zpos (ms * mC)) e n loc_Exact)
    as (mR & eR & ER & HmR & HcR); try lia.
  rewrite ER. clear ER.
  (* the scale of the rounded mantissa against the exact product *)
  assert (Hj : exists j, eR = e + j /\ 23 <= j <= 25
                         /\ Zpos (ms * mC) - 2 ^ n < Zpos mR * 2 ^ j
                            <= Zpos (ms * mC) + 2 ^ n).
  { destruct HcR as [[-> HcR]|[-> HcR]].
    - exists n. split; [reflexivity|]. split; [lia|]. exact HcR.
    - exists (n + 1). split; [lia|]. split; [lia|].
      rewrite Z.pow_add_r by lia. change (2 ^ 1) with 2.
      rewrite (Z.mul_comm (2 ^ n) 2). exact HcR. }
  clear HcR. destruct Hj as (j & -> & Hjr & Hj).
  assert (Hu : 2 ^ n * 2 ^ 23 <= Zpos (ms * mC)).
  { rewrite <- Z.pow_add_r by lia.
    replace (n + 23) with (24 + n - 1) by lia. lia. }
  rewrite HP in Hj, Hu. clear HP HPr HPn Hms Hbs.
  assert (H2n : 0 < 2 ^ n) by (apply Z.pow_pos_nonneg; lia).
  assert (H2j : 0 < 2 ^ j) by (apply Z.pow_pos_nonneg; lia).
  set (u := 2 ^ n) in *. set (J := 2 ^ j) in *.
  assert (Pa : 2 ^ 23 * J <= Zpos mR * J)
    by (apply Z.mul_le_mono_nonneg_r; lia).
  assert (Pb : t * (Y * (2 ^ 23 + 1)) < t * (32767 * 2 ^ 23 * c))
    by (apply Z.mul_lt_mono_pos_l; assumption).
  set (a := - (e + j)).
  assert (HJ : 2 ^ 23 * J < 32767 * (t * c)) by lia.
  assert (Ha : 9 <= a).
  { assert (Hlt : 2 ^ (j + 23) < 2 ^ (- e + 15)).
    { rewrite !Z.pow_add_r by lia. rewrite HE. fold J. lia. }
    apply Z.pow_lt_mono_r_iff in Hlt; unfold a; lia. }
  assert (Eaj : 2 ^ a * J = t * c).
  { rewrite <- HE. unfold J. rewrite <- Z.pow_add_r by lia.
    f_equal. unfold a. lia. }
  assert (H2a : 0 < 2 ^ a) by (apply Z.pow_pos_nonneg; lia).
  replace (e + j) with (- a) by (unfold a; lia).
  set (v := Zpos mR / 2 ^ a).
  assert (Hv1 : v * 2 ^ a <= Zpos mR)
    by (unfold v; rewrite Z.mul_comm; apply Z.mul_div_le; lia).
  assert (Hv2 : Zpos mR < (v + 1) * 2 ^ a).
  { unfold v. rewrite Z.mul_comm.
    replace (Zpos mR / 2 ^ a + 1) with (Z.succ (Zpos mR / 2 ^ a)) by lia.
    apply Z.mul_succ_div_gt; lia. }
  assert (Hv0 : 0 <= v) by (unfold v; apply Z.div_pos; lia).
  (* the clip leaves the product alone *)
  assert (Hclip : np_clip (S754_finite sx mR (- a)) (f32_of_Z (-32768))
                    (f32_of_Z 32767) = S754_finite sx mR (- a)).
  { replace (f32_of_Z (-32768)) with (S754_finite true (Z.to_pos (2 ^ 23)) (-8))
      by (vm_compute; reflexivity).
    replace (f32_of_Z 32767)
      with (S754_finite false (Z.to_pos (32767 * 2 ^ 9)) (-9))
      by (vm_compute; reflexivity).
    unfold np_clip. cbn [is_nan orb].
    destruct sx.
    - assert (E1 : SFltb (S754_finite true (Z.to_pos (2 ^ 23)) (-8))
                         (S754_finite true mR (- a)) = true).
      { unfold SFltb, SFcompare.
        replace (-8 ?= - a) with Gt by (symmetry; apply Z.compare_gt_iff; lia).
        reflexivity. }
      rewrite E1. reflexivity.
    - assert (E1 : SFltb (S754_finite true (Z.to_pos (2 ^ 23)) (-8))
                         (S754_finite false mR (- a)) = true) by reflexivity.
      rewrite E1.
      assert (E2 : SFltb (S754_finite false mR (- a))
                         (S754_finite false (Z.to_pos (32767 * 2 ^ 9)) (-9)) = true).
      { rewrite SFltb_finite. apply ltb_by_parts.
        replace (Zpos (Z.to_pos (32767 * 2 ^ 9))) with (32767 * 2 ^ 9)
          by reflexivity.
        destruct (Z.eq_dec a 9) as [E9|N9]; [right | left; lia].
        split; [lia|].
        rewrite E9 in Eaj.
        apply (Z.mul_lt_mono_pos_r J); [exact H2j|]. lia. }
      rewrite E2. reflexivity. }
  rewrite Hclip, trunc_f32_neg_exp by lia. fold v.
  exists v. split; [reflexivity|]. split; [exact Hv0|].
  assert (Pc : v * 2 ^ a * J <= Zpos mR * J)
    by (apply Z.mul_le_mono_nonneg_r; lia).
  assert (Pd : Zpos mR * J < (v + 1) * 2 ^ a * J)
    by (apply Z.mul_lt_mono_pos_r; assumption).
  assert (Ec : forall w, w * 2 ^ a * J = w * (t * c))
    by (intros w; rewrite <- Eaj; ring).
  rewrite Ec in Pc, Pd.
  split.
  - apply (Z.mul_le_mono_pos_l _ _ t Ht). lia.
  - apply (Z.mul_lt_mono_pos_l t _ _ Ht). lia.
Qed.

(** With a finite gain, a zero sample stays zero. *)
Lemma scale_sample_zero (gain : spec_float) (mC : positive) (eC : Z) :
  f32_of_f64 gain = S754_finite false mC eC -> scale_sample gain 0 = 0.
Proof. intros Eg. unfold scale_sample. rewrite Eg. reflexivity. Qed.

(** One sample of a frame whose peak is between 10001 and 29999. *)
Lemma mid_sample (maxv s : Z) :
  10001 <= maxv <= 29999 -> Z.abs s <= maxv ->
  Z.abs s <= Z.abs (scale_sample (gain_of maxv) s) <= 30000
  /\ 0 <= s * scale_sample (gain_of maxv) s
  /\ (Z.abs s = maxv -> 29999 <= Z.abs (scale_sample (gain_of maxv) s)).
Proof.
  intros H Hs.
  destruct (gain_mid maxv H) as (mC & eC & Eg & HmC & Hb).
  destruct (Z.eq_dec s 0) as [->|Hs0].
  - rewrite (scale_sample_zero _ _ _ Eg). cbn. lia.
  - assert (HY : Z.abs s * Zpos mC <= maxv * Zpos mC)
      by (apply Z.mul_le_mono_nonneg_r; lia).
    assert (HM : maxv * Zpos mC <= 29999 * Zpos mC)
      by (apply Z.mul_le_mono_nonneg_r; lia).
    destruct (scale_sample_bounds (gain_of maxv) mC eC s Eg HmC)
      as (v & Ev & Hv0 & Hup & Hlo);
      [destruct Hb as [[-> _]|[-> _]]; lia | exact Hs0 | lia
       | destruct Hb as [[-> Hb]|[-> Hb]]; cbn [Z.opp]; lia |].
    assert (Hge : Z.abs s <= v).
    { assert (Hk : Z.abs s * (2 ^ 23 * 2 ^ (- eC))
                   <= Z.abs s * (Zpos mC * (2 ^ 23 - 1))).
      { apply Z.mul_le_mono_nonneg_l; [lia|].
        destruct Hb as [[-> Hb]|[-> Hb]]; cbn [Z.opp]; lia. }
      assert (Hc : 0 < 2 ^ 23 * 2 ^ (- eC))
        by (destruct Hb as [[-> _]|[-> _]]; cbn [Z.opp]; lia).
      assert (Hlt : Z.abs s * (2 ^ 23 * 2 ^ (- eC))
                    < (v + 1) * (2 ^ 23 * 2 ^ (- eC))) by lia.
      apply Z.mul_lt_mono_pos_r in Hlt; lia. }
    assert (Hle : v <= 30000)
      by (destruct Hb as [[-> Hb]|[-> Hb]]; cbn [Z.opp] in *; lia).
    assert (Hpk : Z.abs s = maxv -> 29999 <= v).
    { intros E. rewrite E in Hlo.
      destruct Hb as [[-> Hb]|[-> Hb]]; cbn [Z.opp] in *; lia. }
    rewrite Ev. destruct (Z.ltb_spec s 0).
    + rewrite Z.abs_opp, (Z.abs_eq v) by lia.
      split; [lia|]. split; [nia | exact Hpk].
    + rewrite (Z.abs_eq v) by lia.
      split; [lia|]. split; [nia | exact Hpk].
Qed.

Lemma peak_abs_le (l : list Z) (b : Z) :
  0 <= b -> Forall (fun s => Z.abs s <= b) l -> peak_abs l <= b.
Proof.
  intros Hb Hall. induction Hall as [|s l Hs _ IH]; simpl; lia.
Qed.

Lemma peak_abs_attained (l : list Z) :
  0 < peak_abs l -> exists s, In s l /\ Z.abs s = peak_abs l.
Proof.
  induction l as [|x l IH]; simpl; intros H; [lia|].
  destruct (Z.max_spec (Z.abs x) (peak_abs l)) as [[Hlt E]|[Hge E]]; rewrite E.
  - destruct IH as (s & Hin & Es); [lia|]. exists s. split; [now right | exact Es].
  - exists x. split; [now left | reflexivity].
Qed.

(** X4.  For every peak NumPy can report, the test [gain > 1.0] succeeds
    exactly when the peak is below 30000, and the gain is never above
    3.0: the floating-point tests agree with the integer reading of the
    code. *)
Theorem X4_gain_applies_below_target_capped (maxv : Z) :
  1 <= maxv <= 32767 ->
  SFltb (f64_of_Z 1) (gain_of maxv) = (maxv <? 30000)
  /\ SFltb (f64_of_Z 3) (gain_of maxv) = false.
Proof.
  intros H. split.
  - destruct (Z.ltb_spec maxv 30000) as [Hlt|Hge].
    + apply gain_applied_below_target. lia.
    + apply gain_not_applied. lia.
  - unfold gain_of, py_min.
    destruct (SFltb (SFdiv 53 1024 (f64_of_Z 30000) (f64_of_Z maxv))
                    (f64_of_Z 3)) eqn:E.
    + apply SFltb_antisym, E.
    + vm_compute. reflexivity.
Qed.

(** X4 at the peak 20000 (gain 1.5). *)
Lemma X4_witness :
  1 <= 20000 <= 32767
  /\ SFltb (f64_of_Z 1) (gain_of 20000) = true.
Proof.
  assert (H : 1 <= 20000 <= 32767) by lia.
  split; [exact H|].
  exact (proj1 (X4_gain_applies_below_target_capped 20000 H)).
Defined.

(** X5.  A frame whose peak magnitude is between 1 and 10000 is tripled
    exactly, sample for sample: the gain is the 3x cap, no product is
    rounded or clipped, and the peak of what is pushed is three times the
    peak received. *)
Theorem X5_quiet_frame_is_tripled (data : list byte) (arr : list Z) :
  frombuffer data = Some arr ->
  1 <= peak_abs arr <= 10000 ->
  frombuffer (normalize data) = Some (map (fun s => 3 * s) arr)
  /\ peak_abs (map (fun s => 3 * s) arr) = 3 * peak_abs arr.
Proof.
  intros Hfb Hpeak.
  split; [|apply peak_abs_scale].
  assert (Hne : arr <> []) by (intros ->; simpl in Hpeak; lia).
  assert (Hsmall : forall s, In s arr -> -10000 <= s <= 10000).
  { intros s Hin. pose proof (peak_abs_bound arr s Hin). lia. }
  assert (Hout : Forall int16 (map (fun s => 3 * s) arr)).
  { apply Forall_forall. intros x Hx. apply in_map_iff in Hx.
    destruct Hx as [s [<- Hin]]. specialize (Hsmall s Hin).
    unfold int16. lia. }
  assert (Hnorm : normalize data = tobytes (map (fun s => 3 * s) arr)).
  { unfold normalize. rewrite Hfb.
    destruct arr as [|x rest]; [congruence|].
    change (0 <? List.length (x :: rest))%nat with true. cbv iota.
    rewrite map_np_abs_regular.
    - rewrite np_max_abs_peak by assumption.
      replace (0 <? peak_abs (x :: rest)) with true
        by (symmetry; apply Z.ltb_lt; lia).
      cbv iota zeta. rewrite (gain_is_cap _ Hpeak).
      replace (SFltb (f64_of_Z 1) (f64_of_Z 3)) with true
        by (vm_compute; reflexivity).
      f_equal. apply map_ext_in. intros s Hin.
      apply scale_by_three, Hsmall, Hin.
    - eapply frombuffer_int16; eassumption.
    - intros Hin. specialize (Hsmall _ Hin). lia. }
  rewrite Hnorm. apply frombuffer_tobytes, Hout.
Qed.

(** X5 on the two samples 100 and -7. *)
Lemma X5_witness :
  frombuffer [Byte.x64; Byte.x00; Byte.xf9; Byte.xff] = Some [100; -7]
  /\ frombuffer (normalize [Byte.x64; Byte.x00; Byte.xf9; Byte.xff])
     = Some [300; -21].
Proof.
  assert (Hfb : frombuffer [Byte.x64; Byte.x00; Byte.xf9; Byte.xff]
                = Some [100; -7]) by (vm_compute; reflexivity).
  assert (Hpk : 1 <= peak_abs [100; -7] <= 10000)
    by (vm_compute; split; discriminate).
  split; [exact Hfb|].
  exact (proj1 (X5_quiet_frame_is_tripled _ _ Hfb Hpk)).
Defined.

(** X21.  A frame whose peak magnitude is above 10000 and below 30000 is
    brought to the target: what is pushed has as many samples, its peak
    is 29999 or 30000, no sample is clipped, flipped in sign or made
    smaller. *)
Theorem X21_mid_peak_reaches_target (data : list byte) (arr : list Z) :
  frombuffer data = Some arr ->
  10000 < peak_abs arr < 30000 ->
  exists out,
    frombuffer (normalize data) = Some out
    /\ 29999 <= peak_abs out <= 30000
    /\ Forall2 (fun s o => Z.abs s <= Z.abs o /\ 0 <= s * o) arr out.
Proof.
  intros Hfb Hpeak.
  remember (peak_abs arr) as maxv eqn:Emax.
  assert (Hmax : 10001 <= maxv <= 29999) by lia.
  assert (Hne : arr <> []) by (intros ->; cbn in Emax; lia).
  assert (Hsmall : forall s, In s arr -> Z.abs s <= maxv)
    by (intros s Hin; rewrite Emax; apply peak_abs_bound, Hin).
  set (out := map (scale_sample (gain_of maxv)) arr).
  assert (Hnorm : normalize data = tobytes out).
  { unfold normalize. rewrite Hfb.
    destruct arr as [|x rest]; [congruence|].
    change (0 <? List.length (x :: rest))%nat with true. cbv iota.
    rewrite map_np_abs_regular.
    - rewrite np_max_abs_peak by assumption. rewrite <- Emax.
      replace (0 <? maxv) with true by (symmetry; apply Z.ltb_lt; lia).
      cbv iota zeta.
      rewrite (gain_applied_below_target maxv) by lia. reflexivity.
    - eapply frombuffer_int16; eassumption.
    - intros Hin. specialize (Hsmall _ Hin).
      change (Z.abs (-32768)) with 32768 in Hsmall. lia. }
  assert (Hall : Forall (fun o => Z.abs o <= 30000) out).
  { apply Forall_forall. intros o Ho. apply in_map_iff in Ho.
    destruct Ho as (s & <- & Hin).
    apply (mid_sample maxv s Hmax (Hsmall s Hin)). }
  exists out. split; [|split].
  - rewrite Hnorm. apply frombuffer_tobytes.
    eapply Forall_impl; [|exact Hall]. intros o Ho. cbv beta in Ho. unfold int16. lia.
  - split; [|apply peak_abs_le; [lia | exact Hall]].
    destruct (peak_abs_attained arr) as (s & Hin & Es); [lia|].
    rewrite <- Emax in Es.
    pose proof (mid_sample maxv s Hmax (Hsmall s Hin)) as (_ & _ & Hpk).
    specialize (Hpk Es).
    etransitivity; [exact Hpk|]. apply peak_abs_bound.
    apply in_map, Hin.
  - unfold out. clear - Hmax Hsmall.
    induction arr as [|x rest IH]; [constructor|].
    cbn [map]. constructor.
    + pose proof (mid_sample maxv x Hmax (Hsmall x (or_introl eq_refl)))
        as (Ha & Hb & _).
      split; [lia | exact Hb].
    + apply IH. intros s Hin. apply Hsmall. now right.
Qed.

(** X21 on the two samples 20000 and -7: they become 30000 and -10. *)
Lemma X21_witness :
  frombuffer [Byte.x20; Byte.x4e; Byte.xf9; Byte.xff] = Some [20000; -7]
  /\ exists out,
       frombuffer (normalize [Byte.x20; Byte.x4e; Byte.xf9; Byte.xff]) = Some out
       /\ 29999 <= peak_abs out <= 30000.
Proof.
  assert (Hfb : frombuffer [Byte.x20; Byte.x4e; Byte.xf9; Byte.xff]
                = Some [20000; -7]) by (vm_compute; reflexivity).
  assert (Hpk : 10000 < peak_abs [20000; -7] < 30000)
    by (vm_compute; split; reflexivity).
  split; [exact Hfb|].
  destruct (X21_mid_peak_reaches_target _ _ Hfb Hpk) as (out & Ho & Hp & _).
  exists out. split; [exact Ho | exact Hp].
Defined.

(** X22.  A frame that is already at the target - peak magnitude 30000 or
    more - and has no sample equal to -32768 is pushed byte for byte. *)
Theorem X22_loud_regular_frame_passes (data : list byte) (arr : list Z) :
  frombuffer data = Some arr ->
  ~ In (-32768) arr ->
  30000 <= peak_abs arr ->
  normalize data = data.
Proof.
  intros Hfb Hreg Hpeak.
  unfold normalize. rewrite Hfb.
  destruct (0 <? List.length arr)%nat; [|reflexivity].
  rewrite map_np_abs_regular;
    [|eapply frombuffer_int16; eassumption | assumption].
  assert (Hne : arr <> []) by (intros ->; simpl in Hpeak; lia).
  rewrite np_max_abs_peak by assumption.
  destruct (0 <? peak_abs arr); [|reflexivity].
  assert (Hall : Forall int16 arr) by (eapply frombuffer_int16; eassumption).
  assert (Hhi : peak_abs arr <= 32767).
  { apply peak_abs_le; [lia|].
    apply Forall_forall. intros s Hin.
    rewrite Forall_forall in Hall. specialize (Hall s Hin). unfold int16 in Hall.
    assert (s <> -32768) by (intros ->; contradiction). lia. }
  rewrite gain_not_applied by lia. reflexivity.
Qed.

(** X22 on the two samples 30000 and -1. *)
Lemma X22_witness :
  frombuffer [Byte.x30; Byte.x75; Byte.xff; Byte.xff] = Some [30000; -1]
  /\ normalize [Byte.x30; Byte.x75; Byte.xff; Byte.xff]
     = [Byte.x30; Byte.x75; Byte.xff; Byte.xff].
Proof.
  assert (Hfb : frombuffer [Byte.x30; Byte.x75; Byte.xff; Byte.xff]
                = Some [30000; -1]) by (vm_compute; reflexivity).
  assert (Hreg : ~ In (-32768) [30000; -1])
    by (intros [H|[H|[]]]; discriminate).
  assert (Hpk : 30000 <= peak_abs [30000; -1])
    by (vm_compute; discriminate).
  split; [exact Hfb|].
  exact (X22_loud_regular_frame_passes _ _ Hfb Hreg Hpk).
Defined.

End GainFacts.

(** ** The peak the code computes *)

Section PeakFacts.
Import Audio.

Lemma fold_left_max_floor (l : list Z) (a : Z) :
  -32768 <= a ->
  fold_left Z.max l a = Z.max a (fold_right Z.max (-32768) l).
Proof.
  revert a. induction l as [|y l IH]; intros a Ha; cbn [fold_left fold_right].
  - lia.
  - rewrite IH by lia. lia.
Qed.

Lemma computed_peak (arr : list Z) :
  Forall int16 arr ->
  fold_right Z.max (-32768) (map np_abs arr)
  = if existsb (fun s => negb (s =? -32768)) arr
    then peak_abs (filter (fun s => negb (s =? -32768)) arr)
    else -32768.
Proof.
  intros Hall. induction Hall as [|x rest Hx _ IH]; [reflexivity|].
  cbn [map fold_right existsb filter]. rewrite IH.
  destruct (Z.eqb_spec x (-32768)) as [->|Hne]; cbn [negb orb].
  - rewrite np_abs_min.
    destruct (existsb _ rest); [|reflexivity].
    pose proof (peak_abs_nonneg (filter (fun s => negb (s =? -32768)) rest)).
    lia.
  - rewrite (np_abs_regular x Hx Hne).
    destruct (existsb _ rest) eqn:Ex; [reflexivity|].
    assert (Hnil : filter (fun s => negb (s =? -32768)) rest = []).
    { clear - Ex. induction rest as [|y rest IH]; [reflexivity|].
      cbn [existsb] in Ex. apply orb_false_iff in Ex. destruct Ex as [Ey Er].
      cbn [filter]. rewrite Ey. now apply IH. }
    rewrite Hnil. cbn [peak_abs fold_right]. lia.
Qed.

(** X23.  The peak the code computes, [np.max(np.abs(arr))], leaves the
    samples equal to -32768 out: [np.abs] wraps them back to -32768, so
    the gain is chosen from the peak magnitude of the other samples. *)
Theorem X23_computed_peak_skips_full_scale (arr : list Z) (s : Z) :
  Forall int16 arr -> In s arr -> s <> -32768 ->
  np_max (map np_abs arr)
  = peak_abs (filter (fun x => negb (x =? -32768)) arr).
Proof.
  intros Hall Hin Hs.
  assert (Hex : existsb (fun x => negb (x =? -32768)) arr = true).
  { apply existsb_exists. exists s. split; [exact Hin|].
    apply negb_true_iff, Z.eqb_neq, Hs. }
  pose proof (computed_peak arr Hall) as Hc. rewrite Hex in Hc.
  rewrite <- Hc.
  destruct arr as [|x rest]; [destruct Hin|].
  cbn [map np_max fold_right].
  apply fold_left_max_floor.
  inversion Hall as [|? ? Hx _]; subst.
  pose proof (wrap16_int16 (Z.abs x)) as Hw. unfold int16 in Hw.
  unfold np_abs. lia.
Qed.

(** X23 on the two samples -32768 and 100: the computed peak is 100. *)
Lemma X23_witness :
  np_max (map np_abs [-32768; 100]) = 100.
Proof.
  assert (Hall : Forall int16 [-32768; 100])
    by (repeat constructor; unfold int16; lia).
  assert (Hin : In 100 [-32768; 100]) by (right; left; reflexivity).
  assert (Hs : 100 <> -32768) by discriminate.
  exact (X23_computed_peak_skips_full_scale [-32768; 100] 100 Hall Hin Hs).
Defined.

End PeakFacts.

(** ** Credentials *)

Section CredentialFacts.
Import Json Str Server Http Wire.
Local Open Scope string_scope.
Local Open Scope list_scope.

Lemma opt_neq_false (a b : option string) : opt_neq a b = false <-> a = b.
Proof.
  destruct a as [x|], b as [y|]; simpl; split; intros H;
    try reflexivity; try discriminate.
  - destruct (String.eqb_spec x y); [now subst | discriminate].
  - inversion H; subst. now rewrite String.eqb_refl.
Qed.

Lemma truthy_true (o : option string) :
  truthy o = true <-> exists k, k <> EmptyString /\ o = Some k.
Proof.
  destruct o as [s|]; simpl; split.
  - intros H. exists s. split; [|reflexivity].
    intros ->. discriminate.
  - intros [k [Hk Hs]]. inversion Hs; subst.
    destruct (String.eqb_spec k EmptyString); [contradiction | reflexivity].
  - discriminate.
  - intros [k [_ H]]. discriminate.
Qed.

(** X6.  A credential is accepted exactly when a non-empty key is
    configured and the credential is that key; the websocket handler and
    [require_api_key] of the HTTP endpoints accept the same credentials. *)
Theorem X6_accepted_credentials (cfg : config) (key : option string) :
  (unauthorized cfg key = false
   <-> exists k, k <> EmptyString /\ API_KEY cfg = Some k /\ key = Some k)
  /\ (require_api_key cfg key = Ok tt <-> unauthorized cfg key = false).
Proof.
  split.
  - unfold unauthorized. rewrite orb_false_iff, negb_false_iff.
    rewrite truthy_true, opt_neq_false. split.
    + intros [[k [Hk Hcfg]] Heq]. exists k. repeat split; congruence.
    + intros [k [Hk [Hcfg Hkey]]]. split; [exists k; now split | congruence].
  - unfold require_api_key, unauthorized.
    destruct (negb (truthy (API_KEY cfg)) || opt_neq key (API_KEY cfg));
      split; intros H; try reflexivity; discriminate.
Qed.

Lemma assoc_get_set_same (d : list (string * string)) (k v : string) :
  assoc_get (assoc_set d k v) k = Some v.
Proof.
  induction d as [|[k' v'] d IH]; simpl.
  - now rewrite String.eqb_refl.
  - destruct (String.eqb k k') eqn:E; simpl; rewrite E; [reflexivity | exact IH].
Qed.

Lemma assoc_get_set_other (d : list (string * string)) (k k0 v : string) :
  String.eqb k k0 = false ->
  assoc_get (assoc_set d k v) k0 = assoc_get d k0.
Proof.
  intros Hne. induction d as [|[k' v'] d IH]; simpl.
  - rewrite String.eqb_sym, Hne. reflexivity.
  - destruct (String.eqb k k') eqn:E; simpl.
    + apply String.eqb_eq in E. subst k'.
      rewrite String.eqb_sym, Hne. reflexivity.
    + destruct (String.eqb k0 k'); [reflexivity | exact IH].
Qed.

Lemma headers_fold_get (items : list (string * string)) (name : string) :
  forall acc,
    assoc_get (fold_left (fun acc kv => assoc_set acc (lower (fst kv)) (snd kv))
                         items acc) name
    = match last_header items name with
      | Some v => Some v
      | None => assoc_get acc name
      end.
Proof.
  induction items as [|[k v] items IH]; intros acc; [reflexivity|].
  cbn [fold_left last_header fst snd]. rewrite IH.
  destruct (last_header items name) as [v'|]; [reflexivity|].
  destruct (String.eqb (lower k) name) eqn:E.
  - apply String.eqb_eq in E. subst name. apply assoc_get_set_same.
  - apply assoc_get_set_other, E.
Qed.

(** X7.  The credential of a connection is the value of the last header
    named [x-api-key], whatever the case of its name, unless there is no
    such header or its value is empty: then it is the [api_key] query
    parameter. *)
Theorem X7_credential_source (req : request) :
  x_api_key req
  = py_or (last_header (headers req) "x-api-key") (query_get req "api_key").
Proof.
  unfold x_api_key, headers_dict. rewrite headers_fold_get.
  destruct (last_header (headers req) "x-api-key"); reflexivity.
Qed.

End CredentialFacts.

(** X6 on a server whose key is [secret]. *)
Lemma X6_witness :
  let cfg := {| Server.API_KEY := Some "secret"%string;
                Server.SPEECH_KEY := None; Server.SPEECH_REGION := None |} in
  Server.unauthorized cfg (Some "secret"%string) = false
  /\ Http.require_api_key cfg (Some "secret"%string) = Http.Ok tt.
Proof.
  cbv zeta.
  assert (H : Server.unauthorized
                {| Server.API_KEY := Some "secret"%string;
                   Server.SPEECH_KEY := None; Server.SPEECH_REGION := None |}
                (Some "secret"%string) = false) by reflexivity.
  split; [exact H|].
  exact (proj2 (proj2 (X6_accepted_credentials _ _)) H).
Defined.

(** ** The handles of a connection *)

Section HandleFacts.
Import Json Str Server Wire.
Local Open Scope string_scope.
Local Open Scope list_scope.

Variable json_loads : string -> option json.
Variable norm : bool.

Local Abbreviation on_engine := (Server.on_engine json_loads).
Local Abbreviation step := (Server.step json_loads norm).
Local Abbreviation run := (Server.run json_loads norm).

Lemma after_none (p : action -> bool) (tr : list action) :
  existsb p tr = false -> after p tr = [].
Proof.
  induction tr as [|a tr IH]; [reflexivity|].
  simpl. destruct (p a); [discriminate | exact IH].
Qed.

Lemma after_app_none (p : action -> bool) (t1 t2 : list action) :
  existsb p t1 = false -> after p (t1 ++ t2) = after p t2.
Proof.
  induction t1 as [|a t1 IH]; [reflexivity|].
  simpl. destruct (p a); [discriminate | exact IH].
Qed.

(** Appending actions that [q] accepts, none of them a [p], keeps what
    follows the first [p] accepted by [q]. *)
Lemma after_app_quiet (p q : action -> bool) (t1 t2 : list action) :
  forallb q (after p t1) = true ->
  forallb q t2 = true ->
  existsb p t2 = false ->
  forallb q (after p (t1 ++ t2)) = true.
Proof.
  intros H1 H2 H3. induction t1 as [|a t1 IH].
  - simpl. now rewrite (after_none p t2 H3).
  - simpl in *. destruct (p a).
    + rewrite forallb_app, H1, H2. reflexivity.
    + apply IH, H1.
Qed.

Lemma on_pump_cases (st : state) (c : evclass) :
  on_pump st c = st
  \/ exists m, trace (on_pump st c) = trace st ++ [WsSendJson (Task c) m]
               /\ ph (on_pump st c) = ph st.
Proof.
  destruct (pending c st) as [|m rest] eqn:E.
  - left. unfold on_pump. now rewrite E.
  - right. exists m. unfold on_pump. rewrite E. split; reflexivity.
Qed.

Lemma on_pump_raises_cases (st : state) (c : evclass) :
  on_pump_raises st c = st
  \/ exists m, trace (on_pump_raises st c) = trace st ++ [WsSendJson (Task c) m]
               /\ ph (on_pump_raises st c) = ph st.
Proof.
  destruct (pending c st) as [|m rest] eqn:E.
  - left. unfold on_pump_raises. now rewrite E.
  - right. exists m. unfold on_pump_raises. rewrite E. split; reflexivity.
Qed.

Lemma on_pump_ended (st : state) (c : evclass) :
  ended (on_pump st c) = ended st.
Proof. unfold on_pump. destruct (pending c st); reflexivity. Qed.

Lemma on_engine_ended (st : state) (e : engine_event) :
  ended (on_engine st e) = ended st.
Proof.
  destruct e as [t|t r raw|r d| | ]; simpl; try reflexivity.
  - unfold handle_recognized. destruct (truthy raw); [|reflexivity].
    destruct (json_loads _); reflexivity.
  - unfold handle_canceled. destruct (is_Error r); reflexivity.
Qed.

(** A message written to the socket leaves the handles tidy. *)
Lemma tidy_send (st st' : state) (t : writer) (m : dict) :
  tidy st ->
  trace st' = trace st ++ [WsSendJson t m] ->
  ph st' = ph st ->
  tidy st'.
Proof.
  unfold tidy. intros H Ht Hp. rewrite Hp, Ht. destruct (ph st).
  - destruct H as [H1 H2]. rewrite !existsb_app, H1, H2. split; reflexivity.
  - destruct H as [H1 H2]. split.
    + apply after_app_quiet; [exact H1 | reflexivity | reflexivity].
    + rewrite existsb_app, H2. reflexivity.
  - destruct H as [H1 H2].
    split; (apply after_app_quiet; [assumption | reflexivity | reflexivity]).
Qed.

Lemma step_tidy (st : state) (i : sched) : tidy st -> tidy (step st i).
Proof.
  intros H. destruct i as [e|c|c|m|o]; unfold Server.step.
  - unfold tidy. rewrite (on_engine_trace json_loads), (on_engine_ph json_loads).
    exact H.
  - destruct (pumping c st); [|exact H].
    destruct (on_pump_cases st c) as [-> | [m [Ht Hp]]]; [exact H|].
    exact (tidy_send st _ _ m H Ht Hp).
  - destruct (pumping c st); [|exact H].
    destruct (on_pump_raises_cases st c) as [-> | [m [Ht Hp]]]; [exact H|].
    exact (tidy_send st _ _ m H Ht Hp).
  - destruct (ph st) eqn:Hph; try exact H.
    unfold on_receive.
    destruct (String.eqb (msg_kind m) "websocket.disconnect").
    + unfold tidy in *. rewrite Hph in H. destruct H as [H1 H2].
      cbn [set_phase emit trace ph]. split.
      * rewrite (after_app_none _ _ _ H1). reflexivity.
      * rewrite existsb_app, H2. reflexivity.
    + destruct (String.eqb (msg_kind m) "websocket.receive"); cbn [andb];
        [|exact H].
      destruct (is_stop json_loads m).
      * apply (tidy_send st _ Main stop_ack H); reflexivity.
      * destruct (bytes_truthy (msg_bytes m)); [|exact H].
        unfold tidy in *. cbn [emit trace ph]. rewrite Hph in *.
        destruct H as [H1 H2]. rewrite !existsb_app, H1, H2.
        split; reflexivity.
  - destruct (ph st) eqn:Hph; try exact H.
    unfold tidy in *. rewrite Hph in H. destruct H as [H1 H2].
    rewrite teardown_ph, teardown_trace. split.
    + apply after_app_quiet; [exact H1 | |]; destruct o as [| |e []]; reflexivity.
    + rewrite (after_app_none _ _ _ H2). destruct o as [| |e []]; reflexivity.
Qed.

Lemma run_tidy (schedule : list sched) :
  forall st, tidy st -> tidy (run st schedule).
Proof.
  induction schedule as [|i schedule IH]; intros st H; [exact H|].
  apply (IH (step st i)), step_tidy, H.
Qed.

Lemma step_calm (st : state) (i : sched) :
  tidy st -> calm st -> returns i = true -> calm (step st i).
Proof.
  intros Ht H Hr. destruct i as [e|c|c|m|o]; unfold Server.step.
  - unfold calm in *. rewrite (on_engine_trace json_loads), (on_engine_ph json_loads).
    destruct (ph st).
    + rewrite on_engine_ended. exact H.
    + rewrite on_engine_ended. exact H.
    + destruct H as [H1 H2]. split; [exact H1|].
      intros c. rewrite (pumping_on_engine json_loads). apply H2.
  - destruct (pumping c st) eqn:Hp; [|exact H].
    unfold calm in *. rewrite on_pump_ph.
    destruct (ph st).
    + rewrite on_pump_ended. exact H.
    + rewrite on_pump_ended. exact H.
    + destruct H as [_ H]. rewrite H in Hp. discriminate Hp.
  - discriminate Hr.
  - destruct (ph st) eqn:Hph; try exact H.
    unfold calm in H. rewrite Hph in H.
    unfold on_receive.
    destruct (String.eqb (msg_kind m) "websocket.disconnect"); [exact H|].
    destruct (String.eqb (msg_kind m) "websocket.receive"); cbn [andb];
      [|unfold calm; rewrite Hph; exact H].
    destruct (is_stop json_loads m); [unfold calm; cbn; rewrite Hph; exact H|].
    destruct (bytes_truthy (msg_bytes m));
      unfold calm; cbn; rewrite Hph; exact H.
  - destruct (ph st) eqn:Hph; try exact H.
    destruct o as [| |e ok]; try discriminate Hr.
    unfold calm in H. unfold tidy in Ht. rewrite Hph in H, Ht.
    destruct Ht as [_ Hc].
    unfold calm. rewrite teardown_ph, teardown_trace. split.
    + rewrite (after_app_none _ _ _ Hc). reflexivity.
    + intros c. unfold teardown, cancel_pump, pumping. rewrite H.
      destruct c; reflexivity.
Qed.

Lemma run_calm (schedule : list sched) :
  forall st, tidy st -> calm st -> forallb returns schedule = true ->
    calm (run st schedule).
Proof.
  induction schedule as [|i schedule IH]; intros st Ht H Hr; [exact H|].
  simpl in Hr. apply andb_prop in Hr. destruct Hr as [Hi Hr].
  apply (IH (step st i)); [apply step_tidy, Ht | apply step_calm; assumption | exact Hr].
Qed.

(** What a tidy trace says of the two handles. *)
Lemma tidy_reads (st : state) :
  tidy st ->
  forallb no_sink_call (after is_sink_close (trace st)) = true
  /\ forallb is_socket_call (after is_ws_close (trace st)) = true
  /\ (calm st -> after is_ws_close (trace st) = []).
Proof.
  unfold tidy, calm. destruct (ph st).
  - intros [H1 H2]. rewrite (after_none _ _ H1), (after_none _ _ H2).
    repeat split.
  - intros [H1 H2]. rewrite (after_none _ _ H2). repeat split. exact H1.
  - intros [H1 H2]. split; [exact H1|]. split; [exact H2|].
    intros [H3 _]. exact H3.
Qed.

Lemma early_ph (early : list engine_event) :
  forall st, ph (fold_left on_engine early st) = ph st
             /\ trace (fold_left on_engine early st) = trace st
             /\ ended (fold_left on_engine early st) = ended st.
Proof.
  induction early as [|e early IH]; intros st; [now repeat split|].
  simpl. destruct (IH (on_engine st e)) as [H1 [H2 H3]].
  rewrite H1, H2, H3. split; [apply on_engine_ph|].
  split; [apply on_engine_trace | apply on_engine_ended].
Qed.

End HandleFacts.

Section HandleTheorem.
Import Json Str Server Wire.
Local Open Scope string_scope.
Local Open Scope list_scope.

(** X8.  On every connection - refused, failed at startup or served -
    and along every schedule: once [push_stream.close()] has been called
    the sink is neither written to nor closed again; what the handler
    and its tasks do after the first [ws.close()] are calls on the socket
    only - the error message and the second [ws.close()] of the [except]
    branch when the first raised, and what fan-in tasks left running by
    a raising [send_json] still write; and when every socket call of the
    schedule returns, [ws.close()] is the last call of all. *)
Theorem X8_handles_after_close (json_loads : string -> option json)
    (cfg : config) (req : request) (sdk_failure : option sdk_error)
    (early : list engine_event) (schedule : list sched) :
  let tr := stt_stream json_loads cfg req sdk_failure early schedule in
  forallb no_sink_call (after is_sink_close tr) = true
  /\ forallb is_socket_call (after is_ws_close tr) = true
  /\ (forallb returns schedule = true -> after is_ws_close tr = []).
Proof.
  cbv zeta. unfold stt_stream.
  destruct (unauthorized cfg (x_api_key req)); [now repeat split|].
  destruct sdk_failure as [[[|] e]|];
    destruct (make_speech_config cfg); try (now repeat split).
  destruct (early_ph json_loads early empty_state) as [H1 [H2 H3]].
  set (st0 := fold_left (Server.on_engine json_loads) early empty_state) in *.
  set (st1 := emit st0 [WsAccept; StartRecognition; WsSendJson Main ready]).
  assert (Ht : tidy st1).
  { unfold tidy, st1. cbn [emit trace ph]. rewrite H1, H2. now split. }
  assert (Hc : calm st1).
  { unfold calm, st1. cbn [emit trace ph ended]. rewrite H1, H3. reflexivity. }
  destruct (tidy_reads _ (run_tidy json_loads (normalize_flag req) schedule st1 Ht))
    as [R1 [R2 R3]].
  split; [exact R1|]. split; [exact R2|].
  intros Hr. apply R3, run_calm; assumption.
Qed.

End HandleTheorem.

(** ** The audio path and the queues *)

Section RouterFacts.
Import Json Str Server Wire.
Local Open Scope string_scope.
Local Open Scope list_scope.

Variable json_loads : string -> option json.
Variable norm : bool.

Local Abbreviation on_engine := (Server.on_engine json_loads).
Local Abbreviation step := (Server.step json_loads norm).
Local Abbreviation run := (Server.run json_loads norm).
Local Abbreviation routed := (Server.routed json_loads).

Lemma sink_writes_app (t1 t2 : list action) :
  sink_writes (t1 ++ t2) = sink_writes t1 ++ sink_writes t2.
Proof.
  induction t1 as [|a t1 IH]; [reflexivity|].
  destruct a; simpl; try exact IH. now rewrite IH.
Qed.

Lemma on_pump_sink (st : state) (c : evclass) :
  sink_writes (trace (on_pump st c)) = sink_writes (trace st)
  /\ ph (on_pump st c) = ph st.
Proof.
  destruct (on_pump_cases st c) as [-> | [m [Ht Hp]]]; [now split|].
  rewrite Ht, Hp, sink_writes_app. simpl. now rewrite app_nil_r.
Qed.

Lemma on_pump_raises_sink (st : state) (c : evclass) :
  sink_writes (trace (on_pump_raises st c)) = sink_writes (trace st)
  /\ ph (on_pump_raises st c) = ph st.
Proof.
  destruct (on_pump_raises_cases st c) as [-> | [m [Ht Hp]]]; [now split|].
  rewrite Ht, Hp, sink_writes_app. simpl. now rewrite app_nil_r.
Qed.

(** A step of the engine or of a fan-in task writes nothing to the sink
    and leaves the phase. *)
Lemma step_aside_sink (st : state) (i : sched) :
  match i with Recv _ | StopReturned _ => False | _ => True end ->
  sink_writes (trace (step st i)) = sink_writes (trace st)
  /\ ph (step st i) = ph st.
Proof.
  destruct i as [e|c|c|m|o]; intros Hi; try contradiction; unfold Server.step.
  - now rewrite (on_engine_trace json_loads), (on_engine_ph json_loads).
  - destruct (pumping c st); [apply on_pump_sink | now split].
  - destruct (pumping c st); [apply on_pump_raises_sink | now split].
Qed.

(** Outside the receive loop nothing is written to the sink. *)
Lemma run_sink_not_running (schedule : list sched) :
  forall st, ph st <> Running ->
    sink_writes (trace (run st schedule)) = sink_writes (trace st).
Proof.
  induction schedule as [|i schedule IH]; intros st Hph; [reflexivity|].
  change (run st (i :: schedule)) with (run (step st i) schedule).
  assert (Hstep : sink_writes (trace (step st i)) = sink_writes (trace st)
                  /\ ph (step st i) <> Running).
  { destruct i as [e|c|c|m|o];
      try (match goal with
           | |- context [Server.step _ _ st ?i] =>
               destruct (step_aside_sink st i I) as [Hs Hp]
           end; rewrite Hs, Hp; split; [reflexivity | exact Hph]);
      unfold Server.step.
    - destruct (ph st) eqn:E; try congruence; rewrite ?E;
        (split; [reflexivity | discriminate]).
    - destruct (ph st) eqn:E; try congruence.
      + rewrite teardown_trace, teardown_ph, sink_writes_app.
        split; [|discriminate].
        destruct o as [| |e []]; simpl; now rewrite app_nil_r.
      + rewrite ?E. split; [reflexivity | discriminate]. }
  destruct Hstep as [Hs Hp]. rewrite (IH _ Hp). exact Hs.
Qed.

(** X9.  From the receive loop on, what is written to the engine's sink
    is the audio received before the disconnect - every non-empty binary
    payload, once, in the order of arrival, normalised when the flag is
    set - whatever the engine fires and the fan-in tasks write in
    between. *)
Theorem X9_sink_gets_the_received_audio (schedule : list sched) :
  forall st, ph st = Running ->
    sink_writes (trace (run st schedule))
    = sink_writes (trace st)
      ++ map (fun data => if norm then Audio.normalize data else data)
             (received_audio json_loads schedule).
Proof.
  induction schedule as [|i schedule IH]; intros st Hph.
  - simpl. now rewrite app_nil_r.
  - change (run st (i :: schedule)) with (run (step st i) schedule).
    destruct i as [e|c|c|m|o]; cbn [received_audio];
      try (match goal with
           | |- context [Server.step _ _ st ?i] =>
               destruct (step_aside_sink st i I) as [Hw Hp]
           end; rewrite IH by (rewrite Hp; exact Hph); now rewrite Hw).
    + assert (Hs : step st (Recv m) = on_receive json_loads norm st m)
        by (unfold Server.step; rewrite Hph; reflexivity).
      rewrite Hs. unfold on_receive, audio_of.
      destruct (String.eqb (msg_kind m) "websocket.disconnect").
      * rewrite run_sink_not_running by (cbn; discriminate).
        cbn [set_phase emit trace]. rewrite sink_writes_app. reflexivity.
      * destruct (String.eqb (msg_kind m) "websocket.receive"); cbn [andb negb].
        -- destruct (is_stop json_loads m); cbn [negb].
           ++ rewrite IH by exact Hph. cbn [emit trace].
              rewrite sink_writes_app. simpl. now rewrite app_nil_r.
           ++ destruct (bytes_truthy (msg_bytes m)) as [data|].
              ** rewrite IH by exact Hph. cbn [emit trace map].
                 rewrite sink_writes_app. simpl. now rewrite <- app_assoc.
              ** apply IH, Hph.
        -- apply IH, Hph.
    + assert (Hs : step st (StopReturned o) = st)
        by (unfold Server.step; rewrite Hph; reflexivity).
      rewrite Hs. apply IH, Hph.
Qed.

(** X10.  A recognized event whose JSON result does not parse is dropped
    by its callback: the connection goes on exactly as if the engine had
    not fired it. *)
Theorem X10_unparsable_result_is_dropped (st : state) (text reason raw : string)
    (before after : list sched) :
  raw <> EmptyString ->
  json_loads raw = None ->
  run st (before ++ Engine (Recognized text reason (Some raw)) :: after)
  = run st (before ++ after).
Proof.
  intros Hne Hnone. unfold Server.run. rewrite !fold_left_app.
  cbn [fold_left].
  set (s := fold_left (Server.step json_loads norm) before st).
  assert (Hs : step s (Engine (Recognized text reason (Some raw))) = s).
  { replace (step s (Engine (Recognized text reason (Some raw))))
      with (on_engine s (Recognized text reason (Some raw)))
      by reflexivity.
    cbn [Server.on_engine]. unfold handle_recognized. simpl truthy.
    destruct (String.eqb_spec raw EmptyString); [contradiction|].
    cbn [negb]. now rewrite Hnone. }
  now rewrite Hs.
Qed.

(** X11.  From any state in which the fan-in task of a class is still
    running, [k] turns of it write the first [k] messages of its queue,
    in order, leave the rest queued, and leave the queues of the other
    classes as they were; turns on an empty queue do nothing. *)
Theorem X11_task_turns (c : evclass) (k : nat) :
  forall st, pumping c st = true ->
    trace (run st (repeat (Pump c) k))
    = trace st ++ map (WsSendJson (Task c)) (firstn k (pending c st))
    /\ pending c (run st (repeat (Pump c) k)) = skipn k (pending c st)
    /\ (forall c', c' <> c ->
          pending c' (run st (repeat (Pump c) k)) = pending c' st).
Proof.
  induction k as [|k IH]; intros st Hph.
  - simpl. rewrite app_nil_r. repeat split.
  - change (run st (repeat (Pump c) (S k)))
      with (run (step st (Pump c)) (repeat (Pump c) k)).
    rewrite (step_pump_alive json_loads norm st c Hph).
    destruct (pending c st) as [|m rest] eqn:E.
    + rewrite (on_pump_blocked c st E).
      destruct (IH st Hph) as [H1 [H2 H3]]. rewrite E in H1, H2.
      rewrite firstn_nil in *. rewrite skipn_nil in H2.
      split; [exact H1|]. split; [exact H2 | exact H3].
    + destruct (on_pump_head c st m rest E) as [Ht [Hp Hph']].
      destruct (IH (on_pump st c)) as [H1 [H2 H3]];
        [rewrite pumping_on_pump; exact Hph|].
      rewrite Ht, Hp in H1. rewrite Hp in H2.
      split; [rewrite H1, <- app_assoc; reflexivity|].
      split; [exact H2|].
      intros c' Hc'. rewrite (H3 c' Hc').
      apply on_pump_other. congruence.
Qed.

(** X12.  The message written for a recognized event has the fields
    [type], [text], [reason] and, when the engine gave a JSON result,
    [raw], in this order; its type is [final] unless the reason string is
    that of a cancellation error.  No other queue receives anything for
    the event. *)
Theorem X12_recognized_message (text reason : string) (raw : option string) :
  let kind := if String.eqb reason "CancellationReason.Error"
              then "error" else "final" in
  let head := [("type", JStr kind); ("text", JStr text); ("reason", JStr reason)] in
  routed CRecognized (Recognized text reason raw)
  = (if truthy raw
     then match json_loads (match raw with Some r => r | None => EmptyString end) with
          | Some v => [head ++ [("raw", v)]]
          | None => []
          end
     else [head])
  /\ routed CRecognizing (Recognized text reason raw) = []
  /\ routed CCanceled (Recognized text reason raw) = []
  /\ routed CSessionStarted (Recognized text reason raw) = []
  /\ routed CSessionStopped (Recognized text reason raw) = [].
Proof.
  cbv zeta. unfold Server.routed. cbn [Server.on_engine].
  unfold handle_recognized.
  destruct (truthy raw); [destruct (json_loads _) as [v|]|];
    (split; [|repeat split]);
    cbn; unfold msg_recognized; cbn;
    destruct (String.eqb reason "CancellationReason.Error"); reflexivity.
Qed.

End RouterFacts.

Section RouterExamples.
Import Json Str Server Wire.
Local Open Scope string_scope.
Local Open Scope list_scope.

(** X9 on a fresh connection: two bytes of audio, the stop text, two more
    bytes, the disconnect, and audio that comes too late. *)
Lemma X9_witness :
  let audio b := {| msg_kind := "websocket.receive"; msg_text := None;
                    msg_bytes := Some (Some [b; Byte.x00]) |} in
  let stop := {| msg_kind := "websocket.receive";
                 msg_text := Some (Some stop_text); msg_bytes := None |} in
  let bye := {| msg_kind := "websocket.disconnect"; msg_text := None;
                msg_bytes := None |} in
  ph empty_state = Running
  /\ sink_writes
       (trace (run loads_stop_only false empty_state
                   [Recv (audio Byte.x01); Recv stop; Pump CRecognizing;
                    Recv (audio Byte.x02); Recv bye; Recv (audio Byte.x03)]))
     = [[Byte.x01; Byte.x00]; [Byte.x02; Byte.x00]].
Proof.
  cbv zeta.
  assert (H : ph empty_state = Running) by reflexivity.
  split; [exact H|].
  exact (X9_sink_gets_the_received_audio loads_stop_only false _ empty_state H).
Defined.

(** X10 with a result that [loads_stop_only] rejects. *)
Lemma X10_witness :
  "oops" <> EmptyString
  /\ run loads_stop_only false empty_state
         ([] ++ Engine (Recognized "hi" "ResultReason.RecognizedSpeech" (Some "oops"))
             :: [Pump CRecognized])
     = run loads_stop_only false empty_state ([] ++ [Pump CRecognized]).
Proof.
  assert (H1 : "oops" <> EmptyString) by discriminate.
  assert (H2 : loads_stop_only "oops" = None) by reflexivity.
  split; [exact H1|].
  exact (X10_unparsable_result_is_dropped loads_stop_only false empty_state
           "hi" "ResultReason.RecognizedSpeech" "oops" [] [Pump CRecognized] H1 H2).
Defined.

(** X11 after two partial results, one turn of their task. *)
Lemma X11_witness :
  let st := run loads_stop_only false empty_state
                [Engine (Recognizing "a"); Engine (Recognizing "ab")] in
  pumping CRecognizing st = true
  /\ trace (run loads_stop_only false st (repeat (Pump CRecognizing) 1))
     = [WsSendJson (Task CRecognizing) [("type", JStr "partial"); ("text", JStr "a")]].
Proof.
  cbv zeta.
  assert (H : pumping CRecognizing
                (run loads_stop_only false empty_state
                     [Engine (Recognizing "a"); Engine (Recognizing "ab")])
              = true) by reflexivity.
  split; [exact H|].
  exact (proj1 (X11_task_turns loads_stop_only false CRecognizing 1 _ H)).
Defined.

(** X8 on a served connection whose calls all return: audio, the
    disconnect, the end of the handler, and a turn of a cancelled task. *)
Lemma X8_witness :
  let cfg := {| API_KEY := Some "secret"; SPEECH_KEY := Some "k";
                SPEECH_REGION := Some "r" |} in
  let req := {| headers := [("X-Api-Key", "secret")];
                query_get := fun _ => None |} in
  let audio := {| msg_kind := "websocket.receive"; msg_text := None;
                  msg_bytes := Some (Some [Byte.x01; Byte.x00]) |} in
  let bye := {| msg_kind := "websocket.disconnect"; msg_text := None;
                msg_bytes := None |} in
  let schedule := [Recv audio; Engine (Recognizing "a"); Recv bye;
                   StopReturned CloseReturns; Pump CRecognizing] in
  forallb returns schedule = true
  /\ stt_stream loads_stop_only cfg req None [] schedule
     = [WsAccept; StartRecognition; WsSendJson Main ready;
        SinkWrite [Byte.x01; Byte.x00]; SinkClose; StopRecognition;
        PumpCancel; WsClose 1000]
  /\ after is_ws_close (stt_stream loads_stop_only cfg req None [] schedule) = [].
Proof.
  cbv zeta.
  split; [reflexivity|]. split; [reflexivity|].
  refine (proj2 (proj2 (X8_handles_after_close loads_stop_only _ _ None [] _)) _).
  reflexivity.
Defined.

End RouterExamples.

(** ** The client: queue, sender, sentinel *)

Section SenderFacts.
Import Client Sender.
Local Open Scope nat_scope.
Local Open Scope list_scope.

Variable DetState : Type.
Variable porcupine_process : DetState -> list byte -> DetState * option Z.
Variable frame_len : nat.

Local Abbreviation gate := (Client.gate DetState).
Local Abbreviation on_frame := (Client.on_frame porcupine_process).
Local Abbreviation frames_loop := (Client.frames_loop porcupine_process frame_len).
Local Abbreviation step := (Client.step porcupine_process frame_len).
Local Abbreviation run := (Client.run porcupine_process frame_len).

(** X13.  The send queue never holds more than 20 frames: a frame that
    finds it full is dropped, not queued. *)
Theorem X13_send_queue_is_bounded (d : DetState) (inputs : list input) (g' : gate) :
  run (init d) inputs = Some g' ->
  List.length (send_q g') <= 20.
Proof.
  apply (run_inv DetState porcupine_process frame_len
           (fun g => List.length (send_q g) <= 20)).
  - intros g f Hg. unfold Client.on_frame. destruct (state g).
    + destruct (porcupine_process (detector g) f) as [det' r].
      destruct (0 <=? _)%Z; exact Hg.
    + cbn [send_q]. unfold send_q_maxsize.
      destruct (Nat.ltb_spec (List.length (send_q g)) 20); [|exact Hg].
      rewrite length_app. simpl. lia.
  - intros g l Hg. exact Hg.
  - intros g i g1 Hi Hg Hstep.
    destruct i as [[data|]| | | ]; cbn [Client.step] in Hstep.
    + exfalso. now apply (Hi data).
    + inversion Hstep; subst. exact Hg.
    + inversion Hstep; subst. exact Hg.
    + inversion Hstep; subst. exact Hg.
    + destruct (send_q g) as [|c rest] eqn:E.
      * inversion Hstep; subst. rewrite E. simpl. lia.
      * inversion Hstep; subst. cbn [send_q]. simpl in Hg. lia.
  - simpl. lia.
Qed.


(** X15.  Once the processor has taken the [None] sentinel from the audio
    queue it runs on no further frame: later chunks are neither scanned
    nor forwarded nor kept. *)
Theorem X15_nothing_after_the_sentinel (g g' : gate) (inputs : list input) :
  alive g = false ->
  run g inputs = Some g' ->
  frames_seen g' = frames_seen g
  /\ leftover g' = leftover g
  /\ accepted g' = accepted g.
Proof.
  intros Hdead Hrun.
  assert (H : alive g' = false /\ frames_seen g' = frames_seen g
              /\ leftover g' = leftover g /\ accepted g' = accepted g);
    [|tauto].
  revert g Hdead Hrun.
  induction inputs as [|i inputs IH]; intros g Hdead Hrun.
  - inversion Hrun; subst. tauto.
  - cbn [Client.run] in Hrun.
    destruct (step g i) as [g1|] eqn:Hstep; [|discriminate].
    assert (H1 : alive g1 = false /\ frames_seen g1 = frames_seen g
                 /\ leftover g1 = leftover g /\ accepted g1 = accepted g).
    { destruct i as [[data|]| | | ]; cbn [Client.step] in Hstep.
      - rewrite Hdead in Hstep. inversion Hstep; subst. tauto.
      - inversion Hstep; subst. cbn. tauto.
      - inversion Hstep; subst. cbn. tauto.
      - inversion Hstep; subst. cbn. tauto.
      - destruct (send_q g) as [|c rest].
        + inversion Hstep; subst. tauto.
        + inversion Hstep; subst.
          unfold frames_seen, accepted. cbn [alive leftover effects].
          rewrite !flat_map_app. cbn. rewrite !app_nil_r. tauto. }
    destruct H1 as [Ha [Hf [Hl Hacc]]].
    destruct (IH g1 Ha Hrun) as [Ha' [Hf' [Hl' Hacc']]].
    repeat split; congruence.
Qed.

(** A chunk of two whole frames met with nothing left over: the loop
    body runs on the one, then on the other. *)
Lemma on_chunk_two_frames (g : gate) (f1 f2 : list byte) :
  0 < frame_len ->
  leftover g = [] ->
  List.length f1 = frame_len * 2 ->
  List.length f2 = frame_len * 2 ->
  Client.on_chunk porcupine_process frame_len g (f1 ++ f2)
  = Some (set_leftover (on_frame (on_frame g f1) f2) []).
Proof.
  intros Hpos Hleft H1 H2. unfold Client.on_chunk. rewrite Hleft. cbn [app].
  assert (Hlen : List.length (f1 ++ f2) = frame_len * 2 + frame_len * 2)
    by (rewrite length_app; lia).
  assert (Hs1 : slice (f1 ++ f2) 0 (0 + frame_len * 2) = f1).
  { unfold slice. rewrite Nat.sub_0_r, skipn_0. cbn [Nat.add].
    rewrite <- H1, firstn_app, Nat.sub_diag, firstn_all, firstn_O.
    apply app_nil_r. }
  assert (Hs2 : slice (f1 ++ f2) (0 + frame_len * 2)
                  (0 + frame_len * 2 + frame_len * 2) = f2).
  { unfold slice. cbn [Nat.add].
    replace (frame_len * 2 + frame_len * 2 - frame_len * 2) with (frame_len * 2)
      by lia.
    rewrite <- H1 at 2. rewrite skipn_app, Nat.sub_diag, skipn_all, skipn_O.
    cbn [app]. rewrite <- H2. apply firstn_all. }
  rewrite Hlen.
  destruct frame_len as [|n]; [lia|].
  replace (S n * 2 + S n * 2) with (S (S (S (n * 4 + 1)))) in * by lia.
  cbn [Client.frames_loop]. unfold bytes_per_frame.
  rewrite Hlen.
  destruct (Nat.leb_spec (0 + S n * 2) (S (S (S (n * 4 + 1))))) as [_|]; [|lia].
  destruct (Nat.leb_spec (0 + S n * 2 + S n * 2) (S (S (S (n * 4 + 1)))))
    as [_|]; [|lia].
  rewrite Hs1, Hs2.
  destruct (n * 4 + 1) as [|m] eqn:Em; [lia|].
  cbn [Client.frames_loop]. unfold bytes_per_frame. rewrite Hlen.
  destruct (Nat.leb_spec (0 + S n * 2 + S n * 2 + S n * 2) (S (S (S (S m)))))
    as [|_]; [lia|].
  rewrite skipn_all2 by lia. reflexivity.
Qed.

(** X16.  A chunk of two frames that meets the gate Idle, the keyword
    being reported on the first: the first frame goes to the detector
    only, the second is offered to the send queue - accepted unless the
    queue is full - and the gate ends the chunk in Recording with the
    end-of-utterance signal cleared, even if a signal from an earlier
    final was still set when the chunk came. *)
Theorem X16_wake_clears_a_stale_signal (g : gate) (f1 f2 : list byte) (k : Z) :
  0 < frame_len ->
  alive g = true ->
  state g = Idle ->
  leftover g = [] ->
  List.length f1 = frame_len * 2 ->
  List.length f2 = frame_len * 2 ->
  snd (porcupine_process (detector g) f1) = Some k ->
  (0 <= k)%Z ->
  exists g',
    step g (AudioChunk (Some (f1 ++ f2))) = Some g'
    /\ state g' = Recording
    /\ stop_recording_evt g' = false
    /\ effects g'
       = effects g ++ [Detect f1 (Some k);
                       Put f2 (List.length (send_q g) <? send_q_maxsize)]
    /\ send_q g'
       = send_q g ++ (if List.length (send_q g) <? send_q_maxsize
                      then [f2] else [])
    /\ leftover g' = [].
Proof.
  intros Hpos Halive Hidle Hleft Hf1 Hf2 Hres Hk.
  assert (H1 : on_frame g f1
               = {| state := Recording; stop_recording_evt := false;
                    send_q := send_q g;
                    detector := fst (porcupine_process (detector g) f1);
                    leftover := leftover g; alive := alive g;
                    effects := effects g ++ [Detect f1 (Some k)] |}).
  { unfold Client.on_frame. rewrite Hidle.
    destruct (porcupine_process (detector g) f1) as [det' r].
    cbn [snd fst] in *. subst r.
    replace (0 <=? k)%Z with true by (symmetry; apply Z.leb_le; exact Hk).
    reflexivity. }
  eexists. cbn [Client.step]. rewrite Halive.
  split; [apply on_chunk_two_frames; assumption|].
  rewrite H1. unfold Client.on_frame. cbn [state stop_recording_evt send_q
    effects leftover set_leftover].
  rewrite <- app_assoc.
  destruct (List.length (send_q g) <? send_q_maxsize);
    rewrite ?app_nil_r; repeat split.
Qed.

(** X17.  After a final result arrives during a recording, exactly one
    more frame is forwarded: that frame still goes to the queue and puts
    the gate back to Idle, and the next one goes to the wake-word
    detector. *)
Theorem X17_one_frame_after_final (g g1 : gate) (f1 f2 : list byte) :
  state g = Recording ->
  step g FinalReceived = Some g1 ->
  state (on_frame g1 f1) = Idle
  /\ effects (on_frame (on_frame g1 f1) f2)
     = effects g ++ [Put f1 (List.length (send_q g) <? send_q_maxsize);
                     Detect f2 (snd (porcupine_process (detector g) f2))].
Proof.
  intros Hrec Hstep. cbn [Client.step] in Hstep. inversion Hstep; subst.
  unfold Client.on_frame. cbn. rewrite Hrec. cbn.
  destruct (porcupine_process (detector g) f2) as [det' r]. cbn [snd].
  destruct (0 <=? _)%Z; cbn; rewrite <- app_assoc; split; reflexivity.
Qed.

End SenderFacts.

Section SenderExamples.
Import Client Sender.
Local Open Scope nat_scope.
Local Open Scope list_scope.

(** X13 and X14 after the wake frame and one frame of speech. *)
Lemma X13_witness :
  exists g',
    Client.run eager_detector 1 (init tt)
               [AudioChunk (Some [Byte.x01; Byte.x02; Byte.x03; Byte.x04])]
    = Some g'
    /\ List.length (send_q g') <= 20.
Proof.
  eexists. split; [reflexivity|].
  exact (X13_send_queue_is_bounded unit eager_detector 1 tt
           [AudioChunk (Some [Byte.x01; Byte.x02; Byte.x03; Byte.x04])]
           _ eq_refl).
Defined.


(** X15 on a gate that has taken the sentinel, a chunk arriving late. *)
Lemma X15_witness :
  alive stopped = false
  /\ exists g',
       Client.run eager_detector 1 stopped [AudioChunk (Some [Byte.x01; Byte.x02])]
       = Some g'
       /\ frames_seen g' = [].
Proof.
  assert (H : alive stopped = false) by reflexivity.
  split; [exact H|].
  eexists. split; [reflexivity|].
  exact (proj1 (X15_nothing_after_the_sentinel unit eager_detector 1
                  stopped _ [AudioChunk (Some [Byte.x01; Byte.x02])] H eq_refl)).
Defined.

(** X16 on a fresh gate, with frames of one sample. *)
Lemma X16_witness :
  0 < 1
  /\ alive (init tt) = true
  /\ state (init tt) = Idle
  /\ exists g',
       Client.step eager_detector 1 (init tt)
                   (AudioChunk (Some ([Byte.x01; Byte.x02] ++ [Byte.x03; Byte.x04])))
       = Some g'
       /\ state g' = Recording
       /\ send_q g' = [[Byte.x03; Byte.x04]].
Proof.
  assert (H0 : 0 < 1) by lia.
  assert (Ha : alive (init tt) = true) by reflexivity.
  assert (H1 : state (init tt) = Idle) by reflexivity.
  assert (Hl : leftover (init tt) = []) by reflexivity.
  assert (L1 : List.length [Byte.x01; Byte.x02] = 1 * 2) by reflexivity.
  assert (L2 : List.length [Byte.x03; Byte.x04] = 1 * 2) by reflexivity.
  assert (H2 : snd (eager_detector (detector (init tt)) [Byte.x01; Byte.x02])
               = Some 0%Z) by reflexivity.
  assert (H3 : (0 <= 0)%Z) by lia.
  split; [exact H0|]. split; [exact Ha|]. split; [exact H1|].
  destruct (X16_wake_clears_a_stale_signal unit eager_detector 1 (init tt)
              [Byte.x01; Byte.x02] [Byte.x03; Byte.x04] 0%Z
              H0 Ha H1 Hl L1 L2 H2 H3)
    as [g' [Hs [Hst [_ [_ [Hq _]]]]]].
  exists g'. split; [exact Hs|]. split; [exact Hst | exact Hq].
Defined.

(** X17 in the middle of a recording. *)
Lemma X17_witness :
  state recording = Recording
  /\ exists g1,
       Client.step eager_detector 1 recording FinalReceived = Some g1
       /\ state (on_frame eager_detector g1 [Byte.x01; Byte.x02]) = Idle.
Proof.
  assert (H1 : state recording = Recording) by reflexivity.
  split; [exact H1|].
  eexists. split; [reflexivity|].
  exact (proj1 (X17_one_frame_after_final unit eager_detector 1 recording _
                  [Byte.x01; Byte.x02] [Byte.x03; Byte.x04] H1 eq_refl)).
Defined.

End SenderExamples.

(** ** The client's listener *)

Section ListenerFacts.
Import Json Str Server Listener.
Local Open Scope string_scope.
Local Open Scope list_scope.

Variable json_loads : string -> option json.

Lemma eq_str_true (v : option json) (s : string) :
  eq_str v s = true -> v = Some (JStr s).
Proof.
  destruct v as [[ | | | |s'| | ]|]; simpl; try discriminate.
  intros H. apply String.eqb_eq in H. now subst.
Qed.

(** X18.  The listener raises the end-of-utterance signal only for a
    text message that parses to an object of type [final]; when it does,
    it has written the final line and goes on listening.  A binary
    message, or a text that does not parse to an object, is printed as
    it is, raises nothing and does not stop the listener. *)
Theorem X18_signal_only_from_final (msg : ws_in) :
  (signal (receiver_step json_loads msg) = true ->
   exists s data text,
     msg = TextIn s
     /\ json_loads s = Some (JDict data)
     /\ dict_get data "type" = Some (JStr "final")
     /\ receiver_step json_loads msg
        = {| written := [ClearLine; FinalLine text];
             signal := true; running := true |})
  /\ ((forall s data, msg = TextIn s -> json_loads s <> Some (JDict data)) ->
      receiver_step json_loads msg = keep [Verbatim msg]).
Proof.
  split.
  - destruct msg as [s|b]; cbn [receiver_step]; [|discriminate].
    destruct (json_loads s) as [[ | | | | | |data]|] eqn:E; try discriminate.
    unfold dispatch.
    destruct (eq_str (dict_get data "type") "partial") eqn:Ep.
    { unfold on_partial. destruct (dict_get data "text") as [[]|]; discriminate. }
    destruct (eq_str (dict_get data "type") "final") eqn:Ef.
    + intros Hsig. apply eq_str_true in Ef.
      unfold on_final in *.
      destruct (final_text data) as [[[ | | | |text| | ]|]|]; try discriminate.
      exists s, data, text. repeat split; assumption.
    + destruct (eq_str (dict_get data "type") "error"); [discriminate|].
      destruct (eq_str (dict_get data "type") "ready"); discriminate.
  - intros Hnot. destruct msg as [s|b]; cbn [receiver_step]; [|reflexivity].
    destruct (json_loads s) as [[ | | | | | |data]|] eqn:E; try reflexivity.
    exfalso. exact (Hnot s data eq_refl E).
Qed.

(** X19.  What the server's multiplexer writes, the client's listener
    survives: for every message queued for an engine event - a recognized
    event having a text - the dispatch goes on listening, and it raises
    the end-of-utterance signal exactly for a recognized event that is
    written as [final].  The server's own [ready], [stop_ack] and error
    messages are handled without a signal. *)
Theorem X19_listener_on_server_messages (c : evclass) (e : engine_event)
    (m : dict) :
  In m (routed json_loads c e) ->
  (forall t r raw, e = Recognized t r raw -> t <> EmptyString) ->
  (running (dispatch m) = true
   /\ signal (dispatch m)
      = match e with
        | Recognized _ r _ => negb (String.eqb r "CancellationReason.Error")
        | _ => false
        end)
  /\ dispatch ready = keep [ReadyLine]
  /\ dispatch stop_ack = keep []
  /\ (forall detail, dispatch (error_msg detail) = keep [ErrorLine (error_msg detail)]).
Proof.
  intros Hin Htext.
  split; [|repeat split].
  unfold routed in Hin.
  destruct e as [t|t r raw|r d| | ]; cbn [Server.on_engine] in Hin.
  - destruct c; cbn in Hin; try contradiction.
    destruct Hin as [<-|[]]. split; reflexivity.
  - assert (Ht : String.eqb t EmptyString = false).
    { destruct (String.eqb_spec t EmptyString) as [->|]; [|reflexivity].
      exfalso. exact (Htext _ _ _ eq_refl eq_refl). }
    unfold handle_recognized in Hin.
    destruct (truthy raw); [destruct (json_loads _) as [v|]|];
      destruct c; cbn in Hin; try contradiction;
      destruct Hin as [<-|[]]; unfold msg_recognized; cbn;
      destruct (String.eqb r "CancellationReason.Error"); cbn;
      unfold on_final, final_text; cbn; rewrite ?Ht; cbn; split; reflexivity.
  - unfold handle_canceled in Hin.
    destruct (is_Error r); destruct c; cbn in Hin; try contradiction;
      destruct Hin as [<-|[]]; split; reflexivity.
  - destruct c; cbn in Hin; try contradiction.
    destruct Hin as [<-|[]]. split; reflexivity.
  - destruct c; cbn in Hin; try contradiction.
    destruct Hin as [<-|[]]. split; reflexivity.
Qed.

End ListenerFacts.

Section ListenerExamples.
Import Json Str Server Listener.
Local Open Scope string_scope.
Local Open Scope list_scope.

(** X18 on a text message. *)
Lemma X18_witness :
  signal (receiver_step loads_final (TextIn "x")) = true
  /\ exists s data text,
       TextIn "x" = TextIn s
       /\ loads_final s = Some (JDict data)
       /\ dict_get data "type" = Some (JStr "final")
       /\ receiver_step loads_final (TextIn "x")
          = {| written := [ClearLine; FinalLine text];
               signal := true; running := true |}.
Proof.
  assert (H : signal (receiver_step loads_final (TextIn "x")) = true)
    by reflexivity.
  split; [exact H|].
  exact (proj1 (X18_signal_only_from_final loads_final (TextIn "x")) H).
Defined.

(** X19 on the message written for a recognized event. *)
Lemma X19_witness :
  let e := Recognized "hi" "ResultReason.RecognizedSpeech" None in
  let m := [("type", JStr "final"); ("text", JStr "hi");
            ("reason", JStr "ResultReason.RecognizedSpeech")] in
  In m (routed loads_stop_only CRecognized e)
  /\ signal (dispatch m) = true.
Proof.
  cbv zeta.
  assert (H1 : In [("type", JStr "final"); ("text", JStr "hi");
                   ("reason", JStr "ResultReason.RecognizedSpeech")]
                  (routed loads_stop_only CRecognized
                     (Recognized "hi" "ResultReason.RecognizedSpeech" None)))
    by (left; reflexivity).
  assert (H2 : forall t r raw,
             Recognized "hi" "ResultReason.RecognizedSpeech" None
             = Recognized t r raw -> t <> EmptyString)
    by (intros t r raw E; inversion E; subst; discriminate).
  split; [exact H1|].
  exact (proj2 (proj1 (X19_listener_on_server_messages loads_stop_only
                         CRecognized _ _ H1 H2))).
Defined.

End ListenerExamples.

(** ** The client: microphone blocks and frames *)

Section BlockFacts.
Import Client Sender.
Local Open Scope nat_scope.
Local Open Scope list_scope.

Variable DetState : Type.
Variable porcupine_process : DetState -> list byte -> DetState * option Z.
Variable frame_len : nat.

Local Abbreviation gate := (Client.gate DetState).
Local Abbreviation on_chunk := (Client.on_chunk porcupine_process frame_len).
Local Abbreviation step := (Client.step porcupine_process frame_len).
Local Abbreviation run := (Client.run porcupine_process frame_len).
Local Abbreviation bpf := (Client.bytes_per_frame frame_len).

(** Frames of one size that fill a buffer of that size: there is one. *)
Lemma one_frame_fills (fs : list (list byte)) (rest data : list byte) :
  0 < bpf ->
  List.concat fs ++ rest = data ->
  Forall (fun f => List.length f = bpf) fs ->
  List.length rest < bpf ->
  List.length data = bpf ->
  fs = [data] /\ rest = [].
Proof.
  intros Hpos Hcat Hfs Hrest Hdata.
  assert (Hlen : List.length (List.concat fs) + List.length rest = bpf)
    by (rewrite <- length_app, Hcat; exact Hdata).
  destruct fs as [|f fs]; [simpl in Hlen; lia|].
  inversion Hfs as [|? ? Hf Hfs']; subst.
  destruct fs as [|f' fs].
  - simpl in Hlen. rewrite app_nil_r in Hlen.
    assert (Hr : rest = []) by (destruct rest; [reflexivity | simpl in Hlen; lia]).
    subst rest. simpl. rewrite !app_nil_r. split; reflexivity.
  - inversion Hfs' as [|? ? Hf' _]; subst.
    simpl in Hlen. rewrite !length_app in Hlen. lia.
Qed.

(** A block processed with nothing left over is one frame, and leaves
    nothing over. *)
Lemma on_chunk_block (g : gate) (data : list byte) :
  0 < frame_len -> leftover g = [] -> List.length data = frame_len * 2 ->
  exists g',
    on_chunk g data = Some g'
    /\ frames_seen g' = frames_seen g ++ [data]
    /\ leftover g' = []
    /\ alive g' = alive g.
Proof.
  intros Hpos Hleft Hdata.
  assert (Hb : 0 < bpf) by (unfold Client.bytes_per_frame; lia).
  destruct (on_chunk_frames DetState porcupine_process frame_len g data Hb)
    as (g' & fs & Hrun & Hseen & Hcat & Hfs & Hrest & Halive).
  rewrite Hleft in Hcat. cbn [app] in Hcat.
  destruct (one_frame_fills fs (leftover g') data Hb Hcat Hfs Hrest Hdata)
    as [-> Hl].
  exists g'. repeat split; assumption.
Qed.

Lemma run_blocks :
  0 < frame_len ->
  forall inputs g,
    Forall (one_block frame_len) inputs -> leftover g = [] ->
    exists g',
      run g inputs = Some g'
      /\ leftover g' = []
      /\ frames_seen g' = frames_seen g ++ (if alive g then chunks inputs else []).
Proof.
  intros Hpos. induction inputs as [|i inputs IH]; intros g Hall Hleft.
  - exists g. cbn [Client.run chunks]. repeat split; [exact Hleft|].
    destruct (alive g); now rewrite app_nil_r.
  - inversion Hall as [|? ? Hi Hall']; subst.
    destruct i as [[data|]| | | ]; cbn [Client.run Client.step chunks].
    + destruct (alive g) eqn:Ha.
      * destruct (on_chunk_block g data Hpos Hleft Hi)
          as (g1 & Hrun & Hseen & Hl1 & Ha1).
        rewrite Hrun. destruct (IH g1 Hall' Hl1) as (g' & Hr & Hl & Hs).
        exists g'. split; [exact Hr|]. split; [exact Hl|].
        rewrite Hs, Hseen, Ha1, Ha, <- app_assoc. reflexivity.
      * destruct (IH g Hall' Hleft) as (g' & Hr & Hl & Hs).
        exists g'. split; [exact Hr|]. split; [exact Hl|].
        rewrite Hs, Ha. reflexivity.
    + match goal with |- context [run ?g1 inputs] =>
        destruct (IH g1 Hall' Hleft) as (g' & Hr & Hl & Hs) end.
      exists g'. split; [exact Hr|]. split; [exact Hl|].
      cbn [alive] in Hs. rewrite Hs, !app_nil_r.
      destruct (alive g); now rewrite ?app_nil_r.
    + match goal with |- context [run ?g1 inputs] =>
        destruct (IH g1 Hall' Hleft) as (g' & Hr & Hl & Hs) end.
      exists g'. split; [exact Hr|]. split; [exact Hl|]. exact Hs.
    + match goal with |- context [run ?g1 inputs] =>
        destruct (IH g1 Hall' Hleft) as (g' & Hr & Hl & Hs) end.
      exists g'. split; [exact Hr|]. split; [exact Hl|]. exact Hs.
    + destruct (send_q g) as [|chunk rest] eqn:Hq.
      * destruct (IH g Hall' Hleft) as (g' & Hr & Hl & Hs).
        exists g'. split; [exact Hr|]. split; [exact Hl|]. exact Hs.
      * match goal with |- context [run ?g1 inputs] =>
          destruct (IH g1 Hall' Hleft) as (g' & Hr & Hl & Hs) end.
        exists g'. split; [exact Hr|]. split; [exact Hl|].
        rewrite Hs. unfold Client.frames_seen. cbn [effects alive].
        rewrite flat_map_app. cbn [flat_map frame_of app].
        now rewrite app_nil_r.
Qed.

(** X20.  On a microphone stream opened with [blocksize=frame_len], every
    chunk is one frame: the processor runs its loop body on exactly the
    chunks it took from the queue before the sentinel, each once and in
    order, and never carries bytes over from one chunk to the next. *)
Theorem X20_mic_blocks_are_frames (d : DetState) (inputs : list input) :
  0 < frame_len ->
  Forall (one_block frame_len) inputs ->
  exists g',
    run (init d) inputs = Some g'
    /\ leftover g' = []
    /\ frames_seen g' = chunks inputs.
Proof.
  intros Hpos Hall.
  destruct (run_blocks Hpos inputs (init d) Hall eq_refl) as (g' & Hr & Hl & Hs).
  exists g'. split; [exact Hr|]. split; [exact Hl|]. exact Hs.
Qed.

End BlockFacts.

Section BlockExamples.
Import Client Sender.

(** X20 on two blocks of one sample each, a final result in between. *)
Lemma X20_witness :
  exists g',
    Client.run eager_detector 1 (init tt)
      [AudioChunk (Some [Byte.x01; Byte.x00]); FinalReceived;
       AudioChunk (Some [Byte.x02; Byte.x00])] = Some g'
    /\ leftover g' = []
    /\ frames_seen g' = [[Byte.x01; Byte.x00]; [Byte.x02; Byte.x00]].
Proof.
  apply (X20_mic_blocks_are_frames unit eager_detector 1 tt
           [AudioChunk (Some [Byte.x01; Byte.x00]); FinalReceived;
            AudioChunk (Some [Byte.x02; Byte.x00])]).
  - apply Nat.lt_0_1.
  - repeat constructor.
Defined.

End BlockExamples.
